(** * Receipt text interpretation: date disambiguation, field extraction,
      validation.

    A shallow embedding of the text-interpretation core of the personal
    finance application:

    - [DateParser]: the universal date parser (utils/dateParser.js);
    - [Receipt]: the line extractors shared verbatim by the two OCR
      services (services/ocrService.js, services/tesseractOcrService.js);
    - [OcrService], [TesseractOcrService]: what differs between the two
      services (date pattern table, validation), and the line-oriented
      parser instantiated for each.

    JavaScript strings are sequences of UTF-16 code units, numbers are
    IEEE-754 doubles (Rocq's primitive floats), [Date] time values are
    integers (milliseconds since the epoch) or NaN, and exceptions are made
    explicit by a small error monad. *)

From Stdlib Require Import String Ascii.
From Stdlib Require Import ZArith NArith Arith Bool List Lia.
From Stdlib Require Import PrimFloat SpecFloat FloatOps FloatAxioms.
Import ListNotations.

Set Implicit Arguments.
#[local] Set Warnings "-inexact-float".

(* ===================================================================== *)
(** * Exceptions *)
(* ===================================================================== *)

(** A computation either returns a value or throws an [Error] carrying a
    message. *)
Inductive js (A : Type) : Type :=
| Ok (a : A)
| Throw (msg : string).
Arguments Ok {A} a.
Arguments Throw {A} msg.

Definition js_bind {A B} (m : js A) (f : A -> js B) : js B :=
  match m with
  | Ok a => f a
  | Throw e => Throw e
  end.

Declare Scope js_scope.
Delimit Scope js_scope with js.
Notation "x <- m ;; k" := (js_bind m (fun x => k))
  (at level 61, m at next level, right associativity) : js_scope.

(** [try { m } catch (error) { h }] *)
Definition try_catch {A} (m : js A) (h : string -> A) : A :=
  match m with
  | Ok a => a
  | Throw e => h e
  end.

(** First alternative that succeeds; the second one is only evaluated when
    the first fails. *)
Notation "a 'orelse' b" :=
  (match a with Some x => Some x | None => b end)
  (at level 65, right associativity, only parsing).

(* ===================================================================== *)
(** * JavaScript strings *)
(* ===================================================================== *)

Module JS.
#[local] Open Scope N_scope.

(** A code unit. *)
Definition char := N.
Definition jsstring := list char.

(** String literals of the sources (all of them ASCII). *)
Definition lit (s : string) : jsstring :=
  map N_of_ascii (list_ascii_of_string s).

Definition ch (a : ascii) : char := N_of_ascii a.

Definition between (lo hi c : char) : bool := (N.leb lo c && N.leb c hi)%bool.

Definition isDigit (c : char) : bool := between 48 57 c.
Definition isUpper (c : char) : bool := between 65 90 c.
Definition isLower (c : char) : bool := between 97 122 c.
Definition isAlpha (c : char) : bool := (isUpper c || isLower c)%bool.

(** ECMAScript [LineTerminator]: LF, CR, LS, PS. *)
Definition isLineTerminator (c : char) : bool :=
  (N.eqb c 10 || N.eqb c 13 || N.eqb c 8232 || N.eqb c 8233)%bool.

(** ECMAScript [WhiteSpace] and [LineTerminator]: the characters matched by
    [\s] and stripped by [String.prototype.trim]. *)
Definition isSpace (c : char) : bool :=
  (between 9 13 c || N.eqb c 32 || N.eqb c 160 || N.eqb c 5760
   || between 8192 8202 c || N.eqb c 8232 || N.eqb c 8233 || N.eqb c 8239
   || N.eqb c 8287 || N.eqb c 12288 || N.eqb c 65279)%bool.

(** [\w]: [[A-Za-z0-9_]]. *)
Definition isWord (c : char) : bool :=
  (isAlpha c || isDigit c || N.eqb c 95)%bool.

(** Case folding of the ASCII letters.  Every literal and class of the
    sources' case-insensitive patterns is ASCII, and without the [u] flag
    no character outside ASCII is canonicalized to an ASCII one, so this is
    all of [Canonicalize] those patterns can observe. *)
Definition upper (c : char) : char := if isLower c then (c - 32)%N else c.
Definition lower (c : char) : char := if isUpper c then (c + 32)%N else c.

(** [String.prototype.toLowerCase], on the ASCII letters.  Its only
    consumer is [includes] with the words date, transaction, receipt and
    purchase, which no lower-cased non-ASCII letter can complete. *)
Definition toLowerCase (s : jsstring) : jsstring := map lower s.

Fixpoint dropWhile (p : char -> bool) (s : jsstring) : jsstring :=
  match s with
  | c :: tl => if p c then dropWhile p tl else s
  | [] => []
  end.

Definition trimStart (s : jsstring) : jsstring := dropWhile isSpace s.
Definition trimEnd (s : jsstring) : jsstring := rev (dropWhile isSpace (rev s)).
Definition trim (s : jsstring) : jsstring := trimEnd (trimStart s).

Fixpoint eqb (a b : jsstring) : bool :=
  match a, b with
  | [], [] => true
  | x :: a', y :: b' => (N.eqb x y && eqb a' b')%bool
  | _, _ => false
  end.

Fixpoint startsWith (p s : jsstring) : bool :=
  match p, s with
  | [], _ => true
  | x :: p', y :: s' => (N.eqb x y && startsWith p' s')%bool
  | _ :: _, [] => false
  end.

Fixpoint includes (s w : jsstring) : bool :=
  (startsWith w s ||
   match s with
   | [] => false
   | _ :: tl => includes tl w
   end)%bool.

(** [s.split('\n')] *)
Fixpoint split_lines_aux (cur : jsstring) (s : jsstring) : list jsstring :=
  match s with
  | [] => [rev cur]
  | c :: tl =>
      if N.eqb c 10 then rev cur :: split_lines_aux [] tl
      else split_lines_aux (c :: cur) tl
  end.
Definition split_lines (s : jsstring) : list jsstring := split_lines_aux [] s.

(** Decimal digits of a natural number, as [String(n)] prints them. *)
Definition digitChar (d : N) : char := (48 + d)%N.

Fixpoint digits_fuel (fuel : nat) (n : N) (acc : jsstring) : jsstring :=
  match fuel with
  | O => acc
  | S f =>
      let acc' := digitChar (n mod 10) :: acc in
      if (n <? 10)%N then acc' else digits_fuel f (n / 10) acc'
  end.
Definition natToString (n : N) : jsstring :=
  digits_fuel (S (N.to_nat (N.log2 n))) n [].

(** [String(n).padStart(w, '0')] *)
Definition padStart0 (w : nat) (s : jsstring) : jsstring :=
  repeat (ch "0") (w - length s)%nat ++ s.

(** Value of a string of decimal digits ([parseInt] on a [\d+] capture). *)
Definition digitsValue (s : jsstring) : N :=
  fold_left (fun acc c => acc * 10 + (c - 48)) s 0.

End JS.
Import JS.

(* ===================================================================== *)
(** * Regular expressions *)
(* ===================================================================== *)

Module Regex.

(** Members of a character class. *)
Inductive citem : Type :=
| Ch (c : ascii)             (* a literal character *)
| Rg (lo hi : ascii)         (* a range [lo-hi] *)
| Dg                         (* \d *)
| Sp                         (* \s *)
| Wd.                        (* \w *)

(** Atoms matching exactly one character. *)
Inductive atom : Type :=
| Dot                        (* .  : anything but a line terminator *)
| OneOf (items : list citem)    (* [...]  *)
| NoneOf (items : list citem). (* [^...] *)

(** The fragment of the pattern language the sources use: every quantifier
    is applied to a one-character atom, except the optional group
    [(AM|PM)?]. *)
Inductive regex : Type :=
| Eps
| Atom (a : atom)
| Seq (r1 r2 : regex)
| Alt (r1 r2 : regex)
| Grp (n : nat) (r : regex)                              (* n-th capture *)
| Rep (greedy : bool) (mn : nat) (mx : option nat) (a : atom)
| Opt (r : regex)                                        (* r? *)
| Bol                                                    (* ^ *)
| Eol                                                    (* $ *)
| NotAhead (r : regex).                                  (* (?!r) *)

Definition item_test (ic : bool) (it : citem) (c : char) : bool :=
  match it with
  | Ch a => if ic then N.eqb (upper c) (upper (ch a)) else N.eqb c (ch a)
  | Rg lo hi =>
      if ic then (between (ch lo) (ch hi) c || between (ch lo) (ch hi) (lower c)
                  || between (ch lo) (ch hi) (upper c))%bool
      else between (ch lo) (ch hi) c
  | Dg => isDigit c
  | Sp => isSpace c
  | Wd => isWord c
  end.

Definition atom_test (ic : bool) (a : atom) (c : char) : bool :=
  match a with
  | Dot => negb (isLineTerminator c)
  | OneOf items => existsb (fun it => item_test ic it c) items
  | NoneOf items => negb (existsb (fun it => item_test ic it c) items)
  end.

(** Matcher state: index of the next character, the characters from there
    on, and the captures made so far (most recent first). *)
Record mstate : Type := MState {
  pos : nat;
  rest : jsstring;
  caps : list (nat * jsstring)
}.

Definition cont := mstate -> option mstate.

(** Quantified atom.  Greedy: take one more character first and give it
    back on failure; lazy: try the continuation first. *)
Fixpoint rep (t : char -> bool) (greedy : bool) (mn : nat) (mx : option nat)
    (p : nat) (l : jsstring) (cs : list (nat * jsstring)) (k : cont)
    {struct l} : option mstate :=
  let more :=
    fun _ : unit =>
      match mx, l with
      | Some O, _ => None
      | _, c :: tl =>
          if t c then rep t greedy (Nat.pred mn) (option_map Nat.pred mx) (S p) tl cs k
          else None
      | _, [] => None
      end in
  let stop :=
    fun _ : unit =>
      match mn with
      | O => k (MState p l cs)
      | S _ => None
      end in
  if greedy then more tt orelse stop tt else stop tt orelse more tt.

(** Backtracking matcher in continuation-passing style, following the
    priority order of ECMAScript: left alternative first, greedy
    quantifiers longest first, lazy ones shortest first. *)
Fixpoint exec (ic : bool) (r : regex) (st : mstate) (k : cont) {struct r}
    : option mstate :=
  match r with
  | Eps => k st
  | Atom a =>
      match rest st with
      | c :: tl => if atom_test ic a c then k (MState (S (pos st)) tl (caps st)) else None
      | [] => None
      end
  | Seq r1 r2 => exec ic r1 st (fun st1 => exec ic r2 st1 k)
  | Alt r1 r2 => exec ic r1 st k orelse exec ic r2 st k
  | Grp n r1 =>
      exec ic r1 st (fun st1 =>
        k (MState (pos st1) (rest st1)
             ((n, firstn (pos st1 - pos st) (rest st)) :: caps st1)))
  | Rep greedy mn mx a =>
      rep (atom_test ic a) greedy mn mx (pos st) (rest st) (caps st) k
  | Opt r1 => exec ic r1 st k orelse k st
  | Bol => match pos st with O => k st | S _ => None end
  | Eol => match rest st with [] => k st | _ :: _ => None end
  | NotAhead r1 =>
      match exec ic r1 st (fun s => Some s) with
      | Some _ => None
      | None => k st
      end
  end.

(** A match: where it starts, the matched text, and the captures. *)
Record rmatch : Type := RMatch {
  index : nat;
  matched : jsstring;       (* match[0] *)
  groups : list (nat * jsstring)
}.

(** [match[n]]; [None] is [undefined]. *)
Fixpoint assoc (n : nat) (l : list (nat * jsstring)) : option jsstring :=
  match l with
  | [] => None
  | (m, v) :: tl => if Nat.eqb n m then Some v else assoc n tl
  end.
Definition group (m : rmatch) (n : nat) : option jsstring := assoc n (groups m).

(** [match[n]] for a group that takes part in every match. *)
Definition grp (m : rmatch) (n : nat) : jsstring :=
  match group m n with Some s => s | None => [] end.

(** Match attempt at one index. *)
Definition exec_at (ic : bool) (r : regex) (i : nat) (s : jsstring) : option rmatch :=
  match exec ic r (MState i s []) (fun st => Some st) with
  | Some st => Some (RMatch i (firstn (pos st - i) s) (caps st))
  | None => None
  end.

(** Leftmost match from index [i] on, [s] being the text from [i] on:
    [RegExp.prototype.exec]. *)
Fixpoint search_from (ic : bool) (r : regex) (i : nat) (s : jsstring) : option rmatch :=
  exec_at ic r i s orelse
  match s with
  | [] => None
  | _ :: tl => search_from ic r (S i) tl
  end.

(** [str.match(re)] for a pattern without the [g] flag. *)
Definition search (ic : bool) (r : regex) (s : jsstring) : option rmatch :=
  search_from ic r 0 s.

(** [re.test(str)] *)
Definition test (ic : bool) (r : regex) (s : jsstring) : bool :=
  match search ic r s with Some _ => true | None => false end.

(** All matches of a [g] pattern, as the loop
    [while ((match = pattern.exec(text)) !== null)] sees them: after a
    match, the search resumes at its end ([lastIndex]).  [skip] counts the
    characters of the last match still to be stepped over.  A match that
    consumed nothing would leave [lastIndex] where it is and the loop
    would not advance; every pattern the loop is run with starts with a
    digit or a letter it must consume, so none has such a match. *)
Fixpoint exec_all (ic : bool) (r : regex) (i skip : nat) (s : jsstring)
    {struct s} : list rmatch :=
  match skip with
  | S n =>
      match s with
      | [] => []
      | _ :: tl => exec_all ic r (S i) n tl
      end
  | O =>
      match exec_at ic r i s with
      | Some m =>
          m :: match s with
               | [] => []
               | _ :: tl => exec_all ic r (S i) (Nat.pred (length (matched m))) tl
               end
      | None =>
          match s with
          | [] => []
          | _ :: tl => exec_all ic r (S i) 0 tl
          end
      end
  end.

Definition matchAll (ic : bool) (r : regex) (s : jsstring) : list rmatch :=
  exec_all ic r 0 0 s.

(** [str.replace(re, '')] for a [g] pattern: every match is deleted. *)
Fixpoint delete_all (ic : bool) (r : regex) (i skip : nat) (s : jsstring)
    {struct s} : jsstring :=
  match skip with
  | S n =>
      match s with
      | [] => []
      | _ :: tl => delete_all ic r (S i) n tl
      end
  | O =>
      match exec_at ic r i s, s with
      | Some m, c :: tl =>
          match length (matched m) with
          | O => c :: delete_all ic r (S i) 0 tl
          | S n => delete_all ic r (S i) n tl
          end
      | None, c :: tl => c :: delete_all ic r (S i) 0 tl
      | _, [] => []
      end
  end.

Definition removeAll (ic : bool) (r : regex) (s : jsstring) : jsstring :=
  delete_all ic r 0 0 s.

(** ** Building patterns *)

Definition chr (a : ascii) : regex := Atom (OneOf [Ch a]).

(** A literal word. *)
Definition word (s : string) : regex :=
  fold_right (fun a r => Seq (chr a) r) Eps (list_ascii_of_string s).

Fixpoint seq (rs : list regex) : regex :=
  match rs with
  | [] => Eps
  | [r] => r
  | r :: tl => Seq r (seq tl)
  end.

Fixpoint alt (rs : list regex) : regex :=
  match rs with
  | [] => NotAhead Eps
  | [r] => r
  | r :: tl => Alt r (alt tl)
  end.

Definition words (ws : list string) : regex := alt (map word ws).

Definition digit : atom := OneOf [Dg].
Definition space : atom := OneOf [Sp].

Definition star (a : atom) : regex := Rep true 0 None a.
Definition plus (a : atom) : regex := Rep true 1 None a.
Definition lazy_plus (a : atom) : regex := Rep false 1 None a.
Definition opt (a : atom) : regex := Rep true 0 (Some 1) a.
Definition times (n : nat) (a : atom) : regex := Rep true n (Some n) a.
Definition range (n m : nat) (a : atom) : regex := Rep true n (Some m) a.
Definition atleast (n : nat) (a : atom) : regex := Rep true n None a.

End Regex.
Import Regex.

(* ===================================================================== *)
(** * Numbers *)
(* ===================================================================== *)

Module Num.

Definition number := float.

(** The double nearest to [n / d]. *)
Definition ratio (n d : N) : number :=
  match n, d with
  | Npos p, Npos q =>
      SF2Prim (SFdiv prec emax (S754_finite false p 0) (S754_finite false q 0))
  | N0, Npos _ => 0%float
  | Npos _, N0 => infinity
  | N0, N0 => nan
  end.

Definition ofZ (z : Z) : number :=
  match z with
  | Z0 => 0%float
  | Zpos p => SF2Prim (binary_normalize prec emax (Zpos p) 0 false)
  | Zneg p => SF2Prim (binary_normalize prec emax (Zneg p) 0 false)
  end.

Fixpoint takeWhile (p : char -> bool) (s : jsstring) : jsstring :=
  match s with
  | c :: tl => if p c then c :: takeWhile p tl else []
  | [] => []
  end.

(** [parseFloat] on a text that starts with an unsigned decimal literal
    without exponent, as every [(\d+\.\d{2})] capture does: the digits
    around the point are read and the nearest double is returned. *)
Definition parseFloat (s : jsstring) : number :=
  let ip := takeWhile isDigit s in
  let fp := match skipn (length ip) s with
            | c :: tl => if N.eqb c (ch ".") then takeWhile isDigit tl else []
            | [] => []
            end in
  match ip ++ fp with
  | [] => nan
  | ds => ratio (digitsValue ds) (10 ^ N.of_nat (length fp))
  end.

(** [parseInt] on a text that starts with decimal digits, as a number. *)
Definition parseInt (s : jsstring) : number :=
  match takeWhile isDigit s with
  | [] => nan
  | ds => ratio (digitsValue ds) 1
  end.

Definition is_nan (x : number) : bool := negb (PrimFloat.eqb x x).

(** [ToBoolean] of a number: false for [+0], [-0] and [NaN]. *)
Definition truthy (x : number) : bool :=
  negb (PrimFloat.eqb x 0%float || is_nan x).

(** [x || y] on numbers *)
Definition or_else (x y : number) : number := if truthy x then x else y.

(** [Math.round]: the integer nearest to [x], ties towards +infinity; the
    sign of a zero result is the sign of [x]. *)
Definition round (x : number) : number :=
  match Prim2SF x with
  | S754_finite s m e =>
      if (0 <=? e)%Z then x
      else
        let sm := if s then Zneg m else Zpos m in
        let r := ((2 * sm + 2 ^ (- e)) / 2 ^ (1 - e))%Z in
        if (r =? 0)%Z then (if s then (-0)%float else 0%float) else ofZ r
  | _ => x
  end.

(** What [`${x}`] distinguishes: two numbers print alike exactly when they
    are the same double, are both zeros, or are both NaN. *)
Definition printKey (x : number) : spec_float :=
  match Prim2SF x with
  | S754_zero _ => S754_zero false
  | v => v
  end.

Definition gt (x y : number) : bool := PrimFloat.ltb y x.
Definition lt (x y : number) : bool := PrimFloat.ltb x y.

End Num.

(* ===================================================================== *)
(** * Dates *)
(* ===================================================================== *)

Module DateTime.
#[local] Open Scope Z_scope.

(** The time value of a [Date]: milliseconds since the epoch, or [None]
    for NaN (an Invalid Date). *)
Definition date := option Z.

Definition msPerDay : Z := 86400000.

(** Day number of a civil date of the proleptic Gregorian calendar
    (month 1..12), counted from 1970-01-01. *)
Definition days_from_civil (y m d : Z) : Z :=
  let y' := if m <=? 2 then y - 1 else y in
  let era := y' / 400 in
  let yoe := y' - era * 400 in
  let mp := if 2 <? m then m - 3 else m + 9 in
  let doy := (153 * mp + 2) / 5 + d - 1 in
  let doe := yoe * 365 + yoe / 4 - yoe / 100 + doy in
  era * 146097 + doe - 719468.

(** Year, month (1..12) and day of the month of a day number. *)
Definition civil_from_days (z : Z) : Z * Z * Z :=
  let z := z + 719468 in
  let era := z / 146097 in
  let doe := z - era * 146097 in
  let yoe := (doe - doe / 1460 + doe / 36524 - doe / 146096) / 365 in
  let doy := doe - (365 * yoe + yoe / 4 - yoe / 100) in
  let mp := (5 * doy + 2) / 153 in
  let d := doy - (153 * mp + 2) / 5 + 1 in
  let m := if mp <? 10 then mp + 3 else mp - 9 in
  ((if m <=? 2 then yoe + era * 400 + 1 else yoe + era * 400), m, d).

(** ECMAScript [Day], [YearFromTime], [MakeDay] (month 0-based, any
    integer; day of the month any integer), [MakeDate], [TimeClip]. *)
Definition Day (t : Z) : Z := t / msPerDay.
Definition YearFromTime (t : Z) : Z := fst (fst (civil_from_days (Day t))).
Definition MakeDay (year month dt : Z) : Z :=
  let ym := year + month / 12 in
  let mn := month mod 12 in
  days_from_civil ym (mn + 1) 1 + dt - 1.
Definition MakeDate (day time : Z) : Z := day * msPerDay + time.
Definition TimeClip (t : Z) : date :=
  if Z.abs t <=? 8640000000000000 then Some t else None.

(** The host: the instant the clock shows during a call, the local time
    zone adjustment [LocalTZA(t, isUTC)] of ECMAScript, and the host's
    parser behind [new Date(string)], whose result for anything but the
    ISO format is implementation-defined. *)
Record env : Type := Env {
  now : Z;
  LocalTZA : Z -> bool -> Z;
  DateParse : jsstring -> date
}.

Section Host.
Variable E : env.

Definition LocalTime (t : Z) : Z := t + LocalTZA E t true.
Definition UTC (t : Z) : Z := t - LocalTZA E t false.

(** [new Date(year, monthIndex, day)] *)
Definition newDate (year monthIndex day : Z) : date :=
  let yr := if (0 <=? year) && (year <=? 99) then 1900 + year else year in
  TimeClip (UTC (MakeDate (MakeDay yr monthIndex day) 0)).

(** [new Date(string)] *)
Definition newDateOfString (s : jsstring) : date := DateParse E s.

(** [new Date()] *)
Definition newDateNow : date := TimeClip (now E).

(** [d.getFullYear()] of a valid date *)
Definition getFullYear (t : Z) : Z := YearFromTime (LocalTime t).

End Host.

Definition pad (w : nat) (n : Z) : jsstring := padStart0 w (natToString (Z.to_N n)).

(** The date part of [toISOString()] for a time value. *)
Definition isoDatePart (t : Z) : jsstring :=
  let '(y, m, d) := civil_from_days (Day t) in
  let year :=
    if (0 <=? y) && (y <=? 9999) then pad 4 y
    else (if y <? 0 then ch "-" else ch "+") :: pad 6 (Z.abs y) in
  year ++ [ch "-"] ++ pad 2 m ++ [ch "-"] ++ pad 2 d.

(** [d.toISOString().split('T')[0]]; [toISOString] throws a [RangeError]
    on an Invalid Date. *)
Definition toISODate (d : date) : js jsstring :=
  match d with
  | Some t => Ok (isoDatePart t)
  | None => Throw "Invalid time value"
  end.

(** [a >= b], [a <= b] on dates: false when either is an Invalid Date. *)
Definition date_ge (a b : date) : bool :=
  match a, b with Some x, Some y => y <=? x | _, _ => false end.
Definition date_le (a b : date) : bool :=
  match a, b with Some x, Some y => x <=? y | _, _ => false end.

(** A time value from a civil UTC date, for stating examples. *)
Definition utc (y m d : Z) : Z := days_from_civil y m d * msPerDay.

End DateTime.
Import DateTime.

(* ===================================================================== *)
(** * The universal date parser (utils/dateParser.js) *)
(* ===================================================================== *)

Module DateParser.
#[local] Open Scope string_scope.
#[local] Open Scope list_scope.
#[local] Open Scope Z_scope.
#[local] Open Scope js_scope.

(** [parseInt] on a capture of one to four digits. *)
Definition parseInt (s : jsstring) : Z := Z.of_N (digitsValue s).

(** [normalizeYear]: two-digit years, [00-30 = 2000-2030],
    [31-99 = 1931-1999]. *)
Definition normalizeYear (year : Z) : Z :=
  if 1900 <=? year then year
  else if year <=? 99 then
    (if year <=? 30 then 2000 + year else 1900 + year)
  else year.

Inductive dateType : Type :=
| US_FULL | EU_FULL | ISO | SHORT_YEAR
| MONTH_NAME_SHORT | MONTH_NAME_FULL | REVERSE_MONTH_NAME
| COMPACT | WITH_TIME | RECEIPT_DATE | TRANSACTION_DATE.

(** [monthMap[monthStr.toLowerCase()]] *)
Definition monthMap : list (string * Z) :=
  [("jan", 0); ("january", 0); ("feb", 1); ("february", 1);
   ("mar", 2); ("march", 2); ("apr", 3); ("april", 3); ("may", 4);
   ("jun", 5); ("june", 5); ("jul", 6); ("july", 6);
   ("aug", 7); ("august", 7); ("sep", 8); ("september", 8);
   ("oct", 9); ("october", 9); ("nov", 10); ("november", 10);
   ("dec", 11); ("december", 11)].

Fixpoint lookup (k : jsstring) (m : list (string * Z)) : option Z :=
  match m with
  | [] => None
  | (n, v) :: tl => if JS.eqb k (lit n) then Some v else lookup k tl
  end.

(** What [formatDateForStorage] is called with: nothing ([null],
    [undefined]), a string, or a [Date]. *)
Inductive dateInput : Type :=
| NoDate
| DateString (s : jsstring)
| DateObject (d : date).

Section Host.
Variable E : env.

(** [isValidDate]: a date is reasonable for a receipt. *)
Definition isValidDate (d : date) : bool :=
  match d with
  | None => false
  | Some _ =>
      let tenYearsAgo := newDate E (getFullYear E (now E) - 10) 0 1 in
      let oneWeekFromNow := TimeClip (now E + 7 * 24 * 60 * 60 * 1000) in
      date_ge d tenYearsAgo && date_le d oneWeekFromNow
  end.

Definition parseUSDate (month day year : jsstring) : js date :=
  let m := parseInt month in
  let d := parseInt day in
  let y := normalizeYear (parseInt year) in
  if (12 <? m) || (31 <? d) then Throw "Invalid US date format"
  else Ok (newDate E y (m - 1) d).

Definition parseEuropeanDate (day month year : jsstring) : js date :=
  let d := parseInt day in
  let m := parseInt month in
  let y := normalizeYear (parseInt year) in
  if (12 <? m) || (31 <? d) then Throw "Invalid European date format"
  else Ok (newDate E y (m - 1) d).

(** [parseAmbiguousDate]: MM/DD against DD/MM. *)
Definition parseAmbiguousDate (first second year : jsstring) : date :=
  let num1 := parseInt first in
  let num2 := parseInt second in
  let y := normalizeYear (parseInt year) in
  if 12 <? num1 then newDate E y (num2 - 1) num1
  else if 12 <? num2 then newDate E y (num1 - 1) num2
  else
    let usDate := newDate E y (num1 - 1) num2 in
    let euDate := newDate E y (num2 - 1) num1 in
    if isValidDate usDate && negb (isValidDate euDate) then usDate
    else if isValidDate euDate && negb (isValidDate usDate) then euDate
    else usDate.

Definition parseShortYear (first second year : jsstring) : date :=
  let y := normalizeYear (parseInt year) in
  parseAmbiguousDate first second (natToString (Z.to_N y)).

Definition parseMonthNameDate (monthStr day year : jsstring) : js date :=
  match lookup (toLowerCase monthStr) monthMap with
  | None => Throw "Unknown month"
  | Some month =>
      let d := parseInt day in
      let y := normalizeYear (parseInt year) in
      Ok (newDate E y month d)
  end.

(** ** The pattern table *)

Definition sep : atom := OneOf [Ch "-"; Ch "/"; Ch "."].
Definition punct : atom := OneOf [Ch "."; Ch ","; Sp].
Definition colon_space : atom := OneOf [Ch ":"; Sp].

Definition shortMonths : regex :=
  words ["Jan"; "Feb"; "Mar"; "Apr"; "May"; "Jun";
         "Jul"; "Aug"; "Sep"; "Oct"; "Nov"; "Dec"].
Definition fullMonths : regex :=
  words ["January"; "February"; "March"; "April"; "May"; "June"; "July";
         "August"; "September"; "October"; "November"; "December"].

(** [(\d{1,2})[-\/.](\d{1,2})[-\/.]] followed by the year group. *)
Definition numeric (year : regex) : regex :=
  seq [Grp 1 (range 1 2 digit); Atom sep;
       Grp 2 (range 1 2 digit); Atom sep; Grp 3 year].

Record datePattern : Type := DatePattern {
  pattern : regex;
  icase : bool;
  type : dateType;
  parser : rmatch -> js date
}.

(** US format, [/(\d{1,2})[-\/.](\d{1,2})[-\/.](\d{4})/g] *)
Definition usFull : datePattern :=
  DatePattern (numeric (times 4 digit)) false US_FULL
    (fun m => parseUSDate (grp m 1) (grp m 2) (grp m 3)).

(** European format, [/(\d{1,2})[-\/.](\d{1,2})[-\/.](\d{4})/g] *)
Definition euFull : datePattern :=
  DatePattern (numeric (times 4 digit)) false EU_FULL
    (fun m => parseEuropeanDate (grp m 1) (grp m 2) (grp m 3)).

Definition datePatterns : list datePattern :=
  [ usFull;
    euFull;
    (* /(\d{4})[-\/.](\d{1,2})[-\/.](\d{1,2})/g *)
    DatePattern
      (seq [Grp 1 (times 4 digit); Atom sep;
            Grp 2 (range 1 2 digit); Atom sep; Grp 3 (range 1 2 digit)])
      false ISO
      (fun m => Ok (newDateOfString E
         (grp m 1 ++ lit "-" ++ padStart0 2 (grp m 2)
                  ++ lit "-" ++ padStart0 2 (grp m 3))));
    (* /(\d{1,2})[-\/.](\d{1,2})[-\/.](\d{2})(?!\d)/g *)
    DatePattern
      (Seq (numeric (times 2 digit)) (NotAhead (Atom digit)))
      false SHORT_YEAR
      (fun m => Ok (parseShortYear (grp m 1) (grp m 2) (grp m 3)));
    (* /(Jan|...|Dec)[a-z]*[.,\s]+(\d{1,2})[.,\s]+(\d{2,4})/gi *)
    DatePattern
      (seq [Grp 1 shortMonths; star (OneOf [Rg "a" "z"]); plus punct;
            Grp 2 (range 1 2 digit); plus punct; Grp 3 (range 2 4 digit)])
      true MONTH_NAME_SHORT
      (fun m => parseMonthNameDate (grp m 1) (grp m 2) (grp m 3));
    (* /(January|...|December)[.,\s]+(\d{1,2})[.,\s]+(\d{2,4})/gi *)
    DatePattern
      (seq [Grp 1 fullMonths; plus punct;
            Grp 2 (range 1 2 digit); plus punct; Grp 3 (range 2 4 digit)])
      true MONTH_NAME_FULL
      (fun m => parseMonthNameDate (grp m 1) (grp m 2) (grp m 3));
    (* /(\d{1,2})[.,\s]+(January|...|December)[.,\s]+(\d{2,4})/gi *)
    DatePattern
      (seq [Grp 1 (range 1 2 digit); plus punct; Grp 2 fullMonths;
            plus punct; Grp 3 (range 2 4 digit)])
      true REVERSE_MONTH_NAME
      (fun m => parseMonthNameDate (grp m 2) (grp m 1) (grp m 3));
    (* /(\d{4})(\d{2})(\d{2})(?!\d)/g *)
    DatePattern
      (seq [Grp 1 (times 4 digit); Grp 2 (times 2 digit);
            Grp 3 (times 2 digit); NotAhead (Atom digit)])
      false COMPACT
      (fun m => Ok (newDateOfString E
         (grp m 1 ++ lit "-" ++ grp m 2 ++ lit "-" ++ grp m 3)));
    (* /(\d{1,2})[-\/.](\d{1,2})[-\/.](\d{2,4})\s+\d{1,2}:\d{2}/g *)
    DatePattern
      (seq [numeric (range 2 4 digit); plus space;
            range 1 2 digit; chr ":"; times 2 digit])
      false WITH_TIME
      (fun m => Ok (parseAmbiguousDate (grp m 1) (grp m 2) (grp m 3)));
    (* /date[:\s]*(\d{1,2})[-\/.](\d{1,2})[-\/.](\d{2,4})/gi *)
    DatePattern
      (seq [word "date"; star colon_space; numeric (range 2 4 digit)])
      true RECEIPT_DATE
      (fun m => Ok (parseAmbiguousDate (grp m 1) (grp m 2) (grp m 3)));
    (* /trans[action]*[:\s]*(\d{1,2})[-\/.](\d{1,2})[-\/.](\d{2,4})/gi *)
    DatePattern
      (seq [word "trans";
            star (OneOf [Ch "a"; Ch "c"; Ch "t"; Ch "i"; Ch "o"; Ch "n"]);
            star colon_space; numeric (range 2 4 digit)])
      true TRANSACTION_DATE
      (fun m => Ok (parseAmbiguousDate (grp m 1) (grp m 2) (grp m 3))) ].

(** [/^\d{4}[-\/]\d{2}[-\/]\d{2}$/] *)
Definition perfectISO : regex :=
  seq [Bol; times 4 digit; Atom (OneOf [Ch "-"; Ch "/"]); times 2 digit;
       Atom (OneOf [Ch "-"; Ch "/"]); times 2 digit; Eol].

Definition type_bonus (t : dateType) : Z :=
  match t with
  | ISO => 30
  | MONTH_NAME_SHORT | MONTH_NAME_FULL | REVERSE_MONTH_NAME => 25
  | RECEIPT_DATE | TRANSACTION_DATE => 20
  | COMPACT => 15
  | WITH_TIME => 10
  | US_FULL | EU_FULL => 5
  | SHORT_YEAR => -5
  end.

Definition bonus (b : bool) (n : Z) : Z := if b then n else 0.

Definition calculateDateConfidence (dateString : jsstring) (t : dateType)
    (fullText : jsstring) : Z :=
  let confidence := 50 + type_bonus t in
  let lowerText := toLowerCase fullText in
  let confidence := confidence + bonus (includes lowerText (lit "date")) 10 in
  let confidence := confidence + bonus (includes lowerText (lit "transaction")) 8 in
  let confidence := confidence + bonus (includes lowerText (lit "receipt")) 8 in
  let confidence := confidence + bonus (includes lowerText (lit "purchase")) 5 in
  let confidence := confidence + bonus (8 <=? Z.of_nat (length dateString)) 5 in
  let confidence := confidence + bonus (test false perfectISO dateString) 10 in
  Z.min 100 (Z.max 0 confidence).

(** An entry of [foundDates]. *)
Record found : Type := Found {
  fdate : Z;                (* date.getTime() *)
  confidence : Z;
  ftype : dateType;
  original : jsstring;
  findex : nat
}.

(** The body of the [while] loop for one match: what it pushes onto
    [foundDates].  The [try] block also formats the date for the log,
    after the push; [valid_date_formats] shows that this cannot throw. *)
Definition candidate (text : jsstring) (p : datePattern) (m : rmatch)
    : list found :=
  try_catch
    (parsedDate <- parser p m ;;
     if isValidDate parsedDate then
       match parsedDate with
       | Some t =>
           Ok [Found t (calculateDateConfidence (matched m) (type p) text)
                 (type p) (matched m) (index m)]
       | None => Ok []
       end
     else Ok [])
    (fun _ => []).

(** [foundDates] after the loop over the table. *)
Definition foundDates (text : jsstring) : list found :=
  flat_map
    (fun p => flat_map (candidate text p) (matchAll (icase p) (pattern p) text))
    datePatterns.

(** The comparator of the sort, as the sign of its result: confidence
    first, then distance from the present. *)
Definition before (a b : found) : bool :=
  if negb (confidence b =? confidence a) then confidence b - confidence a <=? 0
  else
    let diffA := Z.abs (now E - fdate a) in
    let diffB := Z.abs (now E - fdate b) in
    diffA - diffB <=? 0.

(** [Array.prototype.sort] is stable: an element goes after those that do
    not compare greater than it. *)
Fixpoint insert (x : found) (l : list found) : list found :=
  match l with
  | [] => [x]
  | y :: tl => if before y x then y :: insert x tl else x :: l
  end.

Definition sort (l : list found) : list found :=
  fold_left (fun acc x => insert x acc) l [].

(** [extractDateFromText] for a string argument. *)
Definition extractDateFromText (text : jsstring) : js (option jsstring) :=
  match text with
  | [] => Ok None
  | _ =>
      match sort (foundDates text) with
      | [] => Ok None
      | bestDate :: _ =>
          isoDate <- toISODate (Some (fdate bestDate)) ;;
          Ok (Some isoDate)
      end
  end.

(** [getCurrentDateFallback] *)
Definition getCurrentDateFallback : js jsstring := toISODate (newDateNow E).

(** [formatDateForStorage]: nothing and the empty string are falsy; a
    string goes through [new Date(string)]; a [Date] is taken as it is. *)
Definition formatDateForStorage (d : dateInput) : js (option jsstring) :=
  match d with
  | NoDate => Ok None
  | DateString [] => Ok None
  | DateString s =>
      let parsed := newDateOfString E s in
      if isValidDate parsed then (isoDate <- toISODate parsed ;; Ok (Some isoDate))
      else Ok None
  | DateObject date =>
      if isValidDate date then (isoDate <- toISODate date ;; Ok (Some isoDate))
      else Ok None
  end.

End Host.
End DateParser.

(* ===================================================================== *)
(** * The line extractors of the OCR services *)
(* ===================================================================== *)

(** services/ocrService.js and services/tesseractOcrService.js carry the
    same extractors, character for character; they are modelled once.  The
    two files differ in the date pattern table and in the validator, which
    the modules [OcrService] and [TesseractOcrService] supply. *)
Module Receipt.
#[local] Open Scope string_scope.
#[local] Open Scope list_scope.
#[local] Open Scope js_scope.

Import Num.

Record LineItem : Type := Item {
  name : jsstring;
  price : number;
  quantity : number;
  unitPrice : option number
}.

(** The object built by [parseReceiptText]; [None] is [null] or
    [undefined]. *)
Record ParsedReceipt : Type := Receipt_ {
  storeName : option jsstring;
  storeAddress : option jsstring;
  date : option jsstring;
  items : list LineItem;
  total : option number;
  tax : option number;
  subtotal : option number;
  receiptNumber : option jsstring;
  rawText : jsstring;
  confidence : jsstring;
  needsReview : option bool;
  reviewReason : option jsstring
}.

(** [ToBoolean] of a string-or-null and of a number-or-null. *)
Definition truthyS (o : option jsstring) : bool :=
  match o with Some (_ :: _) => true | _ => false end.
Definition truthyN (o : option number) : bool :=
  match o with Some x => truthy x | None => false end.

(** ** Store name *)

Definition dash : atom := OneOf [Ch "-"; Ch "/"].
Definition decor : atom := OneOf [Ch "*"; Ch "-"; Ch "="].
Definition letter : atom := OneOf [Rg "A" "Z"; Rg "a" "z"].

(** [\$?(\d+\.\d{2})], the amount being capture [n]. *)
Definition money (n : nat) : regex :=
  Seq (opt (OneOf [Ch "$"])) (Grp n (seq [plus digit; chr "."; times 2 digit])).

Definition storeSkipPatterns : list (bool * regex) :=
  [ (* /\d{2,4}[-\/]\d{1,2}[-\/]\d{1,4}/ *)
    (false, seq [range 2 4 digit; Atom dash; range 1 2 digit; Atom dash;
                 range 1 4 digit]);
    (* /\$\d+\.\d{2}/ *)
    (false, seq [chr "$"; plus digit; chr "."; times 2 digit]);
    (* /total|tax|subtotal|receipt/i *)
    (true, words ["total"; "tax"; "subtotal"; "receipt"]);
    (* /^\d+$/ *)
    (false, seq [Bol; plus digit; Eol]);
    (* /phone|tel|address/i *)
    (true, words ["phone"; "tel"; "address"]);
    (* /^[*\-=]+$/ *)
    (false, seq [Bol; plus decor; Eol]) ].

Definition isStoreName (line : jsstring) : bool :=
  if existsb (fun p => test (fst p) (snd p) line) storeSkipPatterns then false
  else
    (* /[A-Za-z]{2,}/ *)
    test false (atleast 2 letter) line
    && (3 <=? length line)%nat && (length line <=? 50)%nat.

Definition cleanStoreName (line : jsstring) : jsstring :=
  (* .replace(/[*\-=]{2,}/g, '') *)
  let s := removeAll false (atleast 2 decor) line in
  (* .replace(/^\W+|\W+$/g, '') *)
  let s := removeAll false
             (Alt (Seq Bol (plus (NoneOf [Wd]))) (Seq (plus (NoneOf [Wd])) Eol)) s in
  trim s.

(** ** Dates *)

Section Host.
Variable E : env.

(** [dateStr.trim().replace(/[^\w\s\/-:.,]/g, '')]; in the class, [\/-:]
    is the range from [/] to [:]. *)
Definition cleanDateStr (dateStr : jsstring) : jsstring :=
  removeAll false (Atom (NoneOf [Wd; Sp; Rg "/" ":"; Ch "."; Ch ","])) (trim dateStr).

Definition slashed (a b c : jsstring) : jsstring :=
  a ++ lit "/" ++ b ++ lit "/" ++ c.

(** [year < 50 ? 2000 + year : 1900 + year] *)
Definition expandShortYear (year : Z) : Z :=
  if (year <? 50)%Z then (2000 + year)%Z else (1900 + year)%Z.

(** The text the second attempt of [parseVariousDateFormats] hands to
    [new Date]: a two-digit year is expanded, [00-49 = 2000-2049],
    [50-99 = 1950-1999]. *)
Definition shortYearDateString (dateStr : jsstring) : option jsstring :=
  (* /(\d{1,2})[-\/](\d{1,2})[-\/](\d{2})$/ *)
  match search false
          (seq [Grp 1 (range 1 2 digit); Atom dash; Grp 2 (range 1 2 digit);
                Atom dash; Grp 3 (times 2 digit); Eol]) dateStr with
  | Some parts =>
      let year := DateParser.parseInt (grp parts 3) in
      let year := expandShortYear year in
      Some (slashed (grp parts 1) (grp parts 2) (natToString (Z.to_N year)))
  | None => None
  end.

(** The attempts of [parseVariousDateFormats], in order; [None] stands
    for both [null] and an Invalid Date, which the caller treats alike. *)
Definition parseAttempts (dateStr : jsstring) : list (unit -> DateTime.date) :=
  [ (* direct parsing *)
    (fun _ => newDateOfString E dateStr);
    (* 2-digit years *)
    (fun _ =>
       match shortYearDateString dateStr with
       | Some s => newDateOfString E s
       | None => None
       end);
    (* YYYYMMDD *)
    (fun _ =>
       if test false (seq [Bol; times 8 digit; Eol]) dateStr then
         let year := firstn 4 dateStr in
         let month := firstn 2 (skipn 4 dateStr) in
         let day := firstn 2 (skipn 6 dateStr) in
         newDateOfString E (year ++ lit "-" ++ month ++ lit "-" ++ day)
       else None);
    (* DD.MM.YYYY: /(\d{1,2})\.(\d{1,2})\.(\d{2,4})/ *)
    (fun _ =>
       match search false
               (seq [Grp 1 (range 1 2 digit); chr "."; Grp 2 (range 1 2 digit);
                     chr "."; Grp 3 (range 2 4 digit)]) dateStr with
       | Some parts =>
           newDateOfString E (slashed (grp parts 2) (grp parts 1) (grp parts 3))
       | None => None
       end);
    (* DD/MM/YYYY vs MM/DD/YYYY: /(\d{1,2})[-\/](\d{1,2})[-\/](\d{2,4})/ *)
    (fun _ =>
       match search false
               (seq [Grp 1 (range 1 2 digit); Atom dash; Grp 2 (range 1 2 digit);
                     Atom dash; Grp 3 (range 2 4 digit)]) dateStr with
       | Some parts =>
           let num1 := DateParser.parseInt (grp parts 1) in
           let num2 := DateParser.parseInt (grp parts 2) in
           if (12 <? num1)%Z then
             newDateOfString E (slashed (grp parts 2) (grp parts 1) (grp parts 3))
           else if (12 <? num2)%Z then
             newDateOfString E (slashed (grp parts 1) (grp parts 2) (grp parts 3))
           else
             match newDateOfString E
                     (slashed (grp parts 1) (grp parts 2) (grp parts 3)) with
             | Some usDate => Some usDate
             | None =>
                 newDateOfString E
                   (slashed (grp parts 2) (grp parts 1) (grp parts 3))
             end
       | None => None
       end) ].

Fixpoint firstValid (attempts : list (unit -> DateTime.date)) : DateTime.date :=
  match attempts with
  | [] => None
  | attempt :: tl =>
      match attempt tt with
      | Some t => Some t
      | None => firstValid tl
      end
  end.

Definition parseVariousDateFormats (dateStr : jsstring) : DateTime.date :=
  firstValid (parseAttempts (cleanDateStr dateStr)).

(** [match[1] || match[0]] *)
Definition dateStrOf (m : rmatch) : jsstring :=
  match group m 1 with
  | Some (c :: s) => c :: s
  | _ => matched m
  end.

(** The loop of [extractDate] over its pattern table. *)
Fixpoint extractDateFrom (patterns : list (bool * regex)) (line : jsstring)
    : js (option jsstring) :=
  match patterns with
  | [] => Ok None
  | (ic, pattern) :: tl =>
      match search ic pattern line with
      | Some m =>
          let parsedDate := parseVariousDateFormats (dateStrOf m) in
          match parsedDate with
          | Some _ =>
              let fiveYearsAgo := newDate E (getFullYear E (now E) - 5) 0 1 in
              let tomorrow := TimeClip (now E + 24 * 60 * 60 * 1000) in
              if date_ge parsedDate fiveYearsAgo && date_le parsedDate tomorrow
              then (isoDate <- toISODate parsedDate ;; Ok (Some isoDate))
              else extractDateFrom tl line
          | None => extractDateFrom tl line
          end
      | None => extractDateFrom tl line
      end
  end.

End Host.

(** The date patterns both services have, in the order of
    tesseractOcrService.js. *)
Definition md_y (year : regex) : regex :=
  seq [range 1 2 digit; Atom dash; range 1 2 digit; Atom dash; year].
Definition shortMonths : regex := DateParser.shortMonths.
Definition dot_space : atom := OneOf [Ch "."; Sp].
Definition comma_dot_space : atom := OneOf [Ch ","; Ch "."; Sp].

(** [/(\d{1,2}[-\/]\d{1,2}[-\/]\d{2,4})/] *)
Definition numericDatePattern : bool * regex :=
  (false, Grp 1 (md_y (range 2 4 digit))).

Definition commonDatePatterns : list (bool * regex) :=
  [ numericDatePattern;
    (* /(\d{1,2}[-\/]\d{1,2}[-\/]\d{2})/ *)
    (false, Grp 1 (md_y (times 2 digit)));
    (* /(Jan|...|Dec)[.\s]+\d{1,2}[,.\s]+\d{2,4}/i *)
    (true, seq [Grp 1 shortMonths; plus dot_space; range 1 2 digit;
                plus comma_dot_space; range 2 4 digit]);
    (* /(\d{1,2}[.\s]+(Jan|...|Dec)[.\s]+\d{2,4})/i *)
    (true, Grp 1 (seq [range 1 2 digit; plus dot_space; Grp 2 shortMonths;
                       plus dot_space; range 2 4 digit]));
    (* /(January|...|December)\s+\d{1,2}[,.\s]+\d{2,4}/i *)
    (true, seq [Grp 1 DateParser.fullMonths; plus space; range 1 2 digit;
                plus comma_dot_space; range 2 4 digit]);
    (* /(\d{4}[-\/]\d{1,2}[-\/]\d{1,2})/ *)
    (false, Grp 1 (seq [times 4 digit; Atom dash; range 1 2 digit; Atom dash;
                        range 1 2 digit]));
    (* /(\d{8})/ *)
    (false, Grp 1 (times 8 digit));
    (* /(\d{1,2}\.\d{1,2}\.\d{2,4})/ *)
    (false, Grp 1 (seq [range 1 2 digit; chr "."; range 1 2 digit; chr ".";
                        range 2 4 digit]));
    (* /(\d{1,2}[-\/]\d{1,2}[-\/]\d{2,4})\s+\d{1,2}:\d{2}/ *)
    (false, seq [Grp 1 (md_y (range 2 4 digit)); plus space; range 1 2 digit;
                 chr ":"; times 2 digit]);
    (* /date[:\s]*(\d{1,2}[-\/]\d{1,2}[-\/]\d{2,4})/i *)
    (true, seq [word "date"; star (OneOf [Ch ":"; Sp]);
                Grp 1 (md_y (range 2 4 digit))]);
    (* /(\d{1,2}[-\/]\d{1,2}[-\/]\d{2,4})\s+\d{1,2}:\d{2}[:\d]*\s*(AM|PM)?/i *)
    (true, seq [Grp 1 (md_y (range 2 4 digit)); plus space; range 1 2 digit;
                chr ":"; times 2 digit; star (OneOf [Ch ":"; Dg]); star space;
                Opt (Grp 2 (words ["AM"; "PM"]))]) ].

(** ** Receipt number, amounts *)

Definition hash_colon_space : atom := OneOf [Ch "#"; Ch ":"; Sp].

Definition receiptNumberPatterns : list (bool * regex) :=
  [ (true, seq [word "receipt"; star hash_colon_space; Grp 1 (plus (OneOf [Wd]))]);
    (true, seq [word "ref"; star hash_colon_space; Grp 1 (plus (OneOf [Wd]))]);
    (true, seq [word "transaction"; star hash_colon_space; Grp 1 (plus (OneOf [Wd]))]);
    (false, seq [chr "#"; Grp 1 (plus (OneOf [Wd]))]) ].

Fixpoint extractReceiptNumberFrom (patterns : list (bool * regex))
    (line : jsstring) : option jsstring :=
  match patterns with
  | [] => None
  | (ic, pattern) :: tl =>
      match search ic pattern line with
      | Some m =>
          if (3 <=? length (grp m 1))%nat then Some (grp m 1)
          else extractReceiptNumberFrom tl line
      | None => extractReceiptNumberFrom tl line
      end
  end.

Definition extractReceiptNumber (line : jsstring) : option jsstring :=
  extractReceiptNumberFrom receiptNumberPatterns line.

(** [keyword[:\s]*\$?(\d+\.\d{2})], case-insensitive. *)
Definition labelled (keyword : regex) : regex :=
  seq [keyword; star (OneOf [Ch ":"; Sp]); money 1].

Definition totalPatterns : list regex :=
  [ labelled (word "total");
    labelled (word "amount");
    labelled (word "balance");
    (* /grand\s+total[:\s]*\$?(\d+\.\d{2})/i *)
    labelled (seq [word "grand"; plus space; word "total"]);
    labelled (word "final") ].

Fixpoint extractTotalFrom (patterns : list regex) (line : jsstring)
    : option number :=
  match patterns with
  | [] => None
  | pattern :: tl =>
      match search true pattern line with
      | Some m =>
          let amount := parseFloat (grp m 1) in
          if gt amount 0%float && lt amount 10000%float then Some amount
          else extractTotalFrom tl line
      | None => extractTotalFrom tl line
      end
  end.

Definition extractTotal (line : jsstring) : option number :=
  extractTotalFrom totalPatterns line.

Definition strongTotalIndicators : list regex :=
  [word "total"; word "amount"; word "balance"; word "final"].

Definition isMoreLikelyTotal (line : jsstring) : bool :=
  existsb (fun pattern => test true pattern line) strongTotalIndicators.

(** The loop shared by [extractTax] and [extractSubtotal]: the first
    pattern that matches decides. *)
Fixpoint firstAmount (patterns : list regex) (line : jsstring) : option number :=
  match patterns with
  | [] => None
  | pattern :: tl =>
      match search true pattern line with
      | Some m => Some (parseFloat (grp m 1))
      | None => firstAmount tl line
      end
  end.

Definition taxPatterns : list regex :=
  [labelled (word "tax"); labelled (word "gst");
   labelled (word "vat"); labelled (word "hst")].
Definition extractTax (line : jsstring) : option number :=
  firstAmount taxPatterns line.

Definition subtotalPatterns : list regex :=
  [labelled (word "subtotal"); labelled (word "sub")].
Definition extractSubtotal (line : jsstring) : option number :=
  firstAmount subtotalPatterns line.

(** ** Line items *)

Definition nonItemPatterns : list (bool * regex) :=
  [ (* /total|subtotal|tax|discount|change/i *)
    (true, words ["total"; "subtotal"; "tax"; "discount"; "change"]);
    (* /thank\s+you|welcome|visit/i *)
    (true, alt [seq [word "thank"; plus space; word "you"]; word "welcome";
                word "visit"]);
    (* /^\d{2,4}[-\/]\d{1,2}[-\/]\d{1,4}/ *)
    (false, seq [Bol; range 2 4 digit; Atom dash; range 1 2 digit; Atom dash;
                 range 1 4 digit]);
    (* /phone|address|receipt/i *)
    (true, words ["phone"; "address"; "receipt"]);
    (* /^[*\-=\s]+$/ *)
    (false, seq [Bol; plus (OneOf [Ch "*"; Ch "-"; Ch "="; Sp]); Eol]);
    (* /cash|credit|debit|card/i *)
    (true, words ["cash"; "credit"; "debit"; "card"]);
    (* /^cashier|server|store/i *)
    (true, alt [Seq Bol (word "cashier"); word "server"; word "store"]) ].

Definition isNonItemLine (line : jsstring) : bool :=
  existsb (fun p => test (fst p) (snd p) line) nonItemPatterns.

(** [/^(.+?)\s+\$?(\d+\.\d{2})$/] *)
Definition namePrice : regex :=
  seq [Bol; Grp 1 (lazy_plus Dot); plus space; money 2; Eol].

(** [/^(\d+)\s+(.+?)\s+\$?(\d+\.\d{2})$/] *)
Definition quantityNamePrice : regex :=
  seq [Bol; Grp 1 (plus digit); plus space; Grp 2 (lazy_plus Dot);
       plus space; money 3; Eol].

(** [/^(.+?)\s+@\s+\$?(\d+\.\d{2})\s*=?\s*\$?(\d+\.\d{2})$/] *)
Definition nameAtUnitPrice : regex :=
  seq [Bol; Grp 1 (lazy_plus Dot); plus space; chr "@"; plus space; money 2;
       star space; opt (OneOf [Ch "="]); star space; money 3; Eol].

(** [/^([A-Za-z].{2,30})$/] *)
Definition nameOnly : regex :=
  seq [Bol; Grp 1 (Seq (Atom letter) (range 2 30 Dot)); Eol].

Definition itemPatterns : list regex :=
  [namePrice; quantityNamePrice; nameAtUnitPrice; nameOnly].

(** [/^\$?(\d+\.\d{2})$/] *)
Definition priceOnly : regex := seq [Bol; money 1; Eol].

(** The [switch] on the index of the pattern that matched; [None] is the
    [break] of the last case. *)
Definition itemCase (i : nat) (m : rmatch) (nextLine : jsstring)
    : option LineItem :=
  match i with
  | 0%nat =>
      Some (Item (trim (grp m 1)) (parseFloat (grp m 2)) 1%float None)
  | 1%nat =>
      Some (Item (trim (grp m 2)) (parseFloat (grp m 3)) (parseInt (grp m 1)) None)
  | 2%nat =>
      Some (Item (trim (grp m 1)) (parseFloat (grp m 3))
              (round (PrimFloat.div (parseFloat (grp m 3)) (parseFloat (grp m 2))))
              (Some (parseFloat (grp m 2))))
  | 3%nat =>
      match search false priceOnly nextLine with
      | Some priceMatch =>
          Some (Item (trim (grp m 1)) (parseFloat (grp priceMatch 1)) 1%float None)
      | None => None
      end
  | _ => None
  end.

Fixpoint extractLineItemFrom (i : nat) (patterns : list regex)
    (line nextLine : jsstring) : option LineItem :=
  match patterns with
  | [] => None
  | pattern :: tl =>
      match search false pattern line with
      | Some m =>
          match itemCase i m nextLine with
          | Some item => Some item
          | None => extractLineItemFrom (S i) tl line nextLine
          end
      | None => extractLineItemFrom (S i) tl line nextLine
      end
  end.

Definition extractLineItem (line nextLine : jsstring) : option LineItem :=
  if isNonItemLine line then None
  else extractLineItemFrom 0 itemPatterns line nextLine.

(** ** Duplicate items *)

Definition sf_eqb (a b : spec_float) : bool :=
  match a, b with
  | S754_zero s, S754_zero s' => Bool.eqb s s'
  | S754_infinity s, S754_infinity s' => Bool.eqb s s'
  | S754_nan, S754_nan => true
  | S754_finite s m e, S754_finite s' m' e' =>
      Bool.eqb s s' && Pos.eqb m m' && Z.eqb e e'
  | _, _ => false
  end.

(** Whether two items have the same [`${item.name}_${item.price}`].  A
    printed number holds no underscore, so two keys are equal exactly when
    the names are and the prices print alike. *)
Definition sameKey (a b : LineItem) : bool :=
  JS.eqb (name a) (name b) && sf_eqb (printKey (price a)) (printKey (price b)).

(** [quantity += n] *)
Definition addQuantity (it : LineItem) (n : number) : LineItem :=
  Item (name it) (price it) (PrimFloat.add (quantity it) n) (unitPrice it).

(** [seen.get(key).quantity += (item.quantity || 1)] on the items kept so
    far, when the key has been seen; [None] when it has not. *)
Fixpoint mergeInto (kept : list LineItem) (item : LineItem)
    : option (list LineItem) :=
  match kept with
  | [] => None
  | k :: tl =>
      if sameKey k item then
        Some (addQuantity k (or_else (quantity item) 1%float) :: tl)
      else option_map (cons k) (mergeInto tl item)
  end.

(** [removeDuplicateItems]: the filter keeps the first item of each key,
    in place, and the [Map] lets later ones add to its quantity. *)
Definition removeDuplicateItems (items : list LineItem) : list LineItem :=
  fold_left
    (fun kept item =>
       match mergeInto kept item with
       | Some kept' => kept'
       | None => kept ++ [item]
       end)
    items [].

(** ** The rules of the validator *)

(** [new Date().toISOString().split('T')[0]]: the clock always holds a
    valid time value. *)
Definition today (E : env) : jsstring := isoDatePart (now E).

(** [result.reviewReason ? result.reviewReason + '; ' + r : r] *)
Definition appendReason (reviewReason : option jsstring) (r : string)
    : option jsstring :=
  match reviewReason with
  | Some (c :: s) => Some ((c :: s) ++ lit "; " ++ lit r)
  | _ => Some (lit r)
  end.

Definition defaultDate (E : env) (r : ParsedReceipt) : ParsedReceipt :=
  if negb (truthyS (date r)) then
    Receipt_ (storeName r) (storeAddress r) (Some (today E)) (items r)
      (total r) (tax r) (subtotal r) (receiptNumber r) (rawText r)
      (confidence r) (Some true)
      (appendReason (reviewReason r) "No date found in receipt")
  else r.

Definition defaultStoreName (r : ParsedReceipt) : ParsedReceipt :=
  if negb (truthyS (storeName r)) then
    Receipt_ (Some (lit "Unknown Store")) (storeAddress r) (date r) (items r)
      (total r) (tax r) (subtotal r) (receiptNumber r) (rawText r)
      (confidence r) (Some true)
      (appendReason (reviewReason r) "Store name not detected")
  else r.

(** [result.items.reduce((sum, item) => sum + (item.price || 0), 0)] *)
Definition itemsTotal (its : list LineItem) : number :=
  fold_left (fun sum item => PrimFloat.add sum (or_else (price item) 0%float))
    its 0%float.

(** The condition of the third rule. *)
Definition totalMismatch (r : ParsedReceipt) : bool :=
  match total r with
  | Some t =>
      truthy t && gt t 0%float
      && gt (itemsTotal (items r)) 0%float
      && gt (PrimFloat.abs (PrimFloat.sub (itemsTotal (items r)) t))
            (PrimFloat.mul t 0.3%float)
  | None => false
  end.

Definition setReview (r : ParsedReceipt) (reason : option jsstring)
    : ParsedReceipt :=
  Receipt_ (storeName r) (storeAddress r) (date r) (items r)
    (total r) (tax r) (subtotal r) (receiptNumber r) (rawText r)
    (confidence r) (Some true) reason.

Definition setItems (r : ParsedReceipt) (its : list LineItem) : ParsedReceipt :=
  Receipt_ (storeName r) (storeAddress r) (date r) its
    (total r) (tax r) (subtotal r) (receiptNumber r) (rawText r)
    (confidence r) (needsReview r) (reviewReason r).

(** ** The line-oriented parser *)

Section Parser.
Variable extractDate : jsstring -> js (option jsstring).
Variable validateParsedData : ParsedReceipt -> ParsedReceipt.

Definition emptyResult (text : jsstring) : ParsedReceipt :=
  Receipt_ None None None [] None None None None text (lit "medium") None None.

(** The body of the loop for line [i]. *)
Definition processLine (i : nat) (line nextLine : jsstring) (r : ParsedReceipt)
    : js ParsedReceipt :=
  let storeName' :=
    if negb (truthyS (storeName r)) && (i <? 5)%nat && isStoreName line
    then Some (cleanStoreName line) else storeName r in
  dateMatch <- extractDate line ;;
  let date' :=
    if truthyS dateMatch && negb (truthyS (date r)) then dateMatch else date r in
  let receiptMatch := extractReceiptNumber line in
  let receiptNumber' :=
    if truthyS receiptMatch && negb (truthyS (receiptNumber r))
    then receiptMatch else receiptNumber r in
  let totalMatch := extractTotal line in
  let total' :=
    if truthyN totalMatch && (negb (truthyN (total r)) || isMoreLikelyTotal line)
    then totalMatch else total r in
  let taxMatch := extractTax line in
  let tax' := if truthyN taxMatch then taxMatch else tax r in
  let subtotalMatch := extractSubtotal line in
  let subtotal' := if truthyN subtotalMatch then subtotalMatch else subtotal r in
  let items' :=
    match extractLineItem line nextLine with
    | Some itemMatch => items r ++ [itemMatch]
    | None => items r
    end in
  Ok (Receipt_ storeName' (storeAddress r) date' items' total' tax' subtotal'
        receiptNumber' (rawText r) (confidence r) (needsReview r)
        (reviewReason r)).

(** [for (let i = 0; i < lines.length; i++)], [lines[i + 1] || ''] being
    the next line. *)
Fixpoint processLines (i : nat) (lines : list jsstring) (r : ParsedReceipt)
    : js ParsedReceipt :=
  match lines with
  | [] => Ok r
  | line :: tl =>
      r' <- processLine i line (hd [] tl) r ;;
      processLines (S i) tl r'
  end.

(** [text.split('\n').map(line => line.trim()).filter(line => line.length > 0)] *)
Definition linesOf (text : jsstring) : list jsstring :=
  filter (fun line => (0 <? length line)%nat) (map trim (split_lines text)).

(** [parseReceiptText] for a string argument. *)
Definition parseReceiptTextWith (text : jsstring) : js ParsedReceipt :=
  match trim text with
  | [] => Throw "No text extracted from receipt"
  | _ =>
      r <- processLines 0 (linesOf text) (emptyResult text) ;;
      Ok (validateParsedData r)
  end.

End Parser.
End Receipt.

(* ===================================================================== *)
(** * services/ocrService.js *)
(* ===================================================================== *)

Module OcrService.
Import Receipt.

(** The table of [extractDate]: the first pattern is listed twice. *)
Definition datePatterns : list (bool * regex) :=
  numericDatePattern :: commonDatePatterns.

Definition extractDate (E : env) (line : jsstring) : js (option jsstring) :=
  extractDateFrom E datePatterns line.

(** [validateParsedData]: the third rule assigns its reason. *)
Definition validateParsedData (E : env) (result : ParsedReceipt) : ParsedReceipt :=
  let result := defaultDate E result in
  let result := defaultStoreName result in
  let result :=
    if totalMismatch result then
      setReview result (Some (lit "Items total does not match receipt total"))
    else result in
  setItems result (removeDuplicateItems (items result)).

Definition parseReceiptText (E : env) (text : jsstring) : js ParsedReceipt :=
  parseReceiptTextWith (extractDate E) (validateParsedData E) text.

End OcrService.

(* ===================================================================== *)
(** * services/tesseractOcrService.js *)
(* ===================================================================== *)

Module TesseractOcrService.
Import Receipt.

Definition datePatterns : list (bool * regex) := commonDatePatterns.

Definition extractDate (E : env) (line : jsstring) : js (option jsstring) :=
  extractDateFrom E datePatterns line.

(** [validateParsedData]: the third rule appends its reason. *)
Definition validateParsedData (E : env) (result : ParsedReceipt) : ParsedReceipt :=
  let result := defaultDate E result in
  let result := defaultStoreName result in
  let result :=
    if totalMismatch result then
      setReview result
        (appendReason (reviewReason result)
           "Items total does not match receipt total")
    else result in
  setItems result (removeDuplicateItems (items result)).

Definition parseReceiptText (E : env) (text : jsstring) : js ParsedReceipt :=
  parseReceiptTextWith (extractDate E) (validateParsedData E) text.

End TesseractOcrService.

(* ===================================================================== *)
(** * services/textractOcrService.js *)
(* ===================================================================== *)

Module TextractOcrService.
#[local] Open Scope string_scope.
#[local] Open Scope list_scope.
#[local] Open Scope js_scope.
Import Num.

(** [s.split('.').pop()]: what follows the last full stop, the whole text
    when it has none. *)
Fixpoint afterLastDot (cur : jsstring) (s : jsstring) : jsstring :=
  match s with
  | [] => rev cur
  | c :: tl =>
      if N.eqb c (ch ".") then afterLastDot [] tl else afterLastDot (c :: cur) tl
  end.

(** [getImageMimeType].  The extension is compared with jpg, jpeg, png and
    pdf, none of whose letters is the lower case of a character outside
    ASCII, so folding the ASCII letters decides the [switch]. *)
Definition getImageMimeType (fileName : jsstring) : jsstring :=
  let extension := afterLastDot [] (toLowerCase fileName) in
  if JS.eqb extension (lit "jpg") || JS.eqb extension (lit "jpeg")
  then lit "image/jpeg"
  else if JS.eqb extension (lit "png") then lit "image/png"
  else if JS.eqb extension (lit "pdf") then lit "application/pdf"
  else lit "image/jpeg".

(** The fields of the object built by [extractReceiptData] that
    [generateTransactionData] decides on. *)
Record ExtractedData : Type := Extracted {
  vendor : jsstring;
  date : jsstring;
  total : number;
  confidence : number;
  rawText : jsstring
}.


Definition needsReview (extractedData : ExtractedData) : bool :=
  lt (confidence extractedData) 80%float
  || negb (Receipt.truthyS (Some (vendor extractedData)))
  || negb (truthy (total extractedData))
  || PrimFloat.eqb (total extractedData) 0%float.

Definition reviewReason (extractedData : ExtractedData) : option jsstring :=
  if needsReview extractedData then
    Some (if lt (confidence extractedData) 80%float
          then lit "Low confidence score" else lit "Missing required fields")
  else None.

(** [amount] and [receipt.total]: [extractedData.total || 0] *)
Definition amount (extractedData : ExtractedData) : number :=
  or_else (total extractedData) 0%float.

(** [description]: [extractedData.vendor || 'Receipt Purchase'] *)
Definition description (extractedData : ExtractedData) : jsstring :=
  match vendor extractedData with
  | [] => lit "Receipt Purchase"
  | v => v
  end.

(** [receipt.date]:
    [formatDateForStorage(extractedData.date) || getCurrentDateFallback()] *)
Definition receiptDate (E : env) (extractedData : ExtractedData) : js jsstring :=
  stored <- DateParser.formatDateForStorage E (DateParser.DateString (date extractedData)) ;;
  match stored with
  | Some (c :: s) => Ok (c :: s)
  | _ => DateParser.getCurrentDateFallback E
  end.

(** [receipt.ocrConfidence]: [Math.round(extractedData.confidence || 0)] *)
Definition ocrConfidence (extractedData : ExtractedData) : number :=
  round (or_else (confidence extractedData) 0%float).

End TextractOcrService.

(* ===================================================================== *)
(** * Properties *)
(* ===================================================================== *)

Unset Implicit Arguments.
#[local] Open Scope string_scope.
#[local] Open Scope list_scope.

(** Lines of a receipt, joined by line feeds. *)
Definition unlines (ls : list string) : jsstring :=
  lit (String.concat (String "010" "") ls).

(** A host in the UTC time zone whose clock shows midnight of the given
    day and whose [Date] constructor recognises no text. *)
Definition utcHost (y m d : Z) : env :=
  Env (utc y m d) (fun _ _ => 0%Z) (fun _ => None).

(** A host in the UTC time zone whose [Date] constructor reads a date
    written MM/DD/YYYY, month first, as V8 does, and no other text. *)
Definition readSlashDate (s : jsstring) : date :=
  match s with
  | [m1; m2; s1; d1; d2; s2; y1; y2; y3; y4] =>
      if forallb isDigit [m1; m2; d1; d2; y1; y2; y3; y4]
         && N.eqb s1 47 && N.eqb s2 47
      then
        let m := Z.of_N (digitsValue [m1; m2]) in
        let d := Z.of_N (digitsValue [d1; d2]) in
        if ((1 <=? m) && (m <=? 12) && (1 <=? d) && (d <=? 31))%Z
        then TimeClip (MakeDate (MakeDay (Z.of_N (digitsValue [y1; y2; y3; y4]))
                                   (m - 1) d) 0)
        else None
      else None
  | _ => None
  end.

Definition slashHost (y m d : Z) : env :=
  Env (utc y m d) (fun _ _ => 0%Z) readSlashDate.

(** ** Sanity checks of the embedding *)

Example parseFloat_price : Num.parseFloat (lit "3.50") = 3.5%float.
Proof. reflexivity. Qed.

Example round_fifth : Num.round (PrimFloat.div 1 5) = 0%float.
Proof. reflexivity. Qed.

Example iso_of_utc : isoDatePart (utc 2024 3 4) = lit "2024-03-04".
Proof. reflexivity. Qed.

Example overflow_rolls_over :
  isoDatePart (MakeDate (MakeDay 2024 1 30) 0) = lit "2024-03-01".
Proof. reflexivity. Qed.

Example clean_store_name :
  Receipt.cleanStoreName (lit "** SuperMart -- #1 **") = lit "SuperMart  #1".
Proof. reflexivity. Qed.

(** ** Two-digit years (C6) *)

Section TwoDigitYears.
#[local] Open Scope Z_scope.

(** C6 fails for the OCR services: the year 40 of the text 1/2/40 becomes
    2040 there, and 1940 in the universal date parser. *)
Lemma services_expand_40_to_2040 :
  Receipt.shortYearDateString (lit "1/2/40") = Some (lit "1/2/2040")
  /\ Receipt.shortYearDateString (lit "1/2/40") <> Some (lit "1/2/1940")
  /\ DateParser.normalizeYear 40 = 1940.
Proof.
  split; [reflexivity|]. split; [|reflexivity].
  vm_compute. discriminate.
Qed.

End TwoDigitYears.

(** ** The missing-everything scenario (C2) *)

Section RandomNoise.
Import Receipt.

Definition noise : jsstring := lit "RANDOM NOISE 123".

(** What both services return for the noise line. *)
Definition noiseReceipt (E : env) : ParsedReceipt :=
  Receipt_ (Some noise) None (Some (today E)) [] None None None None
    noise (lit "medium") (Some true) (Some (lit "No date found in receipt")).

Lemma noise_is_store_name : isStoreName noise = true.
Proof. reflexivity. Qed.

Lemma noise_lines (extractDate : jsstring -> js (option jsstring)) :
  extractDate noise = Ok None ->
  processLines extractDate 0 (linesOf noise) (emptyResult noise)
  = Ok (Receipt_ (Some noise) None None [] None None None None
          noise (lit "medium") None None).
Proof.
  intros H.
  change (linesOf noise) with [noise].
  cbn [processLines hd js_bind].
  unfold processLine. rewrite H. cbn [js_bind].
  reflexivity.
Qed.

(** C2, as amended: for the text RANDOM NOISE 123, parse-then-validate of
    either service returns the line itself as store name (it passes the
    store-name heuristic), today's date, and needsReview = true with the
    single reason 'No date found in receipt'. *)
Theorem noise_is_taken_as_store_name (E : env) :
  OcrService.parseReceiptText E noise = Ok (noiseReceipt E)
  /\ TesseractOcrService.parseReceiptText E noise = Ok (noiseReceipt E).
Proof.
  split.
  - unfold OcrService.parseReceiptText, parseReceiptTextWith.
    change (trim noise) with noise. cbv iota beta delta [noise lit map list_ascii_of_string].
    fold noise.
    rewrite noise_lines by reflexivity. reflexivity.
  - unfold TesseractOcrService.parseReceiptText, parseReceiptTextWith.
    change (trim noise) with noise. cbv iota beta delta [noise lit map list_ascii_of_string].
    fold noise.
    rewrite noise_lines by reflexivity. reflexivity.
Qed.

(** C2 fails: the store name is not defaulted, and the reason for a
    missing store name is not recorded. *)
Lemma noise_store_name_not_unknown :
  let E := utcHost 2024 6 1 in
  match OcrService.parseReceiptText E noise,
        TesseractOcrService.parseReceiptText E noise with
  | Ok r, Ok r' =>
      storeName r = Some noise /\ storeName r <> Some (lit "Unknown Store")
      /\ reviewReason r = Some (lit "No date found in receipt")
      /\ r' = r
  | _, _ => False
  end.
Proof.
  vm_compute. repeat split. discriminate.
Qed.

End RandomNoise.

(** ** Reasons for review (C3) *)

Section ReviewReasons.
Import Receipt.

(** A receipt without date and store name whose items sum to 8.00 against
    a stated total of 20.00. *)
Definition mismatchText : jsstring := unlines ["Milk $8.00"; "Total $20.00"].

Definition mismatchDraft : ParsedReceipt :=
  Receipt_ None None None [Item (lit "Milk") 8%float 1%float None]
    (Some 20%float) None None None mismatchText (lit "medium") None None.

Lemma mismatch_lines (extractDate : jsstring -> js (option jsstring)) :
  extractDate (lit "Milk $8.00") = Ok None ->
  extractDate (lit "Total $20.00") = Ok None ->
  processLines extractDate 0 (linesOf mismatchText) (emptyResult mismatchText)
  = Ok mismatchDraft.
Proof.
  intros H1 H2.
  change (linesOf mismatchText) with [lit "Milk $8.00"; lit "Total $20.00"].
  cbn [processLines hd].
  unfold processLine at 1. rewrite H1. cbn [js_bind].
  unfold processLine. rewrite H2. cbn [js_bind].
  vm_compute. reflexivity.
Qed.

(** The third rule of tesseractOcrService.js keeps what the first two
    rules recorded. *)
Lemma tesseract_mismatch_appends (E : env) (r : ParsedReceipt) :
  let r2 := defaultStoreName (defaultDate E r) in
  totalMismatch r2 = true ->
  reviewReason (TesseractOcrService.validateParsedData E r)
  = appendReason (reviewReason r2) "Items total does not match receipt total".
Proof.
  intros r2 H. unfold TesseractOcrService.validateParsedData.
  fold r2. rewrite H. reflexivity.
Qed.

(** The third rule of ocrService.js assigns its reason, whatever was
    recorded before. *)
Lemma ocr_mismatch_overwrites (E : env) (r : ParsedReceipt) :
  totalMismatch (defaultStoreName (defaultDate E r)) = true ->
  reviewReason (OcrService.validateParsedData E r)
  = Some (lit "Items total does not match receipt total").
Proof.
  intros H. unfold OcrService.validateParsedData. rewrite H. reflexivity.
Qed.

(** C3 at the failing input: on a receipt with no date, no store name and
    a mismatching total, ocrService.js ends with the mismatch reason alone
    (the two earlier reasons are discarded), while tesseractOcrService.js
    ends with the three reasons joined by "; ". *)
Theorem ocr_service_discards_earlier_reasons (E : env) :
  (exists r, OcrService.parseReceiptText E mismatchText = Ok r
     /\ needsReview r = Some true
     /\ reviewReason r = Some (lit "Items total does not match receipt total"))
  /\
  (exists r, TesseractOcrService.parseReceiptText E mismatchText = Ok r
     /\ needsReview r = Some true
     /\ reviewReason r =
          Some (lit ("No date found in receipt; Store name not detected; "
                     ++ "Items total does not match receipt total"))).
Proof.
  split.
  - eexists. split.
    + unfold OcrService.parseReceiptText, parseReceiptTextWith.
      change (trim mismatchText) with mismatchText.
      cbv iota beta delta [mismatchText unlines lit map list_ascii_of_string concat].
      fold (unlines ["Milk $8.00"; "Total $20.00"]). fold mismatchText.
      rewrite mismatch_lines by reflexivity. reflexivity.
    + split; reflexivity.
  - eexists. split.
    + unfold TesseractOcrService.parseReceiptText, parseReceiptTextWith.
      change (trim mismatchText) with mismatchText.
      cbv iota beta delta [mismatchText unlines lit map list_ascii_of_string concat].
      fold (unlines ["Milk $8.00"; "Total $20.00"]). fold mismatchText.
      rewrite mismatch_lines by reflexivity. reflexivity.
    + split; reflexivity.
Qed.

End ReviewReasons.

(** ** Duplicate items (C5) *)

Section Duplicates.
Import Receipt Num.

Lemma js_eqb_eq (a b : jsstring) : JS.eqb a b = true <-> a = b.
Proof.
  revert b. induction a as [|x a IH]; destruct b as [|y b]; simpl.
  - split; reflexivity.
  - split; discriminate.
  - split; discriminate.
  - rewrite andb_true_iff, N.eqb_eq, IH. split.
    + intros [-> ->]. reflexivity.
    + intros H. injection H as -> ->. split; reflexivity.
Qed.

Lemma sf_eqb_eq (a b : spec_float) : sf_eqb a b = true <-> a = b.
Proof.
  destruct a as [s| s| |s m e], b as [s'| s'| |s' m' e']; simpl;
    try (split; [discriminate|discriminate]);
    try (rewrite Bool.eqb_true_iff; split; [intros ->; reflexivity|intros H; injection H; auto]).
  - split; reflexivity.
  - rewrite !andb_true_iff, Bool.eqb_true_iff, Pos.eqb_eq, Z.eqb_eq. split.
    + intros [[-> ->] ->]. reflexivity.
    + intros H. injection H as -> -> ->. auto.
Qed.

(** The key of an item: its name and the way its price prints. *)
Definition itemKey (it : LineItem) : jsstring * spec_float :=
  (name it, printKey (price it)).

Lemma sameKey_iff (a b : LineItem) : sameKey a b = true <-> itemKey a = itemKey b.
Proof.
  unfold sameKey, itemKey. rewrite andb_true_iff, js_eqb_eq, sf_eqb_eq. split.
  - intros [-> ->]. reflexivity.
  - intros H. injection H as -> ->. auto.
Qed.

Lemma sameKey_key (a b c : LineItem) :
  itemKey a = itemKey b -> sameKey a c = sameKey b c.
Proof.
  intros H. destruct (sameKey b c) eqn:Hb.
  - apply sameKey_iff. rewrite H. apply sameKey_iff, Hb.
  - destruct (sameKey a c) eqn:Ha; [|reflexivity].
    apply sameKey_iff in Ha. rewrite H in Ha. apply sameKey_iff in Ha. congruence.
Qed.

Lemma sameKey_sym (a b : LineItem) : sameKey a b = sameKey b a.
Proof.
  destruct (sameKey b a) eqn:Hb.
  - apply sameKey_iff. symmetry. apply sameKey_iff, Hb.
  - destruct (sameKey a b) eqn:Ha; [|reflexivity].
    apply sameKey_iff in Ha. symmetry in Ha. apply sameKey_iff in Ha. congruence.
Qed.

Lemma addQuantity_key (k : LineItem) (n : number) :
  itemKey (addQuantity k n) = itemKey k.
Proof. reflexivity. Qed.

(** One step of the filter. *)
Definition keep (kept : list LineItem) (item : LineItem) : list LineItem :=
  match mergeInto kept item with
  | Some kept' => kept'
  | None => kept ++ [item]
  end.

Lemma removeDuplicateItems_fold (items : list LineItem) :
  removeDuplicateItems items = fold_left keep items [].
Proof. reflexivity. Qed.

(** What the first item of a key has become once the items [later] have
    been filtered. *)
Definition absorb (x : LineItem) (later : list LineItem) : LineItem :=
  fold_left
    (fun k it => if sameKey k it then addQuantity k (or_else (quantity it) 1%float) else k)
    later x.

Definition fresh (x : LineItem) (l : list LineItem) : Prop :=
  Forall (fun it => sameKey x it = false) l.

Lemma keep_cons_same (x it : LineItem) (K : list LineItem) :
  sameKey x it = true ->
  keep (x :: K) it = addQuantity x (or_else (quantity it) 1%float) :: K.
Proof. intros H. unfold keep. simpl. rewrite H. reflexivity. Qed.

Lemma keep_cons_other (x it : LineItem) (K : list LineItem) :
  sameKey x it = false -> keep (x :: K) it = x :: keep K it.
Proof.
  intros H. unfold keep. simpl. rewrite H.
  destruct (mergeInto K it); reflexivity.
Qed.

Lemma mergeInto_keys (K : list LineItem) (it : LineItem) (K' : list LineItem) :
  mergeInto K it = Some K' -> map itemKey K' = map itemKey K.
Proof.
  revert K'. induction K as [|k K IH]; simpl; intros K' H; [discriminate|].
  destruct (sameKey k it).
  - injection H as <-. reflexivity.
  - destruct (mergeInto K it) as [K2|]; [|discriminate].
    injection H as <-. simpl. f_equal. apply IH. reflexivity.
Qed.

Lemma mergeInto_none (K : list LineItem) (it : LineItem) :
  mergeInto K it = None <-> Forall (fun k => sameKey k it = false) K.
Proof.
  induction K as [|k K IH]; simpl.
  - split; auto.
  - destruct (sameKey k it) eqn:Hk.
    + split; [discriminate|]. intros H. inversion H; subst. congruence.
    + destruct (mergeInto K it) eqn:Hm.
      * split; [discriminate|]. intros H. inversion H; subst.
        apply IH in H3. discriminate.
      * split; auto. intros _. constructor; [exact Hk|]. apply IH. reflexivity.
Qed.

Lemma fresh_keys (x : LineItem) (l l' : list LineItem) :
  map itemKey l' = map itemKey l -> fresh x l -> fresh x l'.
Proof.
  unfold fresh. revert l'. induction l as [|a l IH]; destruct l' as [|b l'];
    simpl; intros Hk H; try discriminate; auto.
  injection Hk as Hn Hp Hk. inversion H; subst.
  assert (Hb : itemKey b = itemKey a) by (unfold itemKey; congruence).
  constructor.
  - rewrite sameKey_sym, (sameKey_key b a x Hb), sameKey_sym. assumption.
  - apply IH; assumption.
Qed.

Lemma fresh_keep (x it : LineItem) (K : list LineItem) :
  fresh x K -> sameKey x it = false -> fresh x (keep K it).
Proof.
  intros HK Hit. unfold keep. destruct (mergeInto K it) eqn:Hm.
  - apply (fresh_keys x K l); [apply (mergeInto_keys K it), Hm|exact HK].
  - apply Forall_app. split; [exact HK|]. constructor; [exact Hit|constructor].
Qed.

Lemma fold_keep_cons (tl : list LineItem) :
  forall (x : LineItem) (K : list LineItem),
  fresh x K ->
  fold_left keep tl (x :: K)
  = absorb x tl :: fold_left keep (filter (fun it => negb (sameKey x it)) tl) K.
Proof.
  induction tl as [|it tl IH]; intros x K HK; [reflexivity|].
  simpl. unfold absorb. simpl. destruct (sameKey x it) eqn:Hx; simpl.
  - rewrite keep_cons_same by exact Hx.
    set (x' := addQuantity x (or_else (quantity it) 1%float)).
    rewrite (IH x' K).
    + replace (filter (fun it0 => negb (sameKey x' it0)) tl)
        with (filter (fun it0 => negb (sameKey x it0)) tl); [reflexivity|].
      apply filter_ext. intros a.
      rewrite (sameKey_key x' x a (addQuantity_key _ _)). reflexivity.
    + unfold fresh in *. eapply Forall_impl; [|exact HK]. simpl. intros a Ha.
      rewrite (sameKey_key x' x a (addQuantity_key _ _)). exact Ha.
  - rewrite keep_cons_other by exact Hx.
    rewrite (IH x (keep K it)); [reflexivity|].
    apply fresh_keep; assumption.
Qed.

(** The equation of [removeDuplicateItems]: the first item keeps its
    place and absorbs the later items of its key; the others are filtered
    among themselves. *)
Lemma removeDuplicateItems_cons (x : LineItem) (tl : list LineItem) :
  removeDuplicateItems (x :: tl)
  = absorb x tl :: removeDuplicateItems (filter (fun it => negb (sameKey x it)) tl).
Proof.
  rewrite !removeDuplicateItems_fold. simpl.
  change (keep [] x) with [x]. apply fold_keep_cons. constructor.
Qed.

Lemma absorb_fields (x : LineItem) (later : list LineItem) :
  name (absorb x later) = name x /\ price (absorb x later) = price x
  /\ unitPrice (absorb x later) = unitPrice x
  /\ quantity (absorb x later)
     = fold_left (fun q it => PrimFloat.add q (or_else (quantity it) 1%float))
         (filter (sameKey x) later) (quantity x).
Proof.
  revert x. induction later as [|it later IH]; intros x; [repeat split|].
  unfold absorb. simpl. fold (absorb (if sameKey x it
      then addQuantity x (or_else (quantity it) 1%float) else x) later).
  destruct (sameKey x it) eqn:Hx.
  - destruct (IH (addQuantity x (or_else (quantity it) 1%float))) as (H1 & H2 & H3 & H4).
    rewrite H1, H2, H3, H4. split; [reflexivity|]. split; [reflexivity|].
    split; [reflexivity|]. simpl.
    rewrite (filter_ext (sameKey (addQuantity x (or_else (quantity it) 1%float)))
               (sameKey x)); [reflexivity|].
    intros a. apply sameKey_key, addQuantity_key.
  - apply IH.
Qed.

Lemma absorb_key (x : LineItem) (later : list LineItem) :
  itemKey (absorb x later) = itemKey x.
Proof.
  destruct (absorb_fields x later) as (H1 & H2 & _). unfold itemKey.
  rewrite H1, H2. reflexivity.
Qed.

Lemma absorb_fresh (x : LineItem) (later : list LineItem) :
  fresh x later -> absorb x later = x.
Proof.
  unfold fresh. revert x. induction later as [|it later IH]; intros x H; [reflexivity|].
  inversion H; subst. unfold absorb. simpl. rewrite H2. apply IH. assumption.
Qed.

Lemma filter_fresh (x : LineItem) (l : list LineItem) :
  fresh x l -> filter (fun it => negb (sameKey x it)) l = l.
Proof.
  unfold fresh. induction 1 as [|a l Ha _ IH]; [reflexivity|].
  simpl. rewrite Ha. simpl. f_equal. exact IH.
Qed.

Lemma filter_length_le {A} (f : A -> bool) (l : list A) :
  (length (filter f l) <= length l)%nat.
Proof. induction l as [|a l IH]; simpl; [lia|]. destruct (f a); simpl; lia. Qed.

(** Properties of the output by induction on the length of the input. *)
Lemma dedup_induction (P : list LineItem -> Prop) :
  P [] ->
  (forall x tl,
     P (filter (fun it => negb (sameKey x it)) tl) -> P (x :: tl)) ->
  forall l, P l.
Proof.
  intros H0 Hstep l.
  assert (H : forall n l, (length l <= n)%nat -> P l).
  { induction n as [|n IH]; intros [|x tl] Hl; simpl in Hl; try exact H0; try lia.
    apply Hstep. apply IH. pose proof (filter_length_le (fun it => negb (sameKey x it)) tl). lia. }
  apply (H (length l)). lia.
Qed.

Lemma dedup_fresh (x : LineItem) (l : list LineItem) :
  fresh x l -> fresh x (removeDuplicateItems l).
Proof.
  revert x. induction l as [|y tl IH] using dedup_induction; intros x H; [constructor|].
  rewrite removeDuplicateItems_cons. inversion H; subst. constructor.
  - rewrite (sameKey_sym x), (sameKey_key _ y x (absorb_key y tl)), sameKey_sym.
    assumption.
  - apply IH. unfold fresh in *. apply Forall_forall. intros a Ha.
    apply filter_In in Ha. destruct Ha as [Ha _].
    rewrite Forall_forall in H3. apply H3, Ha.
Qed.

Lemma filter_other_fresh (x : LineItem) (l : list LineItem) :
  fresh x (filter (fun it => negb (sameKey x it)) l).
Proof.
  apply Forall_forall. intros a Ha. apply filter_In in Ha. destruct Ha as [_ Ha].
  apply negb_true_iff in Ha. exact Ha.
Qed.

(** No two kept items share a key. *)
Lemma dedup_NoDup (l : list LineItem) :
  NoDup (map itemKey (removeDuplicateItems l)).
Proof.
  induction l as [|x tl IH] using dedup_induction; [constructor|].
  rewrite removeDuplicateItems_cons. simpl. constructor; [|exact IH].
  rewrite absorb_key. intros Hin. apply in_map_iff in Hin.
  destruct Hin as (k & Hk & Hin).
  pose proof (dedup_fresh x _ (filter_other_fresh x tl)) as Hf.
  unfold fresh in Hf. rewrite Forall_forall in Hf. specialize (Hf k Hin).
  symmetry in Hk. apply sameKey_iff in Hk. congruence.
Qed.

(** Filtering a second time changes nothing. *)
Lemma dedup_idempotent (l : list LineItem) :
  removeDuplicateItems (removeDuplicateItems l) = removeDuplicateItems l.
Proof.
  induction l as [|x tl IH] using dedup_induction; [reflexivity|].
  rewrite removeDuplicateItems_cons.
  set (F := filter (fun it => negb (sameKey x it)) tl) in *.
  rewrite removeDuplicateItems_cons.
  assert (Hf : fresh (absorb x tl) (removeDuplicateItems F)).
  { pose proof (dedup_fresh x F (filter_other_fresh x tl)) as H.
    unfold fresh in *. eapply Forall_impl; [|exact H]. simpl. intros a Ha.
    rewrite (sameKey_key _ x a (absorb_key x tl)). exact Ha. }
  rewrite (absorb_fresh _ _ Hf), (filter_fresh _ _ Hf), IH. reflexivity.
Qed.

End Duplicates.

(** ** The validator (C4, C5) *)

Section Validator.
Import Receipt Num.

Lemma today_truthy (E : env) : truthyS (Some (today E)) = true.
Proof.
  unfold today, isoDatePart.
  destruct (civil_from_days (Day (now E))) as [[y m] d].
  match goal with |- truthyS (Some (?yr ++ _)) = true => destruct yr end;
    reflexivity.
Qed.

Lemma defaultDate_spec (E : env) (r : ParsedReceipt) :
  truthyS (date (defaultDate E r)) = true
  /\ items (defaultDate E r) = items r /\ total (defaultDate E r) = total r
  /\ storeName (defaultDate E r) = storeName r.
Proof.
  unfold defaultDate. destruct (truthyS (date r)) eqn:H; simpl.
  - auto.
  - split; [apply today_truthy|auto].
Qed.

Lemma defaultStoreName_spec (r : ParsedReceipt) :
  truthyS (storeName (defaultStoreName r)) = true
  /\ items (defaultStoreName r) = items r /\ total (defaultStoreName r) = total r
  /\ date (defaultStoreName r) = date r.
Proof.
  unfold defaultStoreName. destruct (truthyS (storeName r)) eqn:H; simpl; auto.
Qed.

(** The rules leave the total and the items as they are; only the last
    step touches the items. *)
Lemma ocr_validate_fields (E : env) (r : ParsedReceipt) :
  let v := OcrService.validateParsedData E r in
  truthyS (date v) = true /\ truthyS (storeName v) = true
  /\ total v = total r /\ items v = removeDuplicateItems (items r).
Proof.
  unfold OcrService.validateParsedData.
  destruct (defaultDate_spec E r) as (Hd & Hi & Ht & _).
  destruct (defaultStoreName_spec (defaultDate E r)) as (Hs & Hi' & Ht' & Hd').
  destruct (totalMismatch (defaultStoreName (defaultDate E r))); simpl;
    rewrite Hd', Hd, Hs, Ht', Ht, Hi', Hi; auto.
Qed.

Lemma tesseract_validate_fields (E : env) (r : ParsedReceipt) :
  let v := TesseractOcrService.validateParsedData E r in
  truthyS (date v) = true /\ truthyS (storeName v) = true
  /\ total v = total r /\ items v = removeDuplicateItems (items r).
Proof.
  unfold TesseractOcrService.validateParsedData.
  destruct (defaultDate_spec E r) as (Hd & Hi & Ht & _).
  destruct (defaultStoreName_spec (defaultDate E r)) as (Hs & Hi' & Ht' & Hd').
  destruct (totalMismatch (defaultStoreName (defaultDate E r))); simpl;
    rewrite Hd', Hd, Hs, Ht', Ht, Hi', Hi; auto.
Qed.

Lemma totalMismatch_fields (a b : ParsedReceipt) :
  total a = total b -> items a = items b -> totalMismatch a = totalMismatch b.
Proof. unfold totalMismatch. intros -> ->. reflexivity. Qed.

(** A record on which no rule fires and whose items are already merged is
    left as it is. *)
Lemma validate_fixed (E : env) (v : ParsedReceipt) :
  truthyS (date v) = true -> truthyS (storeName v) = true ->
  totalMismatch v = false -> removeDuplicateItems (items v) = items v ->
  OcrService.validateParsedData E v = v
  /\ TesseractOcrService.validateParsedData E v = v.
Proof.
  intros Hd Hs Hm Hi.
  unfold OcrService.validateParsedData, TesseractOcrService.validateParsedData,
    defaultDate.
  rewrite Hd. simpl. unfold defaultStoreName. rewrite Hs. simpl. rewrite Hm.
  unfold setItems. rewrite Hi. destruct v; auto.
Qed.

(** C4, as amended: validating a second time changes nothing whenever the
    total-mismatch rule does not fire on the validated record (its items
    being the merged ones); this holds in both services. *)
Theorem validation_idempotent_without_mismatch (E : env) (r : ParsedReceipt) :
  totalMismatch (OcrService.validateParsedData E r) = false ->
  OcrService.validateParsedData E (OcrService.validateParsedData E r)
  = OcrService.validateParsedData E r
  /\ TesseractOcrService.validateParsedData E
       (TesseractOcrService.validateParsedData E r)
     = TesseractOcrService.validateParsedData E r.
Proof.
  intros Hm.
  destruct (ocr_validate_fields E r) as (Hd & Hs & Ht & Hi).
  destruct (tesseract_validate_fields E r) as (Hd' & Hs' & Ht' & Hi').
  split.
  - apply validate_fixed; auto. rewrite Hi. apply dedup_idempotent.
  - apply validate_fixed; auto.
    + rewrite <- Hm. apply totalMismatch_fields; congruence.
    + rewrite Hi'. apply dedup_idempotent.
Qed.

Definition noiseDraft : ParsedReceipt :=
  Receipt_ (Some noise) None None [] None None None None noise (lit "medium")
    None None.

Lemma validation_idempotent_without_mismatch_witness :
  let E := utcHost 2024 6 1 in
  totalMismatch (OcrService.validateParsedData E noiseDraft) = false
  /\ OcrService.validateParsedData E (OcrService.validateParsedData E noiseDraft)
     = OcrService.validateParsedData E noiseDraft
  /\ TesseractOcrService.validateParsedData E
       (TesseractOcrService.validateParsedData E noiseDraft)
     = TesseractOcrService.validateParsedData E noiseDraft.
Proof.
  split; [reflexivity|].
  apply (validation_idempotent_without_mismatch (utcHost 2024 6 1) noiseDraft).
  reflexivity.
Defined.

(** Two equal items whose prices add up to the stated total. *)
Definition twoMilks : ParsedReceipt :=
  Receipt_ (Some (lit "SuperMart")) None (Some (lit "2024-01-15"))
    [Item (lit "Milk") 3.5%float 1%float None;
     Item (lit "Milk") 3.5%float 1%float None]
    (Some 7%float) None None None [] (lit "medium") None None.

(** C4 fails in both services.  In tesseractOcrService.js a mismatch adds
    its reason once more at every pass.  In ocrService.js the first pass
    over [twoMilks] finds the items adding up to the total and merges them;
    the second pass sums the merged list, finds 3.50 against 7.00, and
    flags the record. *)
Lemma validation_not_idempotent :
  let E := utcHost 2024 6 1 in
  TesseractOcrService.validateParsedData E
    (TesseractOcrService.validateParsedData E mismatchDraft)
  <> TesseractOcrService.validateParsedData E mismatchDraft
  /\ needsReview (OcrService.validateParsedData E twoMilks) = None
  /\ needsReview (OcrService.validateParsedData E
                    (OcrService.validateParsedData E twoMilks)) = Some true
  /\ OcrService.validateParsedData E (OcrService.validateParsedData E twoMilks)
     <> OcrService.validateParsedData E twoMilks.
Proof.
  cbv zeta. split; [|split; [reflexivity|split; [reflexivity|]]].
  - intros H. apply (f_equal reviewReason) in H. vm_compute in H.
    discriminate H.
  - intros H. apply (f_equal needsReview) in H. vm_compute in H.
    discriminate H.
Qed.

(** The validators hand the items to [removeDuplicateItems] untouched. *)
Lemma validated_items (E : env) (r : ParsedReceipt) :
  items (OcrService.validateParsedData E r) = removeDuplicateItems (items r)
  /\ items (TesseractOcrService.validateParsedData E r)
     = removeDuplicateItems (items r).
Proof.
  split; [apply ocr_validate_fields|apply tesseract_validate_fields].
Qed.

Definition milk (q : number) : LineItem := Item (lit "Milk") 3.5%float q None.

(** C5, as amended: after validation no two items have the same name and
    price; the first item of a key keeps its place and its other fields,
    and every later item of that key is removed and adds to the first
    one's quantity its own quantity, or 1 when that quantity is 0 or NaN;
    two Milk items of price 3.50 and quantity 1 become one of quantity 2. *)
Theorem validated_items_merged (E : env) (r : ParsedReceipt) :
  let merged := removeDuplicateItems (items r) in
  items (OcrService.validateParsedData E r) = merged
  /\ items (TesseractOcrService.validateParsedData E r) = merged
  /\ NoDup (map itemKey merged)
  /\ (forall x tl,
        removeDuplicateItems (x :: tl)
        = absorb x tl
          :: removeDuplicateItems (filter (fun it => negb (sameKey x it)) tl))
  /\ (forall x later,
        name (absorb x later) = name x /\ price (absorb x later) = price x
        /\ unitPrice (absorb x later) = unitPrice x
        /\ quantity (absorb x later)
           = fold_left
               (fun q it => PrimFloat.add q (or_else (quantity it) 1%float))
               (filter (sameKey x) later) (quantity x))
  /\ removeDuplicateItems [milk 1%float; milk 1%float] = [milk 2%float].
Proof.
  cbv zeta. destruct (validated_items E r) as [H1 H2].
  split; [exact H1|]. split; [exact H2|]. split; [apply dedup_NoDup|].
  split; [apply removeDuplicateItems_cons|]. split; [apply absorb_fields|].
  reflexivity.
Qed.

(** When every quantity is a number other than 0 and NaN, the quantity of
    a kept item is the sum of the quantities of its group. *)
Lemma absorb_sums_quantities (x : LineItem) (later : list LineItem) :
  Forall (fun it => truthy (quantity it) = true) later ->
  quantity (absorb x later)
  = fold_left (fun q it => PrimFloat.add q (quantity it))
      (filter (sameKey x) later) (quantity x).
Proof.
  intros H. destruct (absorb_fields x later) as (_ & _ & _ & ->).
  revert H. generalize (quantity x).
  induction later as [|it later IH]; intros q H; [reflexivity|].
  inversion H; subst. cbn [filter]. destruct (sameKey x it); [|apply IH; assumption].
  assert (Ho : or_else (quantity it) 1%float = quantity it)
    by (unfold or_else; rewrite H2; reflexivity).
  change (fold_left
            (fun q0 it0 => PrimFloat.add q0 (or_else (quantity it0) 1%float))
            (filter (sameKey x) later)
            (PrimFloat.add q (or_else (quantity it) 1%float))
          = fold_left (fun q0 it0 => PrimFloat.add q0 (quantity it0))
              (filter (sameKey x) later) (PrimFloat.add q (quantity it))).
  rewrite Ho. apply IH. assumption.
Qed.

(** The receipt line "Milk @ 5.00=1.00" is read by the third item pattern
    with quantity round(1.00 / 5.00) = 0. *)
Definition zeroMilk : LineItem := Item (lit "Milk") 1%float 0%float (Some 5%float).

(** C5 fails on the quantity: two such lines are merged into one item of
    quantity 1, while the quantities of the group add up to 0. *)
Lemma zero_quantities_merge_to_one :
  extractLineItem (lit "Milk @ 5.00=1.00") [] = Some zeroMilk
  /\ removeDuplicateItems [zeroMilk; zeroMilk]
     = [Item (lit "Milk") 1%float 1%float (Some 5%float)]
  /\ PrimFloat.add (quantity zeroMilk) (quantity zeroMilk) = 0%float
  /\ 1%float <> 0%float.
Proof.
  split; [reflexivity|]. split; [reflexivity|]. split; [reflexivity|].
  intros H. apply (f_equal (fun x => PrimFloat.eqb x 0%float)) in H.
  vm_compute in H. discriminate H.
Qed.

End Validator.

(** ** The plausibility windows (C7) and the absence of errors (C8) *)

(** The calendar arithmetic is kept folded in the proofs below. *)
#[local] Opaque civil_from_days days_from_civil.

Section Windows.
Import DateParser.
#[local] Open Scope Z_scope.

(** The window of [isValidDate] in the universal date parser, and the one
    of [extractDate] in the OCR services. *)
Definition parserWindow (E : env) (t : Z) : bool :=
  date_ge (Some t) (newDate E (getFullYear E (now E) - 10) 0 1)
  && date_le (Some t) (TimeClip (now E + 7 * 24 * 60 * 60 * 1000)).

Definition serviceWindow (E : env) (t : Z) : bool :=
  date_ge (Some t) (newDate E (getFullYear E (now E) - 5) 0 1)
  && date_le (Some t) (TimeClip (now E + 24 * 60 * 60 * 1000)).

Lemma isValidDate_window (E : env) (d : date) :
  isValidDate E d = true <-> exists t, d = Some t /\ parserWindow E t = true.
Proof.
  unfold isValidDate, parserWindow. destruct d as [t|].
  - split; [intros H; exists t; split; [reflexivity|exact H]|].
    intros (t' & Ht & H). injection Ht as <-. exact H.
  - split; [discriminate|]. intros (t' & Ht & _). discriminate.
Qed.

(** The log line of the [try] block formats a date that has passed
    [isValidDate]; it cannot throw. *)
Lemma valid_date_formats (E : env) (d : date) :
  isValidDate E d = true -> exists s, toISODate d = Ok s.
Proof.
  intros H. apply isValidDate_window in H. destruct H as (t & -> & _).
  eexists. reflexivity.
Qed.

Lemma candidate_valid (E : env) (text : jsstring) (p : datePattern) (m : rmatch)
    (f : found) :
  In f (candidate E text p m) ->
  parser p m = Ok (Some (fdate f)) /\ parserWindow E (fdate f) = true.
Proof.
  unfold candidate, try_catch, js_bind.
  destruct (parser p m) as [d|e]; [|intros []].
  destruct (isValidDate E d) eqn:Hv; [|intros []].
  apply isValidDate_window in Hv. destruct Hv as (t & -> & Hw).
  intros [<-|[]]. split; [reflexivity|exact Hw].
Qed.

(** A match whose parser throws, or whose date is invalid or out of the
    window, adds nothing to [foundDates]. *)
Lemma candidate_discarded (E : env) (text : jsstring) (p : datePattern)
    (m : rmatch) :
  (forall d, parser p m = Ok d -> isValidDate E d = false) ->
  candidate E text p m = [].
Proof.
  intros H. unfold candidate, try_catch, js_bind.
  destruct (parser p m) as [d|e]; [|reflexivity].
  rewrite (H d eq_refl). reflexivity.
Qed.


Lemma insert_In (E : env) (x y : found) (l : list found) :
  In x (insert E y l) <-> x = y \/ In x l.
Proof.
  induction l as [|z l IH]; simpl.
  - intuition.
  - destruct (before E z y); simpl; [rewrite IH|]; intuition.
Qed.

Lemma sort_fold_In (E : env) (x : found) (l acc : list found) :
  In x (fold_left (fun acc x => insert E x acc) l acc) <-> In x l \/ In x acc.
Proof.
  revert acc. induction l as [|y l IH]; intros acc; simpl.
  - intuition.
  - rewrite IH, insert_In. intuition.
Qed.

Lemma sort_In (E : env) (x : found) (l : list found) :
  In x (sort E l) <-> In x l.
Proof. unfold sort. rewrite sort_fold_In. simpl. intuition. Qed.

Lemma extractDateFromText_cases (E : env) (text : jsstring) :
  (extractDateFromText E text = Ok None
   /\ (text = [] \/ foundDates E text = []))
  \/ exists bestDate,
       In bestDate (foundDates E text)
       /\ extractDateFromText E text = Ok (Some (isoDatePart (fdate bestDate))).
Proof.
  unfold extractDateFromText. destruct text as [|c text]; [left; auto|].
  destruct (sort E (foundDates E (c :: text))) as [|b l] eqn:Hs.
  - left. split; [reflexivity|]. right.
    destruct (foundDates E (c :: text)) as [|f fs] eqn:Hf; [reflexivity|].
    assert (H : In f (sort E (f :: fs))) by (apply sort_In; left; reflexivity).
    rewrite Hs in H. destruct H.
  - right. exists b. split; [|reflexivity].
    apply (sort_In E). rewrite Hs. left. reflexivity.
Qed.

Lemma extractDateFrom_window (E : env) (patterns : list (bool * regex))
    (line : jsstring) :
  (Receipt.extractDateFrom E patterns line = Ok None)
  \/ exists t, Receipt.extractDateFrom E patterns line = Ok (Some (isoDatePart t))
               /\ serviceWindow E t = true.
Proof.
  induction patterns as [|[ic pattern] tl IH]; cbn [Receipt.extractDateFrom];
    [left; reflexivity|].
  destruct (search ic pattern line) as [m|]; [|exact IH].
  destruct (Receipt.parseVariousDateFormats E (Receipt.dateStrOf m)) as [t|];
    [|exact IH].
  match goal with |- context [if ?c then _ else _] => destruct c eqn:Hw end;
    [|exact IH].
  right. exists t. split; [reflexivity|exact Hw].
Qed.

Lemma foundDates_parsed (E : env) (text : jsstring) (f : found) :
  In f (foundDates E text) ->
  exists p m,
    In p (datePatterns E) /\ In m (matchAll (icase p) (pattern p) text)
    /\ parser p m = Ok (Some (fdate f)) /\ parserWindow E (fdate f) = true.
Proof.
  unfold foundDates. intros H. apply in_flat_map in H.
  destruct H as (p & Hp & H). apply in_flat_map in H.
  destruct H as (m & Hm & H). apply candidate_valid in H.
  exists p, m. split; [exact Hp|]. split; [exact Hm|]. exact H.
Qed.

Lemma extractDateFrom_parsed (E : env) (patterns : list (bool * regex))
    (line s : jsstring) :
  Receipt.extractDateFrom E patterns line = Ok (Some s) ->
  exists ic r m t,
    In (ic, r) patterns /\ search ic r line = Some m
    /\ Receipt.parseVariousDateFormats E (Receipt.dateStrOf m) = Some t
    /\ serviceWindow E t = true /\ s = isoDatePart t.
Proof.
  induction patterns as [|[ic r] tl IH]; cbn [Receipt.extractDateFrom];
    [discriminate|].
  assert (Htl : Receipt.extractDateFrom E tl line = Ok (Some s) ->
                exists ic' r' m t,
                  In (ic', r') ((ic, r) :: tl) /\ search ic' r' line = Some m
                  /\ Receipt.parseVariousDateFormats E (Receipt.dateStrOf m) = Some t
                  /\ serviceWindow E t = true /\ s = isoDatePart t).
  { intros H. destruct (IH H) as (ic' & r' & m & t & Hin & Hrest).
    exists ic', r', m, t. split; [right; exact Hin|exact Hrest]. }
  destruct (search ic r line) as [m|] eqn:Hs; [|exact Htl].
  destruct (Receipt.parseVariousDateFormats E (Receipt.dateStrOf m)) as [t|] eqn:Hp;
    [|exact Htl].
  match goal with |- context [if ?c then _ else _] => destruct c eqn:Hw end;
    [|exact Htl].
  intros H. injection H as <-. exists ic, r, m, t.
  split; [left; reflexivity|]. repeat split; assumption.
Qed.

Lemma extractDateFrom_skips (E : env) (ic : bool) (r : regex)
    (tl : list (bool * regex)) (line : jsstring) (m : rmatch) :
  search ic r line = Some m ->
  (forall t, Receipt.parseVariousDateFormats E (Receipt.dateStrOf m) = Some t ->
             serviceWindow E t = false) ->
  Receipt.extractDateFrom E ((ic, r) :: tl) line = Receipt.extractDateFrom E tl line.
Proof.
  intros Hs Hw. cbn [Receipt.extractDateFrom]. rewrite Hs.
  destruct (Receipt.parseVariousDateFormats E (Receipt.dateStrOf m)) as [t|];
    [|reflexivity].
  specialize (Hw t eq_refl). unfold serviceWindow in Hw. rewrite Hw. reflexivity.
Qed.

Lemma candidate_cases (E : env) (text : jsstring) (p : datePattern) (m : rmatch) :
  candidate E text p m
  = match parser p m with
    | Ok (Some t) =>
        if parserWindow E t
        then [Found t (calculateDateConfidence (matched m) (type p) text)
                (type p) (matched m) (index m)]
        else []
    | _ => []
    end.
Proof.
  unfold candidate, try_catch, js_bind.
  destruct (parser p m) as [[t|]|e]; try reflexivity.
  change (isValidDate E (Some t)) with (parserWindow E t).
  destruct (parserWindow E t); reflexivity.
Qed.

(** C7, as amended: a date returned by [extractDateFromText] is the date
    its parser read from a match of a pattern of the table, and lies
    between local 1 January of the year ten years before the current one
    and seven days after the present; a date returned by [extractDate] of
    either OCR service is the date [parseVariousDateFormats] read from a
    match of a pattern of its table, and lies between local 1 January of
    the year five years before the current one and one day after the
    present.  A match gives a candidate exactly when its parser returns a
    date inside the window: in the two numeric full-year patterns a month
    above 12 or a day above 31 gives none, and in the services a date
    outside the window leaves the search to the patterns that follow.
    Whether the month has the day is not checked. *)
Theorem returned_dates_in_window (E : env) (text s : jsstring) :
  (extractDateFromText E text = Ok (Some s) ->
     exists p m t,
       In p (datePatterns E) /\ In m (matchAll (icase p) (pattern p) text)
       /\ parser p m = Ok (Some t) /\ parserWindow E t = true
       /\ s = isoDatePart t)
  /\ (OcrService.extractDate E text = Ok (Some s) ->
        exists ic r m t,
          In (ic, r) OcrService.datePatterns /\ search ic r text = Some m
          /\ Receipt.parseVariousDateFormats E (Receipt.dateStrOf m) = Some t
          /\ serviceWindow E t = true /\ s = isoDatePart t)
  /\ (TesseractOcrService.extractDate E text = Ok (Some s) ->
        exists ic r m t,
          In (ic, r) TesseractOcrService.datePatterns /\ search ic r text = Some m
          /\ Receipt.parseVariousDateFormats E (Receipt.dateStrOf m) = Some t
          /\ serviceWindow E t = true /\ s = isoDatePart t)
  /\ (forall p m,
        candidate E text p m
        = match parser p m with
          | Ok (Some t) =>
              if parserWindow E t
              then [Found t (calculateDateConfidence (matched m) (type p) text)
                      (type p) (matched m) (index m)]
              else []
          | _ => []
          end)
  /\ (forall m, 12 < parseInt (grp m 1) \/ 31 < parseInt (grp m 2) ->
                candidate E text (usFull E) m = [])
  /\ (forall m, 12 < parseInt (grp m 2) \/ 31 < parseInt (grp m 1) ->
                candidate E text (euFull E) m = [])
  /\ (forall ic r tl m,
        search ic r text = Some m ->
        (forall t, Receipt.parseVariousDateFormats E (Receipt.dateStrOf m) = Some t ->
                   serviceWindow E t = false) ->
        Receipt.extractDateFrom E ((ic, r) :: tl) text
        = Receipt.extractDateFrom E tl text).
Proof.
  split; [|split; [|split; [|split; [|split; [|split]]]]].
  - intros H. destruct (extractDateFromText_cases E text) as [[H0 _]|(b & Hb & H1)].
    + rewrite H0 in H. discriminate.
    + rewrite H1 in H. injection H as <-.
      destruct (foundDates_parsed E text b Hb) as (p & m & Hp & Hm & Hparse & Hw).
      exists p, m, (fdate b). repeat split; assumption.
  - apply extractDateFrom_parsed.
  - apply extractDateFrom_parsed.
  - apply candidate_cases.
  - intros m Hm. rewrite candidate_cases. cbn [parser usFull].
    unfold parseUSDate.
    replace ((12 <? parseInt (grp m 1)) || (31 <? parseInt (grp m 2))) with true;
      [reflexivity|].
    symmetry. apply orb_true_iff.
    destruct Hm as [Hm|Hm]; [left|right]; apply Z.ltb_lt; exact Hm.
  - intros m Hm. rewrite candidate_cases. cbn [parser euFull].
    unfold parseEuropeanDate.
    replace ((12 <? parseInt (grp m 2)) || (31 <? parseInt (grp m 1))) with true;
      [reflexivity|].
    symmetry. apply orb_true_iff.
    destruct Hm as [Hm|Hm]; [left|right]; apply Z.ltb_lt; exact Hm.
  - intros ic r tl m. apply extractDateFrom_skips.
Qed.

Lemma returned_dates_in_window_witness :
  let E := slashHost 2024 6 1 in
  (exists p m t,
     In p (datePatterns E) /\ In m (matchAll (icase p) (pattern p) (lit "01/15/2024"))
     /\ parser p m = Ok (Some t) /\ parserWindow E t = true
     /\ lit "2024-01-15" = isoDatePart t)
  /\ (exists ic r m t,
        In (ic, r) OcrService.datePatterns /\ search ic r (lit "01/15/2024") = Some m
        /\ Receipt.parseVariousDateFormats E (Receipt.dateStrOf m) = Some t
        /\ serviceWindow E t = true /\ lit "2024-01-15" = isoDatePart t)
  /\ (exists ic r m t,
        In (ic, r) TesseractOcrService.datePatterns
        /\ search ic r (lit "01/15/2024") = Some m
        /\ Receipt.parseVariousDateFormats E (Receipt.dateStrOf m) = Some t
        /\ serviceWindow E t = true /\ lit "2024-01-15" = isoDatePart t)
  /\ candidate E (lit "01/15/2024") (euFull E)
       (RMatch 0 (lit "01/15/2024")
          [(3%nat, lit "2024"); (2%nat, lit "15"); (1%nat, lit "01")]) = []
  /\ Receipt.extractDateFrom E OcrService.datePatterns (lit "01/15/2018")
     = Receipt.extractDateFrom E (tl OcrService.datePatterns) (lit "01/15/2018").
Proof.
  cbv zeta.
  pose proof (returned_dates_in_window (slashHost 2024 6 1) (lit "01/15/2024")
                (lit "2024-01-15")) as (H1 & H2 & H3 & _ & _ & H6 & _).
  pose proof (returned_dates_in_window (slashHost 2024 6 1) (lit "01/15/2018")
                (lit "2018-01-15")) as (_ & _ & _ & _ & _ & _ & H7).
  split; [apply H1; vm_compute; reflexivity|].
  split; [apply H2; vm_compute; reflexivity|].
  split; [apply H3; vm_compute; reflexivity|].
  split; [apply H6; left; vm_compute; reflexivity|].
  apply (H7 false (snd Receipt.numericDatePattern) (tl OcrService.datePatterns)
           (RMatch 0 (lit "01/15/2018") [(1%nat, lit "01/15/2018")])).
  - vm_compute. reflexivity.
  - intros t Ht. vm_compute in Ht. injection Ht as <-. vm_compute. reflexivity.
Defined.

(** C7 fails on the lower edge, on calendar validity and for the OCR
    services.  On 2 November 2026 the text 01/20/2016 is dated 20 January
    2016, more than ten years before that day.  On 1 June 2024 the text
    02/30/2024, a day February does not have, is dated 1 March 2024.  On
    2 November 2026 the OCR services find no date in 01/15/2020, less
    than seven years back and inside the window of the claim, which the
    universal date parser returns. *)
Lemma claimed_window_not_kept :
  (extractDateFromText (utcHost 2026 11 2) (lit "01/20/2016")
   = Ok (Some (lit "2016-01-20"))
   /\ utc 2016 1 20 < utc (2026 - 10) 11 2)
  /\ extractDateFromText (utcHost 2024 6 1) (lit "02/30/2024")
     = Ok (Some (lit "2024-03-01"))
  /\ (OcrService.extractDate (slashHost 2026 11 2) (lit "01/15/2020") = Ok None
      /\ TesseractOcrService.extractDate (slashHost 2026 11 2) (lit "01/15/2020")
         = Ok None
      /\ Receipt.parseVariousDateFormats (slashHost 2026 11 2) (lit "01/15/2020")
         = Some (utc 2020 1 15)
      /\ utc (2026 - 10) 11 2 <= utc 2020 1 15 <= utc 2026 11 9
      /\ extractDateFromText (slashHost 2026 11 2) (lit "01/15/2020")
         = Ok (Some (lit "2020-01-15"))).
Proof.
  repeat split; try (vm_compute; reflexivity); vm_compute; discriminate.
Qed.

(** ** No error but on blank text (C8) *)

Lemma dropWhile_nil (p : char -> bool) (s : jsstring) :
  dropWhile p s = [] <-> forallb p s = true.
Proof.
  induction s as [|c s IH]; simpl; [intuition|].
  destruct (p c); simpl; [exact IH|]. split; discriminate.
Qed.

Lemma dropWhile_head (p : char -> bool) (s : jsstring) (c : char) (tl : jsstring) :
  dropWhile p s = c :: tl -> p c = false.
Proof.
  induction s as [|x s IH]; simpl; [discriminate|].
  destruct (p x) eqn:Hx; [exact IH|]. intros H. injection H as <- _. exact Hx.
Qed.

Lemma forallb_rev {A} (p : A -> bool) (l : list A) :
  forallb p (rev l) = forallb p l.
Proof.
  induction l as [|a l IH]; [reflexivity|].
  simpl. rewrite forallb_app, IH. simpl. rewrite andb_true_r. apply andb_comm.
Qed.

(** The trimmed text is empty exactly when the text holds white space and
    line terminators only. *)
Lemma trim_nil (s : jsstring) : trim s = [] <-> forallb isSpace s = true.
Proof.
  unfold trim, trimEnd, trimStart. split.
  - intros H. apply (f_equal (@rev char)) in H. rewrite rev_involutive in H.
    simpl in H. apply dropWhile_nil in H. rewrite forallb_rev in H.
    destruct (dropWhile isSpace s) as [|c tl] eqn:Hd.
    + apply dropWhile_nil, Hd.
    + apply dropWhile_head in Hd. simpl in H. rewrite Hd in H. discriminate.
  - intros H. apply dropWhile_nil in H. rewrite H. reflexivity.
Qed.

Lemma extractDateFrom_returns (E : env) (patterns : list (bool * regex))
    (line : jsstring) :
  exists v, Receipt.extractDateFrom E patterns line = Ok v.
Proof.
  destruct (extractDateFrom_window E patterns line) as [H|(t & H & _)];
    eexists; exact H.
Qed.

Lemma processLines_returns (extractDate : jsstring -> js (option jsstring)) :
  (forall line, exists v, extractDate line = Ok v) ->
  forall lines i r, exists r', Receipt.processLines extractDate i lines r = Ok r'.
Proof.
  intros Hd. induction lines as [|line tl IH]; intros i r; simpl.
  - eexists. reflexivity.
  - unfold Receipt.processLine at 1. destruct (Hd line) as [v ->]. simpl.
    apply IH.
Qed.

Lemma parseReceiptTextWith_throws
    (extractDate : jsstring -> js (option jsstring))
    (validate : Receipt.ParsedReceipt -> Receipt.ParsedReceipt) (text : jsstring) :
  (forall line, exists v, extractDate line = Ok v) ->
  (exists msg, Receipt.parseReceiptTextWith extractDate validate text = Throw msg)
  <-> forallb isSpace text = true.
Proof.
  intros Hd. rewrite <- trim_nil. unfold Receipt.parseReceiptTextWith.
  destruct (trim text) as [|c tl] eqn:Ht.
  - split; [reflexivity|]. intros _. eexists. reflexivity.
  - destruct (processLines_returns extractDate Hd (Receipt.linesOf text) 0%nat
                (Receipt.emptyResult text)) as [r' ->].
    simpl. split; [intros [msg H]; discriminate|discriminate].
Qed.

Lemma extractDateFromText_returns (E : env) (text : jsstring) :
  exists v, extractDateFromText E text = Ok v.
Proof.
  destruct (extractDateFromText_cases E text) as [[H _]|(b & _ & H)];
    eexists; exact H.
Qed.

(** C8: [parseReceiptText] of either service throws exactly when the text
    is empty or holds white space only; [extractDateFromText] always
    returns, and returns null when no candidate survives, as for the text
    "no dates here". *)
Theorem hard_error_only_on_blank_text (E : env) (text : jsstring) :
  ((exists msg, OcrService.parseReceiptText E text = Throw msg)
   <-> forallb isSpace text = true)
  /\ ((exists msg, TesseractOcrService.parseReceiptText E text = Throw msg)
      <-> forallb isSpace text = true)
  /\ (exists v, extractDateFromText E text = Ok v)
  /\ (foundDates E text = [] -> extractDateFromText E text = Ok None)
  /\ extractDateFromText E (lit "no dates here") = Ok None.
Proof.
  split; [|split; [|split; [|split]]].
  - apply parseReceiptTextWith_throws. intros line.
    apply extractDateFrom_returns.
  - apply parseReceiptTextWith_throws. intros line.
    apply extractDateFrom_returns.
  - apply extractDateFromText_returns.
  - intros H. unfold extractDateFromText. rewrite H.
    destruct text; reflexivity.
  - reflexivity.
Qed.

Lemma hard_error_only_on_blank_text_witness :
  extractDateFromText (utcHost 2024 6 1) (lit "no dates here") = Ok None
  /\ exists msg,
       OcrService.parseReceiptText (utcHost 2024 6 1) (lit "   ") = Throw msg.
Proof.
  pose proof (hard_error_only_on_blank_text (utcHost 2024 6 1) (lit "   "))
    as (H1 & _ & _ & _ & H5).
  split; [exact H5|]. apply H1. reflexivity.
Defined.

End Windows.

(** ** Numbers above zero *)

Section Positive.
Import Num.

Lemma SFcompare_refl_finite (s : bool) (m : positive) (e : Z) :
  SFcompare (S754_finite s m e) (S754_finite s m e) = Some Eq.
Proof.
  simpl. destruct s; rewrite Z.compare_refl.
  - unfold CompOpp. rewrite Pos.compare_cont_refl. reflexivity.
  - rewrite Pos.compare_cont_refl. reflexivity.
Qed.

(** A number above zero is truthy. *)
Lemma gt_zero_truthy (a : number) : gt a 0%float = true -> truthy a = true.
Proof.
  unfold gt, truthy, is_nan.
  rewrite FloatAxioms.ltb_spec, !FloatAxioms.eqb_spec.
  change (Prim2SF 0%float) with (S754_zero false).
  destruct (Prim2SF a) as [s| s| |s m e]; unfold SFltb, SFeqb.
  - destruct s; discriminate.
  - destruct s; [discriminate|]. reflexivity.
  - discriminate.
  - rewrite SFcompare_refl_finite. destruct s; [discriminate|]. reflexivity.
Qed.

End Positive.

(* ===================================================================== *)
(** * What the matcher finds *)
(* ===================================================================== *)

(** A relational reading of the patterns, against which the backtracking
    matcher is shown sound and complete. *)
Section Matching.
Variable ic : bool.

Fixpoint matches (r : regex) (s s' : mstate) : Prop :=
  match r with
  | Eps => s' = s
  | Atom a =>
      exists c tl, rest s = c :: tl /\ atom_test ic a c = true
                   /\ s' = MState (S (pos s)) tl (caps s)
  | Seq r1 r2 => exists m, matches r1 s m /\ matches r2 m s'
  | Alt r1 r2 => matches r1 s s' \/ matches r2 s s'
  | Grp n r1 =>
      exists m, matches r1 s m
                /\ s' = MState (pos m) (rest m)
                          ((n, firstn (pos m - pos s) (rest s)) :: caps m)
  | Rep _ mn mx a =>
      exists w tl, rest s = w ++ tl /\ forallb (atom_test ic a) w = true
                   /\ (mn <= length w)%nat
                   /\ (forall m, mx = Some m -> (length w <= m)%nat)
                   /\ s' = MState (pos s + length w) tl (caps s)
  | Opt r1 => matches r1 s s' \/ s' = s
  | Bol => pos s = 0%nat /\ s' = s
  | Eol => rest s = [] /\ s' = s
  | NotAhead r1 => s' = s /\ ~ exists m, matches r1 s m
  end.

Lemma rep_unfold (t : char -> bool) (greedy : bool) (mn : nat) (mx : option nat)
    (p : nat) (l : jsstring) (cs : list (nat * jsstring)) (k : cont) :
  rep t greedy mn mx p l cs k
  = if greedy then
      match
        match mx, l with
        | Some O, _ => None
        | _, c :: tl =>
            if t c then rep t greedy (Nat.pred mn) (option_map Nat.pred mx) (S p) tl cs k
            else None
        | _, [] => None
        end
      with
      | Some x => Some x
      | None => match mn with O => k (MState p l cs) | S _ => None end
      end
    else
      match match mn with O => k (MState p l cs) | S _ => None end with
      | Some x => Some x
      | None =>
          match mx, l with
          | Some O, _ => None
          | _, c :: tl =>
              if t c then rep t greedy (Nat.pred mn) (option_map Nat.pred mx) (S p) tl cs k
              else None
          | _, [] => None
          end
      end.
Proof. destruct l; reflexivity. Qed.

Lemma rep_sound (t : char -> bool) (greedy : bool) (l : jsstring) :
  forall mn mx p cs k res,
  rep t greedy mn mx p l cs k = Some res ->
  exists w tl, l = w ++ tl /\ forallb t w = true /\ (mn <= length w)%nat
               /\ (forall m, mx = Some m -> (length w <= m)%nat)
               /\ k (MState (p + length w) tl cs) = Some res.
Proof.
  induction l as [|c l IH]; intros mn mx p cs k res H; rewrite rep_unfold in H.
  - assert (Hs : match mn with O => k (MState p [] cs) | S _ => None end = Some res).
    { destruct greedy, mx as [[|m]|];
        destruct (match mn with O => k (MState p [] cs) | S _ => None end);
        congruence. }
    destruct mn; [|discriminate]. exists [], []. simpl. rewrite Nat.add_0_r.
    repeat split; auto. intros; lia.
  - assert (Hcases :
      (mn = 0%nat /\ k (MState p (c :: l) cs) = Some res)
      \/ (mx <> Some 0%nat /\ t c = true
          /\ rep t greedy (Nat.pred mn) (option_map Nat.pred mx) (S p) l cs k
             = Some res)).
    { destruct greedy.
      - destruct mx as [[|m]|]; simpl in H.
        + left. destruct mn; [auto|discriminate].
        + destruct (t c); simpl in H.
          * destruct (rep t true (Nat.pred mn) (Some m) (S p) l cs k) eqn:Hr.
            -- right. split; [discriminate|]. split; [reflexivity|].
               simpl. congruence.
            -- left. destruct mn; [auto|discriminate].
          * left. destruct mn; [auto|discriminate].
        + destruct (t c); simpl in H.
          * destruct (rep t true (Nat.pred mn) None (S p) l cs k) eqn:Hr.
            -- right. split; [discriminate|]. split; [reflexivity|].
               simpl. congruence.
            -- left. destruct mn; [auto|discriminate].
          * left. destruct mn; [auto|discriminate].
      - destruct mn as [|mn].
        + destruct (k (MState p (c :: l) cs)) eqn:Hk; [left; split; congruence|].
          right. destruct mx as [[|m]|]; [discriminate| |];
            (destruct (t c); [|discriminate]);
            (split; [discriminate|]); (split; [reflexivity|]); exact H.
        + right. destruct mx as [[|m]|]; [discriminate| |];
            (destruct (t c); [|discriminate]);
            (split; [discriminate|]); (split; [reflexivity|]); exact H. }
    destruct Hcases as [[-> Hk]|(Hmx & Ht & Hr)].
    + exists [], (c :: l). simpl. rewrite Nat.add_0_r.
      repeat split; auto. intros; lia.
    + apply IH in Hr. destruct Hr as (w & tl & -> & Hw & Hmn & Hmx' & Hk).
      exists (c :: w), tl. simpl. rewrite Ht, Hw.
      replace (p + S (length w))%nat with (S p + length w)%nat by lia.
      repeat split; auto; [lia|].
      intros m ->. destruct m as [|m]; [congruence|].
      specialize (Hmx' m eq_refl). lia.
Qed.

Lemma rep_complete (t : char -> bool) (greedy : bool) (w : jsstring) :
  forall tl mn mx p cs k,
  forallb t w = true -> (mn <= length w)%nat ->
  (forall m, mx = Some m -> (length w <= m)%nat) ->
  k (MState (p + length w) tl cs) <> None ->
  rep t greedy mn mx p (w ++ tl) cs k <> None.
Proof.
  induction w as [|c w IH]; intros tl mn mx p cs k Hw Hmn Hmx Hk;
    rewrite rep_unfold.
  - simpl in *. rewrite Nat.add_0_r in Hk.
    assert (mn = 0%nat) by lia. subst mn.
    destruct greedy.
    + destruct (match mx, tl with
                | Some O, _ => None
                | _, c :: tl0 =>
                    if t c then rep t true (Nat.pred 0) (option_map Nat.pred mx) (S p) tl0 cs k
                    else None
                | _, [] => None
                end); [discriminate|exact Hk].
    + destruct (k (MState p tl cs)); [discriminate|congruence].
  - simpl in Hw. apply andb_true_iff in Hw. destruct Hw as [Hc Hw].
    assert (Hr : rep t greedy (Nat.pred mn) (option_map Nat.pred mx) (S p)
                   (w ++ tl) cs k <> None).
    { apply IH; auto.
      - simpl in Hmn. lia.
      - intros m Hm. destruct mx as [m'|]; [|discriminate].
        simpl in Hm. injection Hm as <-. specialize (Hmx m' eq_refl).
        simpl in Hmx. lia.
      - replace (S p + length w)%nat with (p + length (c :: w))%nat
          by (simpl; lia). exact Hk. }
    assert (Hmx0 : mx <> Some 0%nat).
    { intros ->. specialize (Hmx 0%nat eq_refl). simpl in Hmx. lia. }
    simpl. rewrite Hc.
    destruct (rep t greedy (Nat.pred mn) (option_map Nat.pred mx) (S p)
                (w ++ tl) cs k) eqn:Hrep; [|congruence].
    destruct greedy.
    + destruct mx as [[|m']|]; [congruence|discriminate|discriminate].
    + destruct (match mn with O => k (MState p (c :: w ++ tl) cs) | S _ => None end);
        [discriminate|].
      destruct mx as [[|m']|]; [congruence|discriminate|discriminate].
Qed.

(** The matcher succeeds exactly when the pattern matches up to a state
    the continuation accepts. *)
Lemma exec_correct (r : regex) :
  forall st k,
  (forall res, exec ic r st k = Some res ->
     exists st', matches r st st' /\ k st' = Some res)
  /\ (forall st', matches r st st' -> k st' <> None -> exec ic r st k <> None).
Proof.
  induction r as [|a|r1 IH1 r2 IH2|r1 IH1 r2 IH2|n r1 IH1|g mn mx a|r1 IH1| | |r1 IH1];
    intros st k; simpl.
  - split; [intros res H; exists st; auto|intros st' -> H; exact H].
  - split.
    + intros res H. destruct (rest st) as [|c tl] eqn:Hr; [discriminate|].
      destruct (atom_test ic a c) eqn:Ht; [|discriminate].
      eexists. split; [exists c, tl; auto|exact H].
    + intros st' (c & tl & Hr & Ht & ->) Hk. rewrite Hr, Ht. exact Hk.
  - split.
    + intros res H. apply (proj1 (IH1 st _)) in H. destruct H as (m & Hm & H).
      apply (proj1 (IH2 m k)) in H. destruct H as (st' & Hst & H).
      exists st'. split; [exists m; auto|exact H].
    + intros st' (m & Hm & Hst) Hk. apply (proj2 (IH1 st _) m Hm).
      apply (proj2 (IH2 m k) st' Hst Hk).
  - split.
    + intros res H. destruct (exec ic r1 st k) eqn:H1.
      * injection H as <-. apply (proj1 (IH1 st k)) in H1.
        destruct H1 as (st' & Hst & H1). exists st'. auto.
      * apply (proj1 (IH2 st k)) in H. destruct H as (st' & Hst & H).
        exists st'. auto.
    + intros st' [Hst|Hst] Hk.
      * pose proof (proj2 (IH1 st k) st' Hst Hk) as H.
        destruct (exec ic r1 st k); [discriminate|congruence].
      * destruct (exec ic r1 st k); [discriminate|].
        apply (proj2 (IH2 st k) st' Hst Hk).
  - split.
    + intros res H. apply (proj1 (IH1 st _)) in H. destruct H as (m & Hm & H).
      eexists. split; [exists m; split; [exact Hm|reflexivity]|exact H].
    + intros st' (m & Hm & ->) Hk. apply (proj2 (IH1 st _) m Hm). exact Hk.
  - split.
    + intros res H. apply rep_sound in H.
      destruct H as (w & tl & Hr & Hw & Hmn & Hmx & H).
      eexists. split; [exists w, tl; repeat split; auto|exact H].
    + intros st' (w & tl & Hr & Hw & Hmn & Hmx & ->) Hk. rewrite Hr.
      apply rep_complete; auto.
  - split.
    + intros res H. destruct (exec ic r1 st k) eqn:H1.
      * injection H as <-. apply (proj1 (IH1 st k)) in H1.
        destruct H1 as (st' & Hst & H1). exists st'. auto.
      * exists st. auto.
    + intros st' [Hst| ->] Hk.
      * pose proof (proj2 (IH1 st k) st' Hst Hk) as H.
        destruct (exec ic r1 st k); [discriminate|congruence].
      * destruct (exec ic r1 st k); [discriminate|exact Hk].
  - split.
    + intros res H. destruct (pos st) eqn:Hp; [|discriminate]. exists st. auto.
    + intros st' [Hp ->] Hk. rewrite Hp. exact Hk.
  - split.
    + intros res H. destruct (rest st) eqn:Hr; [|discriminate]. exists st. auto.
    + intros st' [Hr ->] Hk. rewrite Hr. exact Hk.
  - split.
    + intros res H. destruct (exec ic r1 st (fun s => Some s)) eqn:H1; [discriminate|].
      exists st. split; [|exact H]. split; [reflexivity|].
      intros (m1 & Hm).
      apply (proj2 (IH1 st (fun s => Some s)) m1 Hm); [discriminate|exact H1].
    + intros st' [-> Hn] Hk.
      destruct (exec ic r1 st (fun s => Some s)) eqn:H1; [|exact Hk].
      apply (proj1 (IH1 st (fun s => Some s))) in H1.
      destruct H1 as (m1 & Hm & _). exfalso. apply Hn. exists m1. exact Hm.
Qed.

Lemma exec_sound (r : regex) (st res : mstate) :
  exec ic r st (fun s => Some s) = Some res -> matches r st res.
Proof.
  intros H. apply (proj1 (exec_correct r st _)) in H.
  destruct H as (st' & Hst & H). injection H as <-. exact Hst.
Qed.

Lemma exec_complete (r : regex) (st st' : mstate) :
  matches r st st' -> exists res, exec ic r st (fun s => Some s) = Some res.
Proof.
  intros H. pose proof (proj2 (exec_correct r st (fun s => Some s)) st' H) as Hc.
  destruct (exec ic r st (fun s => Some s)) as [res|]; [eauto|].
  exfalso. apply Hc; [discriminate|reflexivity].
Qed.

(** ** Searching *)

(** [search_from] returns the match of the first index that has one. *)
Lemma search_from_spec (r : regex) (s : jsstring) :
  forall i m,
  search_from ic r i s = Some m <->
  exists k, (k <= length s)%nat
            /\ exec_at ic r (i + k) (skipn k s) = Some m
            /\ forall j, (j < k)%nat -> exec_at ic r (i + j) (skipn j s) = None.
Proof.
  induction s as [|c s IH]; intros i m; simpl.
  - split.
    + intros H. exists 0%nat. rewrite Nat.add_0_r. simpl.
      destruct (exec_at ic r i []); [|discriminate].
      repeat split; auto. intros; lia.
    + intros (k & Hk & H & _). assert (k = 0%nat) by lia. subst k.
      rewrite Nat.add_0_r in H. simpl in H. rewrite H. reflexivity.
  - split.
    + intros H. destruct (exec_at ic r i (c :: s)) eqn:He.
      * exists 0%nat. rewrite Nat.add_0_r. simpl.
        repeat split; [lia|congruence|intros; lia].
      * apply IH in H. destruct H as (k & Hk & H & Hj). exists (S k).
        replace (i + S k)%nat with (S i + k)%nat by lia. simpl.
        repeat split; [lia|exact H|].
        intros [|j] Hlt; [rewrite Nat.add_0_r; exact He|].
        replace (i + S j)%nat with (S i + j)%nat by lia. simpl.
        apply Hj. lia.
    + intros (k & Hk & H & Hj). destruct k as [|k].
      * rewrite Nat.add_0_r in H. simpl in H. rewrite H. reflexivity.
      * pose proof (Hj 0%nat ltac:(lia)) as H0. rewrite Nat.add_0_r in H0.
        simpl in H0. rewrite H0. apply IH. exists k.
        replace (S i + k)%nat with (i + S k)%nat by lia.
        repeat split; [lia|exact H|].
        intros j Hlt. specialize (Hj (S j) ltac:(lia)).
        replace (S i + j)%nat with (i + S j)%nat by lia. exact Hj.
Qed.

Lemma exec_at_index (r : regex) (i : nat) (s : jsstring) (m : rmatch) :
  exec_at ic r i s = Some m -> index m = i.
Proof.
  unfold exec_at. destruct (exec ic r (MState i s []) (fun st => Some st));
    [|discriminate]. intros H. injection H as <-. reflexivity.
Qed.

(** A match at some index makes the search succeed. *)
Lemma search_from_finds (r : regex) (s : jsstring) :
  forall i k m,
  (k <= length s)%nat -> exec_at ic r (i + k) (skipn k s) = Some m ->
  exists m', search_from ic r i s = Some m'.
Proof.
  induction s as [|c s IH]; intros i k m Hk H; simpl.
  - assert (k = 0%nat) by (simpl in Hk; lia). subst k.
    rewrite Nat.add_0_r in H. simpl in H. rewrite H. eauto.
  - destruct (exec_at ic r i (c :: s)) eqn:He; [eauto|].
    destruct k as [|k].
    + rewrite Nat.add_0_r in H. simpl in H. congruence.
    + apply (IH (S i) k m); [simpl in Hk; lia|].
      replace (S i + k)%nat with (i + S k)%nat by lia. exact H.
Qed.

End Matching.

(* ===================================================================== *)
(** * Which item pattern reads a line (C9) *)
(* ===================================================================== *)

Section ItemShapes.
Import Receipt Num.

Lemma digit_not_space (c : char) : isDigit c = true -> isSpace c = false.
Proof.
  unfold isDigit, isSpace, between. intros H.
  apply andb_true_iff in H. destruct H as [H1 H2].
  apply N.leb_le in H1. apply N.leb_le in H2.
  repeat rewrite orb_false_iff.
  repeat split; try (apply N.eqb_neq; lia);
    apply andb_false_iff; [right|left]; apply N.leb_gt; lia.
Qed.

Definition notLineTerminator (c : char) : bool := negb (isLineTerminator c).

Lemma matches_rep_intro (ic g : bool) (mn : nat) (mx : option nat) (a : atom)
    (w tl : jsstring) (p : nat) (cs : list (nat * jsstring)) :
  forallb (atom_test ic a) w = true -> (mn <= length w)%nat ->
  (forall m, mx = Some m -> (length w <= m)%nat) ->
  matches ic (Rep g mn mx a) (MState p (w ++ tl) cs) (MState (p + length w) tl cs).
Proof.
  intros Hw Hmn Hmx. exists w, tl. repeat split; auto.
Qed.

Lemma forallb_same {A} (f g : A -> bool) (l : list A) :
  (forall a, f a = g a) -> forallb f l = forallb g l.
Proof.
  intros H. induction l as [|a l IH]; [reflexivity|].
  simpl. rewrite H, IH. reflexivity.
Qed.

Lemma digit_test (ic : bool) (c : char) : atom_test ic digit c = isDigit c.
Proof. simpl. apply orb_false_r. Qed.

Lemma space_test (ic : bool) (c : char) : atom_test ic space c = isSpace c.
Proof. simpl. apply orb_false_r. Qed.

Lemma firstn_app_exact {A} (w tl : list A) : firstn (length w) (w ++ tl) = w.
Proof.
  rewrite firstn_app, Nat.sub_diag, firstn_all. simpl. apply app_nil_r.
Qed.

(** The amount [\$?(\d+\.\d{2})] at the end of a line. *)
Definition amountText (dollar I F : jsstring) : jsstring :=
  dollar ++ I ++ lit "." ++ F.

Definition isAmount (dollar I F : jsstring) : Prop :=
  (dollar = [] \/ dollar = lit "$") /\ I <> [] /\ forallb isDigit I = true
  /\ length F = 2%nat /\ forallb isDigit F = true.

Lemma nonempty_length {A} (l : list A) : l <> [] -> (1 <= length l)%nat.
Proof. destruct l; [congruence|simpl; lia]. Qed.

Lemma money_matches (n : nat) (dollar I F : jsstring) (p : nat)
    (cs : list (nat * jsstring)) :
  isAmount dollar I F ->
  exists st, matches false (Seq (money n) Eol)
               (MState p (amountText dollar I F) cs) st.
Proof.
  intros (Hd & HI & HId & HF & HFd). unfold money, amountText.
  assert (Hd1 : forallb (atom_test false (OneOf [Ch "$"])) dollar = true
                /\ (length dollar <= 1)%nat)
    by (destruct Hd as [-> | ->]; split; simpl; auto).
  destruct Hd1 as [Hd1 Hd2].
  eexists. cbn [matches seq opt plus times chr].
  eexists. split.
  - eexists. split.
    + apply (matches_rep_intro false true).
      * exact Hd1.
      * lia.
      * intros m Hm. injection Hm as <-. exact Hd2.
    + eexists. split; [|reflexivity]. eexists. split.
      * apply (matches_rep_intro false true).
        -- rewrite <- HId. apply forallb_same, digit_test.
        -- apply nonempty_length, HI.
        -- discriminate.
      * eexists. split.
        -- exists (ch "."), F. repeat split.
        -- exists F, []. cbn [rest].
           split; [symmetry; apply app_nil_r|].
           split; [rewrite <- HFd; apply forallb_same, digit_test|].
           split; [lia|].
           split; [intros m Hm; injection Hm as <-; lia|reflexivity].
  - split; reflexivity.
Qed.

(** A line [p ++ W ++ amount], [p] free of line terminators and [W] white
    space, is matched by the name-and-price pattern at its start. *)
Lemma namePrice_matches (p W dollar I F : jsstring) :
  p <> [] -> forallb notLineTerminator p = true ->
  W <> [] -> forallb isSpace W = true -> isAmount dollar I F ->
  exists m, search false namePrice (p ++ W ++ amountText dollar I F) = Some m.
Proof.
  intros Hp Hpd HW HWs Ham.
  set (line := p ++ W ++ amountText dollar I F).
  destruct (money_matches 2 dollar I F (0 + length p + length W)
              [(1%nat, firstn (0 + length p - 0) line)] Ham) as [st Hst].
  assert (Hm : matches false namePrice (MState 0 line []) st).
  { unfold namePrice. cbn [matches seq lazy_plus plus].
    eexists. split; [split; reflexivity|].
    eexists. split.
    - eexists. split; [|reflexivity]. cbn [pos rest caps].
      apply (matches_rep_intro false true); [exact Hpd|apply nonempty_length, Hp|discriminate].
    - cbn [pos rest caps]. eexists. split; [|exact Hst].
      apply (matches_rep_intro false true).
      + rewrite <- HWs. apply forallb_same, space_test.
      + apply nonempty_length, HW.
      + discriminate. }
  apply (exec_complete false) in Hm. destruct Hm as [res Hres].
  unfold search.
  apply (search_from_finds false namePrice line 0 0
           (RMatch 0 (firstn (pos res - 0) line) (caps res))); [lia|].
  unfold exec_at. simpl skipn. simpl Nat.add. rewrite Hres. reflexivity.
Qed.

(** What a match of the name-and-price pattern holds: capture 1 is a
    non-empty start of the line, free of line terminators and followed by
    white space. *)
Lemma namePrice_found (line : jsstring) (m : rmatch) :
  search false namePrice line = Some m ->
  exists w sp tl,
    line = w ++ sp :: tl /\ w <> [] /\ isSpace sp = true
    /\ forallb notLineTerminator w = true
    /\ group m 1 = Some w.
Proof.
  intros H. apply (search_from_spec false) in H.
  destruct H as (k & _ & H & _). unfold exec_at in H.
  destruct (exec false namePrice (MState (0 + k) (skipn k line) [])
              (fun st => Some st)) as [res|] eqn:He; [|discriminate].
  injection H as <-. apply exec_sound in He.
  unfold namePrice, money in He. cbn [matches seq lazy_plus plus opt times chr] in He.
  destruct He as (s0 & [Hk ->] & s1 & (s1' & Hname & ->) & s2 & Hsp & s3
                  & (s4 & Hdollar & s5 & Hprice & ->) & _ & ->).
  cbn [pos rest caps] in *. assert (k = 0%nat) by lia. subst k.
  simpl in Hname, Hk.
  destruct Hname as (w & tl & Hline & Hw & Hlen & _ & ->).
  cbn [pos rest caps] in *.
  destruct Hsp as (w2 & tl2 & Htl & Hw2 & Hlen2 & _ & ->).
  destruct Hdollar as (w3 & tl3 & _ & _ & _ & _ & ->).
  destruct Hprice as (s6 & Hint & s7 & Hdot & Hlast).
  destruct Hint as (w5 & tl5 & _ & _ & _ & _ & ->).
  destruct Hdot as (c6 & tl6 & _ & _ & ->).
  destruct Hlast as (w4 & tl4 & _ & _ & _ & _ & ->).
  cbn [caps pos rest]. unfold group. cbn [groups assoc Nat.eqb].
  destruct w2 as [|sp w2]; [simpl in Hlen2; lia|].
  exists w, sp, (w2 ++ tl2). repeat split.
  - rewrite Hline, Htl. reflexivity.
  - destruct w; [simpl in Hlen; lia|discriminate].
  - cbn [forallb] in Hw2. apply andb_true_iff in Hw2. destruct Hw2 as [Hs _].
    rewrite space_test in Hs. exact Hs.
  - exact Hw.
  - rewrite Nat.sub_0_r, Hline. f_equal. apply firstn_app_exact.
Qed.

(** A start of the line that is followed by white space reaches past the
    leading digits. *)
Lemma digits_prefix (D : jsstring) :
  forall w t sp t',
  forallb isDigit D = true -> w <> [] -> D ++ t = w ++ sp :: t' ->
  isSpace sp = true -> exists q, w = D ++ q.
Proof.
  induction D as [|d D IH]; intros w t sp t' HD Hw Heq Hsp; [exists w; reflexivity|].
  destruct w as [|c w]; [congruence|].
  simpl in Heq. injection Heq as <- Heq.
  simpl in HD. apply andb_true_iff in HD. destruct HD as [Hd HD].
  destruct w as [|c' w].
  - destruct D as [|d' D]; [exists []; reflexivity|].
    simpl in Heq. injection Heq as -> _.
    simpl in HD. apply andb_true_iff in HD. destruct HD as [Hd' _].
    apply digit_not_space in Hd'. congruence.
  - destruct (IH (c' :: w) t sp t' HD ltac:(discriminate) Heq Hsp) as [q Hq].
    exists q. simpl. rewrite Hq. reflexivity.
Qed.

Lemma startsWith_app (D q : jsstring) : startsWith D (D ++ q) = true.
Proof.
  induction D as [|d D IH]; [reflexivity|]. simpl. rewrite N.eqb_refl. exact IH.
Qed.

Lemma trimEnd_keeps (D : jsstring) (d : char) (q : jsstring) :
  isSpace d = false -> exists q', trimEnd ((D ++ [d]) ++ q) = (D ++ [d]) ++ q'.
Proof.
  intros Hd. induction q as [|c q IH] using rev_ind.
  - exists []. unfold trimEnd. rewrite app_nil_r, rev_app_distr. simpl.
    rewrite Hd. simpl. rewrite rev_involutive. reflexivity.
  - unfold trimEnd in *. rewrite app_assoc, rev_app_distr. simpl.
    destruct (isSpace c).
    + exact IH.
    + exists (q ++ [c]). simpl. rewrite rev_involutive, app_assoc. reflexivity.
Qed.

(** The trimmed capture still starts with the digits. *)
Lemma trim_keeps_digits (D q : jsstring) :
  D <> [] -> forallb isDigit D = true -> startsWith D (trim (D ++ q)) = true.
Proof.
  intros HD Hd. unfold trim, trimStart.
  destruct D as [|d0 D0] eqn:HD0; [congruence|].
  assert (H0 : isSpace d0 = false).
  { simpl in Hd. apply andb_true_iff in Hd. apply digit_not_space, Hd. }
  cbn [app dropWhile]. rewrite H0. rewrite <- HD0 in *.
  destruct (exists_last HD) as (D' & d & HD').
  assert (Hlast : isSpace d = false).
  { rewrite HD', forallb_app in Hd. apply andb_true_iff in Hd.
    destruct Hd as [_ Hd]. simpl in Hd. rewrite andb_true_r in Hd.
    apply digit_not_space, Hd. }
  change (d0 :: D0 ++ q) with ((d0 :: D0) ++ q). rewrite <- HD0, HD'.
  destruct (trimEnd_keeps D' d q Hlast) as [q' ->]. apply startsWith_app.
Qed.

(** The line has the shape quantity, gap, name, gap, amount. *)
Definition quantityLine (D W1 N W2 dollar I F : jsstring) : Prop :=
  D <> [] /\ forallb isDigit D = true
  /\ W1 <> [] /\ forallb isSpace W1 = true
  /\ N <> [] /\ forallb notLineTerminator N = true
  /\ W2 <> [] /\ forallb isSpace W2 = true
  /\ isAmount dollar I F.

Lemma digit_not_terminator (c : char) :
  isDigit c = true -> notLineTerminator c = true.
Proof.
  unfold isDigit, notLineTerminator, isLineTerminator, between. intros H.
  apply andb_true_iff in H. destruct H as [H1 H2].
  apply N.leb_le in H1. apply N.leb_le in H2.
  apply negb_true_iff. repeat rewrite orb_false_iff.
  repeat split; apply N.eqb_neq; lia.
Qed.

Lemma forallb_impl {A} (f g : A -> bool) (l : list A) :
  (forall a, f a = true -> g a = true) -> forallb f l = true -> forallb g l = true.
Proof.
  intros H. induction l as [|a l IH]; [reflexivity|].
  simpl. rewrite !andb_true_iff. intros [Ha Hl]. auto.
Qed.

(** The name-and-price pattern reads such a line whenever the gap after
    the quantity holds no line terminator, and its first capture starts
    with the quantity digits. *)
Lemma quantityLine_first_shape (D W1 N W2 dollar I F : jsstring) :
  quantityLine D W1 N W2 dollar I F ->
  forallb notLineTerminator W1 = true ->
  exists m q,
    search false namePrice (D ++ W1 ++ N ++ W2 ++ amountText dollar I F) = Some m
    /\ group m 1 = Some (D ++ q).
Proof.
  intros (HD & HDd & HW1 & HW1s & HN & HNd & HW2 & HW2s & Ham) HW1t.
  destruct (namePrice_matches (D ++ W1 ++ N) W2 dollar I F) as [m Hm]; auto.
  - destruct D; [congruence|discriminate].
  - rewrite !forallb_app, HW1t, HNd.
    rewrite (forallb_impl isDigit notLineTerminator D digit_not_terminator HDd).
    reflexivity.
  - rewrite <- !app_assoc in Hm.
    destruct (namePrice_found _ m Hm) as (w & sp & tl & Hline & Hw & Hsp & _ & Hg).
    destruct W1 as [|s1 W1']; [congruence|].
    destruct (digits_prefix D w _ sp tl HDd Hw Hline Hsp) as [q ->].
    exists m, q. split; [exact Hm|exact Hg].
Qed.

Lemma char_test (a : ascii) (c : char) :
  atom_test false (OneOf [Ch a]) c = true -> c = ch a.
Proof. simpl. rewrite orb_false_r. apply N.eqb_eq. Qed.

Lemma money_found (n : nat) (st st' : mstate) :
  matches false (Seq (money n) Eol) st st' ->
  exists dollar I F,
    rest st = amountText dollar I F /\ isAmount dollar I F.
Proof.
  unfold money. cbn [matches seq opt plus times chr].
  intros (s1 & (s2 & Hdollar & s3 & Hprice & ->) & Hend & ->).
  destruct Hdollar as (dollar & tl & Hst & Hd & _ & Hd1 & ->).
  destruct Hprice as (s4 & HI & s5 & Hdot & HF).
  destruct HI as (I & tl1 & Htl & HId & HI1 & _ & ->).
  destruct Hdot as (c & tl2 & Htl1 & Hc & ->).
  destruct HF as (F & tl3 & Htl2 & HFd & HF2 & HF2' & ->).
  cbn [pos rest caps] in *. subst tl3. rewrite app_nil_r in Htl2. subst tl2.
  apply char_test in Hc. subst c. subst tl1 tl.
  exists dollar, I, F. split; [exact Hst|]. repeat split.
  - specialize (Hd1 1%nat eq_refl). destruct dollar as [|c [|c' d]].
    + left. reflexivity.
    + right. simpl in Hd. rewrite andb_true_r in Hd.
      change (atom_test false (OneOf [Ch "$"]) c = true) in Hd.
      apply char_test in Hd. subst c. reflexivity.
    + simpl in Hd1. lia.
  - intros ->. simpl in HI1. lia.
  - rewrite <- HId. apply forallb_same. intros a. symmetry. apply digit_test.
  - specialize (HF2' 2%nat eq_refl). lia.
  - rewrite <- HFd. apply forallb_same. intros a. symmetry. apply digit_test.
Qed.

(** What a match of the quantity-name-price pattern holds. *)
Lemma quantityNamePrice_found (line : jsstring) (m : rmatch) :
  search false quantityNamePrice line = Some m ->
  exists D W1 N W2 dollar I F,
    line = D ++ W1 ++ N ++ W2 ++ amountText dollar I F
    /\ quantityLine D W1 N W2 dollar I F
    /\ group m 1 = Some D.
Proof.
  intros H. apply (search_from_spec false) in H.
  destruct H as (k & _ & H & _). unfold exec_at in H.
  destruct (exec false quantityNamePrice (MState (0 + k) (skipn k line) [])
              (fun st => Some st)) as [res|] eqn:He; [|discriminate].
  injection H as <-. apply exec_sound in He.
  unfold quantityNamePrice in He. cbn [seq] in He.
  destruct He as (s0 & [Hk ->] & s1 & (s1' & Hqty & ->) & s2 & Hsp1 & s3
                  & (s3' & Hname & ->) & s4 & Hsp2 & Hmoney).
  cbn [pos rest caps] in *. assert (k = 0%nat) by lia. subst k.
  simpl in Hqty, Hk.
  destruct Hqty as (D & tl & Hline & HD & HD1 & _ & ->).
  destruct Hsp1 as (W1 & tl1 & Htl & HW1 & HW11 & _ & ->).
  destruct Hname as (N & tl2 & Htl1 & HN & HN1 & _ & ->).
  destruct Hsp2 as (W2 & tl3 & Htl2 & HW2 & HW21 & _ & ->).
  cbn [pos rest caps] in *.
  pose proof Hmoney as Hcaps.
  apply money_found in Hmoney. destruct Hmoney as (dollar & I & F & Htl3 & Ham).
  cbn [rest] in Htl3.
  exists D, W1, N, W2, dollar, I, F. split; [|split].
  - rewrite Hline, Htl, Htl1, Htl2, Htl3. reflexivity.
  - assert (Hne : forall (l : jsstring), (1 <= length l)%nat -> l <> [])
      by (intros l Hl ->; simpl in Hl; lia).
    repeat split; auto.
    + rewrite <- HD. apply forallb_same. intros a. symmetry. apply digit_test.
    + rewrite <- HW1. apply forallb_same. intros a. symmetry. apply space_test.
    + rewrite <- HW2. apply forallb_same. intros a. symmetry. apply space_test.
    + apply Ham.
    + apply Ham.
    + apply Ham.
    + apply Ham.
    + apply Ham.
  - unfold money in Hcaps. cbn [matches seq opt plus times chr] in Hcaps.
    destruct Hcaps as (t1 & (t2 & Hdollar & t3 & Hprice & ->) & _ & ->).
    destruct Hdollar as (w3 & tl4 & _ & _ & _ & _ & ->).
    destruct Hprice as (t4 & Hint & t5 & Hdot & Hlast).
    destruct Hint as (w5 & tl5 & _ & _ & _ & _ & ->).
    destruct Hdot as (c6 & tl6 & _ & _ & ->).
    destruct Hlast as (w4 & tl7 & _ & _ & _ & _ & ->).
    cbn [caps pos rest]. unfold group. cbn [groups assoc Nat.eqb].
    rewrite Nat.sub_0_r, Hline. f_equal. apply firstn_app_exact.
Qed.

(** On a line without line terminators, whatever the quantity-name-price
    pattern matches the name-and-price pattern matches as well; being
    tried first, it leaves the second case of the switch unreached. *)
Lemma second_shape_shadowed (line : jsstring) (m2 : rmatch) :
  forallb notLineTerminator line = true ->
  search false quantityNamePrice line = Some m2 ->
  exists m1, search false namePrice line = Some m1.
Proof.
  intros Hline H. apply quantityNamePrice_found in H.
  destruct H as (D & W1 & N & W2 & dollar & I & F & -> & Hq & _).
  rewrite !forallb_app in Hline. apply andb_true_iff in Hline.
  destruct Hline as [_ Hline]. apply andb_true_iff in Hline.
  destruct Hline as [HW1 _].
  destruct (quantityLine_first_shape D W1 N W2 dollar I F Hq HW1) as (m & q & Hm & _).
  exists m. exact Hm.
Qed.

(** A line [D ++ W1 ++ N ++ W2 ++ amount] of that form is matched by the
    quantity-name-price pattern. *)
Lemma quantityNamePrice_matches (D W1 N W2 dollar I F : jsstring) :
  quantityLine D W1 N W2 dollar I F ->
  exists m, search false quantityNamePrice
              (D ++ W1 ++ N ++ W2 ++ amountText dollar I F) = Some m.
Proof.
  intros (HD & HDd & HW1 & HW1s & HN & HNd & HW2 & HW2s & Ham).
  set (line := D ++ W1 ++ N ++ W2 ++ amountText dollar I F).
  destruct (money_matches 3 dollar I F
              (0 + length D + length W1 + length N + length W2)
              [(2%nat, firstn (0 + length D + length W1 + length N
                               - (0 + length D + length W1))
                         (N ++ W2 ++ amountText dollar I F));
               (1%nat, firstn (0 + length D - 0) line)] Ham) as [st Hst].
  assert (Hm : matches false quantityNamePrice (MState 0 line []) st).
  { unfold quantityNamePrice. cbn [matches seq lazy_plus plus].
    eexists. split; [split; reflexivity|].
    eexists. split.
    - eexists. split; [|reflexivity]. cbn [pos rest caps].
      apply (matches_rep_intro false true).
      + rewrite <- HDd. apply forallb_same, digit_test.
      + apply nonempty_length, HD.
      + discriminate.
    - cbn [pos rest caps]. eexists. split.
      + apply (matches_rep_intro false true).
        * rewrite <- HW1s. apply forallb_same, space_test.
        * apply nonempty_length, HW1.
        * discriminate.
      + eexists. split.
        * eexists. split; [|reflexivity]. cbn [pos rest caps].
          apply (matches_rep_intro false false);
            [exact HNd|apply nonempty_length, HN|discriminate].
        * cbn [pos rest caps]. eexists. split; [|exact Hst].
          apply (matches_rep_intro false true).
          -- rewrite <- HW2s. apply forallb_same, space_test.
          -- apply nonempty_length, HW2.
          -- discriminate. }
  apply (exec_complete false) in Hm. destruct Hm as [res Hres].
  unfold search.
  apply (search_from_finds false quantityNamePrice line 0 0
           (RMatch 0 (firstn (pos res - 0) line) (caps res))); [lia|].
  unfold exec_at. simpl skipn. simpl Nat.add. rewrite Hres. reflexivity.
Qed.

(** C9, as amended: a line made of quantity digits, white space without
    line terminator, a non-empty name, white space and an amount is
    matched by the quantity-name-price pattern, and by the name-and-price
    pattern before it: unless [isNonItemLine] excludes the line,
    [extractLineItem] returns the item of the first case of the switch,
    of quantity 1 and with a name that starts with the quantity digits.
    In general, on a line without line terminator whatever the
    quantity-name-price pattern matches the name-and-price pattern
    matches as well, and the loop over the patterns returns the item of
    the first case: the second case is not reached. *)
Theorem quantity_line_read_as_name_and_price :
  (forall D W1 N W2 dollar I F nextLine : jsstring,
     quantityLine D W1 N W2 dollar I F ->
     forallb notLineTerminator W1 = true ->
     isNonItemLine (D ++ W1 ++ N ++ W2 ++ amountText dollar I F) = false ->
     exists m m2 item,
       search false namePrice (D ++ W1 ++ N ++ W2 ++ amountText dollar I F) = Some m
       /\ search false quantityNamePrice
            (D ++ W1 ++ N ++ W2 ++ amountText dollar I F) = Some m2
       /\ extractLineItem (D ++ W1 ++ N ++ W2 ++ amountText dollar I F) nextLine
          = Some item
       /\ item = Item (trim (grp m 1)) (parseFloat (grp m 2)) 1%float None
       /\ quantity item = 1%float /\ unitPrice item = None
       /\ startsWith D (name item) = true)
  /\ (forall (line nextLine : jsstring) (m2 : rmatch),
        forallb notLineTerminator line = true ->
        search false quantityNamePrice line = Some m2 ->
        exists m1,
          search false namePrice line = Some m1
          /\ extractLineItemFrom 0 itemPatterns line nextLine
             = Some (Item (trim (grp m1 1)) (parseFloat (grp m1 2)) 1%float None)).
Proof.
  split.
  - intros D W1 N W2 dollar I F nextLine Hq HW1 Hnon.
    destruct (quantityLine_first_shape D W1 N W2 dollar I F Hq HW1)
      as (m & q & Hm & Hg).
    destruct (quantityNamePrice_matches D W1 N W2 dollar I F Hq) as (m2 & Hm2).
    exists m, m2. eexists. split; [exact Hm|]. split; [exact Hm2|]. split.
    + unfold extractLineItem. rewrite Hnon. unfold itemPatterns.
      cbn [extractLineItemFrom]. rewrite Hm. cbn [itemCase]. reflexivity.
    + split; [reflexivity|]. cbn [quantity unitPrice name].
      split; [reflexivity|]. split; [reflexivity|].
      unfold grp. rewrite Hg. apply trim_keeps_digits; apply Hq.
  - intros line nextLine m2 Hline Hm2.
    destruct (second_shape_shadowed line m2 Hline Hm2) as (m1 & Hm1).
    exists m1. split; [exact Hm1|].
    unfold itemPatterns. cbn [extractLineItemFrom]. rewrite Hm1.
    cbn [itemCase]. reflexivity.
Qed.

Lemma quantity_line_read_as_name_and_price_witness :
  (exists m m2 item,
     search false namePrice (lit "2 Milk $3.50") = Some m
     /\ search false quantityNamePrice (lit "2 Milk $3.50") = Some m2
     /\ extractLineItem (lit "2 Milk $3.50") [] = Some item
     /\ item = Item (trim (grp m 1)) (parseFloat (grp m 2)) 1%float None
     /\ quantity item = 1%float /\ unitPrice item = None
     /\ startsWith (lit "2") (name item) = true)
  /\ (exists m1,
        search false namePrice (lit "2 Milk $3.50") = Some m1
        /\ extractLineItemFrom 0 itemPatterns (lit "2 Milk $3.50") []
           = Some (Item (trim (grp m1 1)) (parseFloat (grp m1 2)) 1%float None)).
Proof.
  destruct quantity_line_read_as_name_and_price as [H1 H2]. split.
  - apply (H1 (lit "2") (lit " ") (lit "Milk") (lit " ") (lit "$") (lit "3")
             (lit "50") []).
    + unfold quantityLine, isAmount.
      repeat split; try discriminate; try reflexivity. right. reflexivity.
    + reflexivity.
    + reflexivity.
  - apply (H2 (lit "2 Milk $3.50") []
             (RMatch 0 (lit "2 Milk $3.50")
                [(3%nat, lit "3.50"); (2%nat, lit "Milk"); (1%nat, lit "2")])).
    + reflexivity.
    + vm_compute. reflexivity.
Defined.

(** C9 fails on two kinds of lines of that form: one that carries a word
    of [isNonItemLine] yields no item at all, and one whose quantity is
    followed by a carriage return is not matched by the name-and-price
    pattern, so that the quantity-name-price pattern reads it. *)
Lemma quantity_lines_read_otherwise :
  extractLineItem (lit "2 Total $3.50") [] = None
  /\ search false namePrice (lit "2" ++ [13%N] ++ lit "Milk $3.50") = None
  /\ extractLineItem (lit "2" ++ [13%N] ++ lit "Milk $3.50") []
     = Some (Item (lit "Milk") 3.5%float 2%float None).
Proof. repeat split; reflexivity. Qed.

End ItemShapes.

(* ===================================================================== *)
(** * Subtotal lines and the total (C10) *)
(* ===================================================================== *)

Section SubtotalLines.
Import Receipt Num.

(** The first patterns of [extractSubtotal] and of [extractTotal]. *)
Definition subtotalPattern : regex := labelled (word "subtotal").
Definition totalPattern : regex := labelled (word "total").

(** Matching 'subtotal...' at an index is matching 's', 'u', 'b' there and
    'total...' three characters further. *)
Lemma subtotal_is_sub_total (i : nat) (s : jsstring)
    (cs : list (nat * jsstring)) (k : cont) :
  exec true subtotalPattern (MState i s cs) k
  = match s with
    | c0 :: c1 :: c2 :: s' =>
        if atom_test true (OneOf [Ch "s"]) c0 && atom_test true (OneOf [Ch "u"]) c1
           && atom_test true (OneOf [Ch "b"]) c2
        then exec true totalPattern (MState (S (S (S i))) s' cs) k
        else None
    | _ => None
    end.
Proof.
  unfold subtotalPattern, totalPattern, labelled, word.
  cbn [seq list_ascii_of_string fold_right]. unfold chr.
  destruct s as [|c0 [|c1 [|c2 s']]]; cbn [exec rest pos caps].
  - reflexivity.
  - destruct (atom_test true (OneOf [Ch "s"]) c0); reflexivity.
  - destruct (atom_test true (OneOf [Ch "s"]) c0); [|reflexivity].
    destruct (atom_test true (OneOf [Ch "u"]) c1); reflexivity.
  - destruct (atom_test true (OneOf [Ch "s"]) c0); [|reflexivity].
    destruct (atom_test true (OneOf [Ch "u"]) c1); [|reflexivity].
    destruct (atom_test true (OneOf [Ch "b"]) c2); reflexivity.
Qed.

Lemma subtotal_match_shift (i : nat) (s : jsstring) (m : rmatch) :
  exec_at true subtotalPattern i s = Some m ->
  exists c0 c1 c2 s' m',
    s = c0 :: c1 :: c2 :: s'
    /\ exec_at true totalPattern (3 + i) s' = Some m'
    /\ groups m' = groups m.
Proof.
  unfold exec_at. rewrite subtotal_is_sub_total.
  destruct s as [|c0 [|c1 [|c2 s']]]; try discriminate.
  destruct (atom_test true (OneOf [Ch "s"]) c0 && atom_test true (OneOf [Ch "u"]) c1
            && atom_test true (OneOf [Ch "b"]) c2); [|discriminate].
  cbn [Nat.add].
  destruct (exec true totalPattern (MState (S (S (S i))) s' []) (fun st => Some st))
    as [st|] eqn:He; [|discriminate].
  intros H. injection H as <-.
  exists c0, c1, c2, s'. eexists. split; [reflexivity|].
  split; [cbn [Nat.add]; rewrite He; reflexivity|reflexivity].
Qed.

Lemma skipn_cons_3 {A} (k : nat) (l : list A) (a b c : A) (l' : list A) :
  skipn k l = a :: b :: c :: l' ->
  skipn (3 + k) l = l' /\ (3 + k <= length l)%nat.
Proof.
  revert l. induction k as [|k IH]; intros l H.
  - simpl in H. subst l. simpl. split; [reflexivity|lia].
  - destruct l as [|x l]; [discriminate|]. simpl in H. apply IH in H.
    destruct H as [H1 H2]. split.
    + replace (3 + S k)%nat with (S (3 + k)) by lia. exact H1.
    + simpl. simpl in H2. lia.
Qed.

(** When no match of 'total...' starts before it, the 'total' inside the
    matched 'subtotal' is where [extractTotal] finds its amount. *)
Lemma subtotal_found_as_total (line : jsstring) (m : rmatch) :
  search true subtotalPattern line = Some m ->
  (forall j, (j < index m + 3)%nat ->
     exec_at true totalPattern j (skipn j line) = None) ->
  exists m', search true totalPattern line = Some m' /\ groups m' = groups m.
Proof.
  intros H Hfirst. apply (search_from_spec true) in H.
  destruct H as (k & Hk & H & _).
  pose proof (exec_at_index true _ _ _ _ H) as Hi. simpl in Hi, H.
  apply subtotal_match_shift in H.
  destruct H as (c0 & c1 & c2 & s' & m' & Hs & Hm' & Hg).
  apply skipn_cons_3 in Hs. destruct Hs as [Hs Hlen].
  exists m'. split; [|exact Hg].
  apply (search_from_spec true). exists (3 + k)%nat.
  split; [exact Hlen|]. split.
  - change (0 + (3 + k))%nat with (3 + k)%nat. rewrite Hs. exact Hm'.
  - intros j Hj. change (0 + j)%nat with j. apply Hfirst. lia.
Qed.

(** A line that matches 'total...' somewhere holds the word 'total'. *)
Lemma total_match_has_word (line : jsstring) (m : rmatch) :
  search true totalPattern line = Some m -> isMoreLikelyTotal line = true.
Proof.
  intros H. apply (search_from_spec true) in H.
  destruct H as (k & Hk & H & _). unfold exec_at in H.
  destruct (exec true totalPattern (MState (0 + k) (skipn k line) [])
              (fun st => Some st)) as [res|] eqn:He; [|discriminate].
  apply exec_sound in He. unfold totalPattern, labelled in He.
  cbn [seq matches] in He. destruct He as (mid & Hword & _).
  apply (exec_complete true) in Hword. destruct Hword as [res' Hres'].
  destruct (search_from_finds true (word "total") line 0 k
              (RMatch (0 + k) (firstn (pos res' - (0 + k)) (skipn k line))
                 (caps res')) Hk) as [m' Hm'].
  { unfold exec_at. rewrite Hres'. reflexivity. }
  unfold isMoreLikelyTotal, strongTotalIndicators. cbn [existsb].
  unfold test, search. rewrite Hm'. reflexivity.
Qed.

(** C10, as amended: on a line in which 'subtotal' is followed by an
    amount a with 0 < a < 10000, and in which no 'total' followed by an
    amount starts before the 'total' of that 'subtotal', [extractSubtotal]
    and [extractTotal] both return a and the line carries a strong total
    indicator; the loop body therefore sets subtotal and total to a,
    whatever total was held before. *)
Theorem subtotal_line_sets_total (line : jsstring) (m : rmatch) :
  search true subtotalPattern line = Some m ->
  gt (parseFloat (grp m 1)) 0%float = true ->
  lt (parseFloat (grp m 1)) 10000%float = true ->
  (forall j, (j < index m + 3)%nat ->
     exec_at true totalPattern j (skipn j line) = None) ->
  extractSubtotal line = Some (parseFloat (grp m 1))
  /\ extractTotal line = Some (parseFloat (grp m 1))
  /\ isMoreLikelyTotal line = true
  /\ forall extractDate i nextLine r r',
       processLine extractDate i line nextLine r = Ok r' ->
       total r' = Some (parseFloat (grp m 1))
       /\ subtotal r' = Some (parseFloat (grp m 1)).
Proof.
  intros Hsub Hpos Hmax Hfirst.
  destruct (subtotal_found_as_total line m Hsub Hfirst) as (m' & Hm' & Hg).
  assert (Hamount : grp m' 1 = grp m 1) by (unfold grp, group; rewrite Hg; reflexivity).
  assert (Hs : extractSubtotal line = Some (parseFloat (grp m 1))).
  { unfold extractSubtotal, subtotalPatterns. cbn [firstAmount].
    fold subtotalPattern. rewrite Hsub. reflexivity. }
  assert (Ht : extractTotal line = Some (parseFloat (grp m 1))).
  { unfold extractTotal, totalPatterns. cbn [extractTotalFrom].
    fold totalPattern. rewrite Hm', Hamount, Hpos, Hmax. reflexivity. }
  assert (Hi : isMoreLikelyTotal line = true)
    by (apply (total_match_has_word line m'), Hm').
  split; [exact Hs|]. split; [exact Ht|]. split; [exact Hi|].
  intros extractDate i nextLine r r' H. unfold processLine in H.
  destruct (extractDate line) as [dateMatch|e]; [|discriminate].
  cbn [js_bind] in H. injection H as <-. cbn [total subtotal].
  rewrite Ht, Hs, Hi. cbn [truthyN]. rewrite (gt_zero_truthy _ Hpos).
  rewrite orb_true_r. split; reflexivity.
Qed.

Lemma subtotal_line_sets_total_witness :
  extractSubtotal (lit "Subtotal: $8.00") = Some 8%float
  /\ extractTotal (lit "Subtotal: $8.00") = Some 8%float
  /\ isMoreLikelyTotal (lit "Subtotal: $8.00") = true.
Proof.
  destruct (search true subtotalPattern (lit "Subtotal: $8.00")) as [m|] eqn:Hm;
    [|vm_compute in Hm; discriminate].
  assert (Hm0 : m = RMatch 0 (lit "Subtotal: $8.00") [(1%nat, lit "8.00")])
    by (vm_compute in Hm; injection Hm as <-; reflexivity).
  pose proof (subtotal_line_sets_total (lit "Subtotal: $8.00") m Hm) as H.
  rewrite Hm0 in H.
  destruct H as (H1 & H2 & H3 & _).
  - reflexivity.
  - reflexivity.
  - intros j Hj. cbn [index] in Hj.
    destruct j as [|[|[|j]]]; [reflexivity|reflexivity|reflexivity|lia].
  - repeat split; assumption.
Defined.

(** C10 fails when a 'total' followed by an amount comes first: the line
    sets subtotal to 8.00 and total to 5.00; and when that earlier amount
    is 0.00, the line sets no total at all. *)
Lemma earlier_total_wins :
  extractSubtotal (lit "Total $5.00 Subtotal $8.00") = Some 8%float
  /\ extractTotal (lit "Total $5.00 Subtotal $8.00") = Some 5%float
  /\ extractSubtotal (lit "Total $0.00 Subtotal $8.00") = Some 8%float
  /\ extractTotal (lit "Total $0.00 Subtotal $8.00") = None.
Proof. repeat split; reflexivity. Qed.

End SubtotalLines.

(* ===================================================================== *)
(** * Numeric full-year dates (C1) *)
(* ===================================================================== *)

Section NumericDates.
Import DateParser.
#[local] Open Scope Z_scope.

(** What each pattern of the table finds in a text. *)
Definition matchTable (E : env) (text : jsstring) : list (list rmatch) :=
  map (fun p => matchAll (icase p) (pattern p) text) (datePatterns E).

(** The text holds one numeric full-year date, match [m] of the US and of
    the European pattern, and nothing any other pattern matches. *)
Definition onlyNumericFullYear (E : env) (text : jsstring) (m : rmatch) : Prop :=
  matchTable E text = [[m]; [m]; []; []; []; []; []; []; []; []; []].

(** The month-first reading of the match, when [parseUSDate] accepts it
    and it passes [isValidDate]; likewise the day-first reading. *)
Definition monthFirst (E : env) (m : rmatch) : option Z :=
  match parseUSDate E (grp m 1) (grp m 2) (grp m 3) with
  | Ok d => if isValidDate E d then d else None
  | Throw _ => None
  end.

Definition dayFirst (E : env) (m : rmatch) : option Z :=
  match parseEuropeanDate E (grp m 1) (grp m 2) (grp m 3) with
  | Ok d => if isValidDate E d then d else None
  | Throw _ => None
  end.

Lemma candidate_us (E : env) (text : jsstring) (m : rmatch) :
  candidate E text (usFull E) m
  = match monthFirst E m with
    | Some t => [Found t (calculateDateConfidence (matched m) US_FULL text)
                   US_FULL (matched m) (index m)]
    | None => []
    end.
Proof.
  unfold candidate, monthFirst, try_catch, js_bind. cbn [parser usFull type].
  destruct (parseUSDate E (grp m 1) (grp m 2) (grp m 3)) as [d|e]; [|reflexivity].
  destruct (isValidDate E d) eqn:Hv; [|reflexivity].
  destruct d; reflexivity.
Qed.

Lemma candidate_eu (E : env) (text : jsstring) (m : rmatch) :
  candidate E text (euFull E) m
  = match dayFirst E m with
    | Some t => [Found t (calculateDateConfidence (matched m) EU_FULL text)
                   EU_FULL (matched m) (index m)]
    | None => []
    end.
Proof.
  unfold candidate, dayFirst, try_catch, js_bind. cbn [parser euFull type].
  destruct (parseEuropeanDate E (grp m 1) (grp m 2) (grp m 3)) as [d|e];
    [|reflexivity].
  destruct (isValidDate E d) eqn:Hv; [|reflexivity].
  destruct d; reflexivity.
Qed.

(** The two full-year patterns score alike. *)
Lemma us_eu_same_confidence (s text : jsstring) :
  calculateDateConfidence s US_FULL text = calculateDateConfidence s EU_FULL text.
Proof. reflexivity. Qed.

Lemma flat_map_table {A B C} (f : A -> list B) (g : A -> B -> list C)
    (T : list A) :
  flat_map (fun p => flat_map (g p) (f p)) T
  = concat (map (fun pl => flat_map (g (fst pl)) (snd pl)) (combine T (map f T))).
Proof.
  induction T as [|p T IH]; [reflexivity|]. simpl. rewrite IH. reflexivity.
Qed.

Lemma foundDates_numeric (E : env) (text : jsstring) (m : rmatch) :
  onlyNumericFullYear E text m ->
  foundDates E text = candidate E text (usFull E) m ++ candidate E text (euFull E) m.
Proof.
  unfold onlyNumericFullYear, matchTable, foundDates. intros H.
  rewrite (flat_map_table (fun p => matchAll (icase p) (pattern p) text)
             (candidate E text) (datePatterns E)).
  rewrite H. unfold datePatterns.
  cbn [combine map concat flat_map fst snd app]. rewrite !app_nil_r. reflexivity.
Qed.


(** East of Greenwich the local midnight of a reading falls on the
    previous UTC day: with the clock five and a half hours ahead,
    25/12/2023 is returned as 24 December. *)
Example east_of_utc_shifts_date :
  extractDateFromText (Env (utc 2024 6 1) (fun _ _ => 19800000) (fun _ => None))
    (lit "25/12/2023")
  = Ok (Some (lit "2023-12-24")).
Proof. vm_compute. reflexivity. Qed.

End NumericDates.

(* ===================================================================== *)
(** * The matcher looks at characters through the atoms only *)
(* ===================================================================== *)

(** Two texts whose characters the atoms of a pattern cannot tell apart
    are matched alike: same indices, same lengths, captures in the same
    places. *)
Section Blind.
Variable ic : bool.
Variable R : char -> char -> Prop.

Definition atom_blind (a : atom) : Prop :=
  forall c c', R c c' -> atom_test ic a c = atom_test ic a c'.

Fixpoint regex_blind (r : regex) : Prop :=
  match r with
  | Eps | Bol | Eol => True
  | Atom a | Rep _ _ _ a => atom_blind a
  | Seq r1 r2 | Alt r1 r2 => regex_blind r1 /\ regex_blind r2
  | Grp _ r1 | Opt r1 | NotAhead r1 => regex_blind r1
  end.

Definition capR (x y : nat * jsstring) : Prop :=
  fst x = fst y /\ Forall2 R (snd x) (snd y).

Definition stateR (s s' : mstate) : Prop :=
  pos s = pos s' /\ Forall2 R (rest s) (rest s') /\ Forall2 capR (caps s) (caps s').

Definition optR {A} (P : A -> A -> Prop) (o o' : option A) : Prop :=
  match o, o' with
  | Some a, Some b => P a b
  | None, None => True
  | _, _ => False
  end.

Definition contR (k k' : cont) : Prop :=
  forall s s', stateR s s' -> optR stateR (k s) (k' s').

(** The two moves of a quantified atom, and the preference between two
    alternatives, as functions. *)
Definition rep_more (t : char -> bool) (greedy : bool) (mn : nat)
    (mx : option nat) (p : nat) (l : jsstring) (cs : list (nat * jsstring))
    (k : cont) : option mstate :=
  match mx, l with
  | Some O, _ => None
  | _, c :: tl =>
      if t c then rep t greedy (Nat.pred mn) (option_map Nat.pred mx) (S p) tl cs k
      else None
  | _, [] => None
  end.

Definition rep_stop (mn p : nat) (l : jsstring) (cs : list (nat * jsstring))
    (k : cont) : option mstate :=
  match mn with O => k (MState p l cs) | S _ => None end.

Definition orElse {A} (a b : option A) : option A :=
  match a with Some x => Some x | None => b end.

Lemma rep_moves (t : char -> bool) (greedy : bool) (mn : nat) (mx : option nat)
    (p : nat) (l : jsstring) (cs : list (nat * jsstring)) (k : cont) :
  rep t greedy mn mx p l cs k
  = if greedy
    then orElse (rep_more t greedy mn mx p l cs k) (rep_stop mn p l cs k)
    else orElse (rep_stop mn p l cs k) (rep_more t greedy mn mx p l cs k).
Proof. destruct l; reflexivity. Qed.

Lemma optR_orElse {A} (P : A -> A -> Prop) (a a' b b' : option A) :
  optR P a a' -> optR P b b' -> optR P (orElse a b) (orElse a' b').
Proof. destruct a, a'; simpl; intros Ha Hb; auto; contradiction. Qed.

Lemma rep_blind (t t' : char -> bool) (greedy : bool) (l l' : jsstring) :
  (forall c c', R c c' -> t c = t' c') ->
  Forall2 R l l' ->
  forall mn mx p cs cs' k k',
  Forall2 capR cs cs' -> contR k k' ->
  optR stateR (rep t greedy mn mx p l cs k) (rep t' greedy mn mx p l' cs' k').
Proof.
  intros Ht Hl. induction Hl as [|c c' l l' Hc Hl IH];
    intros mn mx p cs cs' k k' Hcs Hk; rewrite !rep_moves.
  - assert (Hstop : optR stateR (rep_stop mn p [] cs k) (rep_stop mn p [] cs' k')).
    { unfold rep_stop. destruct mn; [|exact I]. apply Hk. repeat split; auto. }
    assert (Hmore : optR stateR (rep_more t greedy mn mx p [] cs k)
                      (rep_more t' greedy mn mx p [] cs' k')).
    { unfold rep_more. destruct mx as [[|m]|]; exact I. }
    destruct greedy; apply optR_orElse; assumption.
  - assert (Hstop : optR stateR (rep_stop mn p (c :: l) cs k)
                      (rep_stop mn p (c' :: l') cs' k')).
    { unfold rep_stop. destruct mn; [|exact I]. apply Hk.
      split; [reflexivity|]. split; [constructor; assumption|assumption]. }
    assert (Hmore : optR stateR (rep_more t greedy mn mx p (c :: l) cs k)
                      (rep_more t' greedy mn mx p (c' :: l') cs' k')).
    { unfold rep_more. rewrite (Ht c c' Hc).
      destruct mx as [[|m]|]; [exact I| |]; destruct (t' c'); try exact I;
        apply IH; assumption. }
    destruct greedy; apply optR_orElse; assumption.
Qed.

Lemma Forall2_firstn {A} (P : A -> A -> Prop) (n : nat) (l l' : list A) :
  Forall2 P l l' -> Forall2 P (firstn n l) (firstn n l').
Proof.
  intros H. revert n. induction H as [|a b l l' Hab Hl IH]; intros [|n]; simpl;
    constructor; auto.
Qed.

Lemma Forall2_same_length {A} (P : A -> A -> Prop) (l l' : list A) :
  Forall2 P l l' -> length l = length l'.
Proof. induction 1; simpl; congruence. Qed.

Lemma exec_blind (r : regex) :
  regex_blind r ->
  forall s s' k k',
  stateR s s' -> contR k k' -> optR stateR (exec ic r s k) (exec ic r s' k').
Proof.
  induction r as [|a|r1 IH1 r2 IH2|r1 IH1 r2 IH2|n r1 IH1|g mn mx a|r1 IH1| | |r1 IH1];
    simpl; intros Hb s s' k k' Hs Hk.
  - apply Hk, Hs.
  - destruct Hs as (Hp & Hr & Hc). destruct Hr as [|c c' l l' Hcc Hl]; [exact I|].
    rewrite (Hb c c' Hcc). destruct (atom_test ic a c'); [|exact I].
    apply Hk. split; [simpl; congruence|]. split; assumption.
  - destruct Hb as [Hb1 Hb2]. apply IH1; auto.
    intros m m' Hm. apply IH2; auto.
  - destruct Hb as [Hb1 Hb2].
    apply (optR_orElse stateR (exec ic r1 s k) (exec ic r1 s' k')
             (exec ic r2 s k) (exec ic r2 s' k')); [apply IH1|apply IH2]; auto.
  - apply IH1; auto. intros m m' Hm. apply Hk.
    destruct Hs as (Hp & Hr & Hc). destruct Hm as (Hp' & Hr' & Hc').
    repeat split; simpl; auto. constructor; [|exact Hc'].
    split; simpl; [reflexivity|]. rewrite Hp, Hp'. apply Forall2_firstn, Hr.
  - destruct Hs as (Hp & Hr & Hc). rewrite Hp. apply rep_blind; auto.
  - apply (optR_orElse stateR (exec ic r1 s k) (exec ic r1 s' k') (k s) (k' s'));
      [apply IH1; auto|apply Hk, Hs].
  - pose proof Hs as (Hp & Hr & Hc). rewrite <- Hp.
    destruct (pos s); [|exact I]. apply Hk, Hs.
  - pose proof Hs as (Hp & Hr & Hc).
    destruct (rest s), (rest s'); inversion Hr; [apply Hk, Hs|exact I].
  - assert (H : optR stateR (exec ic r1 s (fun x => Some x))
                  (exec ic r1 s' (fun x => Some x))).
    { apply IH1; auto. intros m m' Hm. exact Hm. }
    destruct (exec ic r1 s (fun x => Some x)), (exec ic r1 s' (fun x => Some x));
      simpl in H; try contradiction; [exact I|apply Hk, Hs].
Qed.

Definition rmatchR (m m' : rmatch) : Prop :=
  index m = index m' /\ Forall2 R (matched m) (matched m')
  /\ Forall2 capR (groups m) (groups m').

Lemma exec_at_blind (r : regex) (i : nat) (s s' : jsstring) :
  regex_blind r -> Forall2 R s s' ->
  optR rmatchR (exec_at ic r i s) (exec_at ic r i s').
Proof.
  intros Hb Hs. unfold exec_at.
  assert (H : optR stateR (exec ic r (MState i s []) (fun st => Some st))
                (exec ic r (MState i s' []) (fun st => Some st))).
  { apply exec_blind; auto.
    - repeat split; auto.
    - intros m m' Hm. exact Hm. }
  destruct (exec ic r (MState i s []) (fun st => Some st)) as [st|],
           (exec ic r (MState i s' []) (fun st => Some st)) as [st'|];
    simpl in H; try contradiction; [|exact I].
  destruct H as (Hp & Hr & Hc). repeat split; simpl; auto.
  rewrite Hp. apply Forall2_firstn, Hs.
Qed.

Lemma exec_all_blind (r : regex) (s s' : jsstring) :
  regex_blind r -> Forall2 R s s' ->
  forall i skip,
  Forall2 rmatchR (exec_all ic r i skip s) (exec_all ic r i skip s').
Proof.
  intros Hb Hs. induction Hs as [|c c' s s' Hc Hs IH]; intros i skip.
  - destruct skip; simpl; [|constructor].
    pose proof (exec_at_blind r i [] [] Hb (Forall2_nil R)) as H.
    destruct (exec_at ic r i []) as [m|]; simpl in H;
      [constructor; [exact H|constructor]|constructor].
  - destruct skip as [|n]; simpl; [|apply IH].
    pose proof (exec_at_blind r i (c :: s) (c' :: s') Hb
                  (Forall2_cons c c' Hc Hs)) as H.
    destruct (exec_at ic r i (c :: s)) as [m|],
             (exec_at ic r i (c' :: s')) as [m'|]; simpl in H;
      try contradiction; [|apply IH].
    constructor; [exact H|].
    destruct H as (_ & Hm & _).
    rewrite (Forall2_same_length R _ _ Hm). apply IH.
Qed.

End Blind.

(* ===================================================================== *)
(** * Bare numeric dates *)
(* ===================================================================== *)

Section BareDates.
Import DateParser.

Definition digitChars : list char := [48; 49; 50; 51; 52; 53; 54; 55; 56; 57]%N.

Lemma digit_cases (c : char) : isDigit c = true -> In c digitChars.
Proof.
  unfold isDigit, between. intros H. apply andb_true_iff in H.
  destruct H as [H1 H2]. apply N.leb_le in H1. apply N.leb_le in H2.
  assert (H : (c = 48 \/ c = 49 \/ c = 50 \/ c = 51 \/ c = 52 \/ c = 53
               \/ c = 54 \/ c = 55 \/ c = 56 \/ c = 57)%N) by lia.
  unfold digitChars. simpl. intuition.
Qed.

(** An atom that treats all digits alike, checked digit by digit. *)
Definition atom_digit_blind (ic : bool) (a : atom) : bool :=
  forallb (fun x => Bool.eqb (atom_test ic a x) (atom_test ic a 48%N)) digitChars.

Fixpoint regex_digit_blind (ic : bool) (r : regex) : bool :=
  match r with
  | Eps | Bol | Eol => true
  | Atom a | Rep _ _ _ a => atom_digit_blind ic a
  | Seq r1 r2 | Alt r1 r2 => regex_digit_blind ic r1 && regex_digit_blind ic r2
  | Grp _ r1 | Opt r1 | NotAhead r1 => regex_digit_blind ic r1
  end.

(** A relation that pairs a character with itself or a digit with a
    digit. *)
Definition digitwise (R : char -> char -> Prop) : Prop :=
  forall c c', R c c' -> c = c' \/ (isDigit c = true /\ isDigit c' = true).

Lemma atom_digit_blind_sound (ic : bool) (R : char -> char -> Prop) (a : atom) :
  digitwise R -> atom_digit_blind ic a = true -> atom_blind ic R a.
Proof.
  intros HR Ha c c' Hc. destruct (HR c c' Hc) as [->|[Hd Hd']]; [reflexivity|].
  unfold atom_digit_blind in Ha. rewrite forallb_forall in Ha.
  pose proof (Ha c (digit_cases c Hd)) as H1.
  pose proof (Ha c' (digit_cases c' Hd')) as H2.
  apply Bool.eqb_prop in H1. apply Bool.eqb_prop in H2. congruence.
Qed.

Lemma regex_digit_blind_sound (ic : bool) (R : char -> char -> Prop) (r : regex) :
  digitwise R -> regex_digit_blind ic r = true -> regex_blind ic R r.
Proof.
  intros HR. induction r; simpl; intros H; auto;
    try (apply atom_digit_blind_sound; assumption);
    apply andb_true_iff in H; destruct H; split; auto.
Qed.

(** No pattern of the table tells one digit from another. *)
Lemma table_digit_blind (E : env) :
  forallb (fun p => regex_digit_blind (icase p) (pattern p)) (datePatterns E) = true.
Proof. vm_compute. reflexivity. Qed.

Lemma matchTable_blind (E : env) (R : char -> char -> Prop) (T T0 : jsstring) :
  digitwise R -> Forall2 R T T0 ->
  Forall2 (Forall2 (rmatchR R)) (matchTable E T) (matchTable E T0).
Proof.
  intros HR HT. unfold matchTable. pose proof (table_digit_blind E) as Hb.
  induction (datePatterns E) as [|p ps IH]; simpl; [constructor|].
  simpl in Hb. apply andb_true_iff in Hb. destruct Hb as [Hp Hps].
  constructor; [|apply IH, Hps]. unfold matchAll.
  apply exec_all_blind; [|exact HT].
  apply regex_digit_blind_sound; assumption.
Qed.

(** Each position of a text paired with the same position of another. *)
Definition paired (T T0 : jsstring) (c c0 : char) : Prop := In (c, c0) (combine T T0).

Lemma paired_texts (T T0 : jsstring) :
  length T = length T0 -> Forall2 (paired T T0) T T0.
Proof.
  revert T0. induction T as [|c T IH]; intros [|c0 T0] H; try discriminate;
    constructor.
  - left. reflexivity.
  - simpl in H. injection H as H. apply IH in H.
    eapply Forall2_impl; [|exact H]. intros a b Hab. right. exact Hab.
Qed.

End BareDates.

(* ===================================================================== *)
(** * Further properties of the parsers *)
(* ===================================================================== *)

(** ** The total of a receipt *)

Section Words.
Import Receipt Num.

Definition spells (ic : bool) (w : list ascii) (u : jsstring) : Prop :=
  Forall2 (fun a c => atom_test ic (OneOf [Ch a]) c = true) w u.

Lemma letters_match (ic : bool) (w : list ascii) :
  forall st st',
  matches ic (fold_right (fun a r => Seq (chr a) r) Eps w) st st' ->
  exists u, spells ic w u /\ rest st = u ++ rest st'.
Proof.
  induction w as [|a w IH]; intros st st' H; cbn [fold_right matches] in H.
  - subst st'. exists []. split; [constructor|reflexivity].
  - destruct H as (mid & Ha & Hw). unfold chr in Ha. cbn [matches] in Ha.
    destruct Ha as (c & tl & Hrest & Hc & ->).
    apply IH in Hw. destruct Hw as (u & Hu & Hr). cbn [rest] in Hr.
    exists (c :: u). split; [constructor; assumption|].
    rewrite Hrest, Hr. reflexivity.
Qed.

Lemma letters_found (ic : bool) (w : list ascii) :
  forall u p tl cs,
  spells ic w u ->
  matches ic (fold_right (fun a r => Seq (chr a) r) Eps w)
    (MState p (u ++ tl) cs) (MState (p + length u) tl cs).
Proof.
  induction w as [|a w IH]; intros u p tl cs H; inversion H; subst;
    cbn [fold_right matches app length].
  - rewrite Nat.add_0_r. reflexivity.
  - exists (MState (S p) (l' ++ tl) cs). split.
    + unfold chr. cbn [matches rest pos caps]. eauto.
    + replace (p + S (length l'))%nat with (S p + length l')%nat by lia.
      apply IH. assumption.
Qed.

(** A text in which a word is spelled somewhere passes the test of that
    word. *)
Lemma word_test (ic : bool) (w : string) (pre u post : jsstring) :
  spells ic (list_ascii_of_string w) u ->
  test ic (word w) (pre ++ u ++ post) = true.
Proof.
  intros H.
  pose proof (letters_found ic _ u (0 + length pre) post [] H) as Hm.
  apply (exec_complete ic) in Hm. destruct Hm as [res Hres].
  destruct (search_from_finds ic (word w) (pre ++ u ++ post) 0 (length pre)
              (RMatch (0 + length pre)
                 (firstn (pos res - (0 + length pre)) (u ++ post)) (caps res)))
    as [m Hm].
  - rewrite length_app. lia.
  - unfold exec_at. rewrite skipn_app, Nat.sub_diag, skipn_all. cbn [app skipn].
    unfold word. rewrite Hres. reflexivity.
  - unfold test, search. rewrite Hm. reflexivity.
Qed.

Lemma skipn_split {A} (k : nat) (l : list A) : l = firstn k l ++ skipn k l.
Proof. symmetry. apply firstn_skipn. Qed.

(** Wherever one of the labelled amount patterns of [extractTotal] matches,
    the line spells the pattern's keyword. *)
Lemma labelled_word_found (w : string) (line : jsstring) (m : rmatch) :
  search true (labelled (word w)) line = Some m ->
  test true (word w) line = true.
Proof.
  intros H. apply (search_from_spec true) in H.
  destruct H as (k & Hk & H & _). unfold exec_at in H.
  destruct (exec true (labelled (word w)) (MState (0 + k) (skipn k line) [])
              (fun st => Some st)) as [res|] eqn:He; [|discriminate].
  apply exec_sound in He. unfold labelled in He.
  cbn [seq matches] in He. destruct He as (mid & Hword & _).
  apply letters_match in Hword. destruct Hword as (u & Hu & Hr).
  cbn [rest] in Hr. rewrite (skipn_split k line), Hr.
  apply word_test. exact Hu.
Qed.

Lemma grand_total_word_found (line : jsstring) (m : rmatch) :
  search true (labelled (seq [word "grand"; plus space; word "total"])) line = Some m ->
  test true (word "total") line = true.
Proof.
  intros H. apply (search_from_spec true) in H.
  destruct H as (k & Hk & H & _). unfold exec_at in H.
  match type of H with
  | match ?e with _ => _ end = _ => destruct e as [res|] eqn:He; [|discriminate]
  end.
  apply exec_sound in He. unfold labelled in He.
  cbn [seq] in He.
  destruct He as (mid & Hkw & _).
  destruct Hkw as (m1 & Hgrand & m2 & Hsp & Htotal).
  apply letters_match in Hgrand. destruct Hgrand as (u1 & _ & Hr1).
  cbn [matches] in Hsp. destruct Hsp as (wsp & tl & Hr2 & _ & _ & _ & ->).
  apply letters_match in Htotal. destruct Htotal as (u & Hu & Hr3).
  cbn [rest] in Hr1, Hr3.
  rewrite (skipn_split k line), Hr1, Hr2, Hr3.
  replace (firstn k line ++ u1 ++ wsp ++ u ++ rest mid)
    with ((firstn k line ++ u1 ++ wsp) ++ u ++ rest mid)
    by (rewrite <- !app_assoc; reflexivity).
  apply word_test. exact Hu.
Qed.

Lemma extractTotalFrom_found (patterns : list regex) (line : jsstring) (a : number) :
  extractTotalFrom patterns line = Some a ->
  gt a 0%float = true /\ lt a 10000%float = true
  /\ exists pattern m, In pattern patterns /\ search true pattern line = Some m.
Proof.
  induction patterns as [|p tl IH]; [discriminate|]. cbn [extractTotalFrom].
  destruct (search true p line) as [m|] eqn:Hm.
  - destruct (gt (parseFloat (grp m 1)) 0%float && lt (parseFloat (grp m 1)) 10000%float) eqn:Hr.
    + intros H. injection H as <-. apply andb_true_iff in Hr.
      split; [apply Hr|]. split; [apply Hr|]. exists p, m. split; [left; reflexivity|exact Hm].
    + intros H. apply IH in H. destruct H as (H1 & H2 & q & m' & Hq & Hm').
      split; [exact H1|]. split; [exact H2|]. exists q, m'. split; [right; exact Hq|exact Hm'].
  - intros H. apply IH in H. destruct H as (H1 & H2 & q & m' & Hq & Hm').
    split; [exact H1|]. split; [exact H2|]. exists q, m'. split; [right; exact Hq|exact Hm'].
Qed.

Lemma total_has_indicator (line : jsstring) (a : number) :
  extractTotal line = Some a -> isMoreLikelyTotal line = true.
Proof.
  intros H. apply extractTotalFrom_found in H.
  destruct H as (_ & _ & p & m & Hp & Hm).
  unfold isMoreLikelyTotal, strongTotalIndicators. cbn [existsb].
  unfold totalPatterns in Hp. cbn [In] in Hp.
  destruct Hp as [<-|[<-|[<-|[<-|[<-|[]]]]]].
  - rewrite (labelled_word_found _ _ _ Hm). reflexivity.
  - rewrite (labelled_word_found _ _ _ Hm). apply orb_true_r.
  - rewrite (labelled_word_found _ _ _ Hm). rewrite !orb_true_r. reflexivity.
  - rewrite (grand_total_word_found _ _ Hm). reflexivity.
  - rewrite (labelled_word_found _ _ _ Hm). rewrite !orb_true_r. reflexivity.
Qed.

End Words.

Section Loop.
Import Receipt Num.
Variable extractDate : jsstring -> js (option jsstring).

(** The total the loop holds after a list of lines: the amount of the last
    line [extractTotal] reads one from. *)
Definition lastTotal (lines : list jsstring) (t : option number) : option number :=
  fold_left
    (fun t line => match extractTotal line with Some a => Some a | None => t end)
    lines t.

Lemma processLine_total (i : nat) (line nextLine : jsstring) (r r' : ParsedReceipt) :
  processLine extractDate i line nextLine r = Ok r' ->
  total r' = match extractTotal line with Some a => Some a | None => total r end.
Proof.
  unfold processLine. destruct (extractDate line) as [dateMatch|e]; [|discriminate].
  cbn [js_bind]. intros H. injection H as <-. cbn [total].
  destruct (extractTotal line) as [a|] eqn:Ht; [|reflexivity].
  rewrite (total_has_indicator _ _ Ht), orb_true_r.
  apply extractTotalFrom_found in Ht. destruct Ht as (Hpos & _).
  cbn [truthyN]. rewrite (gt_zero_truthy _ Hpos). reflexivity.
Qed.

(** X1: after the loop over the lines, the total is the amount of the
    last line [extractTotal] reads one from, or the total held before when
    there is no such line: a line with such an amount always carries a
    strong total indicator, so the guard of the assignment never keeps an
    earlier total.  Every amount read is above 0 and below 10000. *)
Theorem last_total_wins (lines : list jsstring) :
  forall (i : nat) (r r' : ParsedReceipt),
  processLines extractDate i lines r = Ok r' ->
  total r' = lastTotal lines (total r)
  /\ (forall line a, extractTotal line = Some a ->
        isMoreLikelyTotal line = true
        /\ gt a 0%float = true /\ lt a 10000%float = true).
Proof.
  intros i r r' H. split.
  - revert i r H. induction lines as [|line tl IH]; intros i r H.
    + injection H as <-. reflexivity.
    + cbn [processLines] in H.
      destruct (processLine extractDate i line (hd [] tl) r) as [r1|e] eqn:H1;
        [|discriminate].
      cbn [js_bind] in H. apply IH in H. rewrite H.
      unfold lastTotal. cbn [fold_left].
      rewrite (processLine_total _ _ _ _ _ H1). reflexivity.
  - intros line a Ht. split; [exact (total_has_indicator _ _ Ht)|].
    apply extractTotalFrom_found in Ht. split; apply Ht.
Qed.

End Loop.

Section LoopExamples.
Import Receipt Num.

Lemma last_total_wins_witness :
  exists r',
    processLines (fun _ => Ok None) 0 [lit "Total $5.00"; lit "Balance $7.00"]
      (emptyResult []) = Ok r'
    /\ total r' = lastTotal [lit "Total $5.00"; lit "Balance $7.00"]
                    (total (emptyResult [])).
Proof.
  destruct (processLines (fun _ => Ok None) 0
              [lit "Total $5.00"; lit "Balance $7.00"] (emptyResult []))
    as [r'|e] eqn:H; [|vm_compute in H; discriminate H].
  exists r'. split; [reflexivity|].
  exact (proj1 (last_total_wins (fun _ => Ok None) _ 0 (emptyResult []) r' H)).
Defined.

End LoopExamples.

(** ** What the cleaning steps delete *)

Section Consumed.
Variable ic : bool.
Variable p : char -> bool.

(** Every atom of the pattern only accepts characters satisfying [p]. *)
Fixpoint consumes_only (r : regex) : Prop :=
  match r with
  | Eps | Bol | Eol | NotAhead _ => True
  | Atom a | Rep _ _ _ a => forall c, atom_test ic a c = true -> p c = true
  | Seq r1 r2 | Alt r1 r2 => consumes_only r1 /\ consumes_only r2
  | Grp _ r1 | Opt r1 => consumes_only r1
  end.

Lemma matches_consumed (r : regex) :
  consumes_only r ->
  forall st st', matches ic r st st' ->
  exists w, rest st = w ++ rest st' /\ pos st' = (pos st + length w)%nat
            /\ forallb p w = true.
Proof.
  induction r as [|a|r1 IH1 r2 IH2|r1 IH1 r2 IH2|n r1 IH1|g mn mx a|r1 IH1| | |r1 IH1];
    cbn [consumes_only matches]; intros Hr st st' H.
  - subst st'. exists []. cbn. rewrite Nat.add_0_r. auto.
  - destruct H as (c & tl & Hrest & Hc & ->). exists [c]. cbn.
    rewrite (Hr c Hc). repeat split; [exact Hrest|lia].
  - destruct Hr as [Hr1 Hr2]. destruct H as (mid & H1 & H2).
    destruct (IH1 Hr1 _ _ H1) as (w1 & E1 & P1 & F1).
    destruct (IH2 Hr2 _ _ H2) as (w2 & E2 & P2 & F2).
    exists (w1 ++ w2). rewrite E1, E2, P2, P1, forallb_app, F1, F2, length_app.
    rewrite <- app_assoc. repeat split; lia.
  - destruct Hr as [Hr1 Hr2]. destruct H as [H|H]; [apply (IH1 Hr1 _ _ H)|apply (IH2 Hr2 _ _ H)].
  - destruct H as (mid & H1 & ->). cbn [rest pos]. apply (IH1 Hr _ _ H1).
  - destruct H as (w & tl & Hrest & Hw & _ & _ & ->). exists w. cbn [rest pos].
    repeat split; [exact Hrest|].
    clear Hrest. induction w as [|c w IHw]; [reflexivity|].
    cbn [forallb] in *. apply andb_true_iff in Hw. destruct Hw as [Hc Hw].
    rewrite (Hr c Hc), (IHw Hw). reflexivity.
  - destruct H as [H| ->]; [apply (IH1 Hr _ _ H)|].
    exists []. cbn. rewrite Nat.add_0_r. auto.
  - destruct H as [_ ->]. exists []. cbn. rewrite Nat.add_0_r. auto.
  - destruct H as [_ ->]. exists []. cbn. rewrite Nat.add_0_r. auto.
  - destruct H as [-> _]. exists []. cbn. rewrite Nat.add_0_r. auto.
Qed.

(** What a match at an index reports as matched text are characters the
    pattern consumed. *)
Lemma exec_at_consumed (r : regex) (i : nat) (s : jsstring) (m : rmatch) :
  consumes_only r -> exec_at ic r i s = Some m ->
  exists tl, s = matched m ++ tl /\ forallb p (matched m) = true.
Proof.
  intros Hr H. unfold exec_at in H.
  destruct (exec ic r (MState i s []) (fun st => Some st)) as [st|] eqn:He;
    [|discriminate].
  injection H as <-. cbn [matched]. apply exec_sound in He.
  destruct (matches_consumed r Hr _ _ He) as (w & E1 & P1 & F1).
  cbn [rest pos] in E1, P1. exists (rest st).
  rewrite P1, E1. replace (i + length w - i)%nat with (length w) by lia.
  rewrite firstn_app_exact. split; [reflexivity|exact F1].
Qed.

(** Deleting every match of such a pattern deletes only characters
    satisfying [p]. *)
Lemma delete_all_keeps (r : regex) (q : char -> bool) :
  consumes_only r -> (forall c, p c = true -> q c = false) ->
  forall s i skip,
  forallb p (firstn skip s) = true ->
  filter q (delete_all ic r i skip s) = filter q s.
Proof.
  intros Hr Hpq. induction s as [|c tl IH]; intros i skip Hskip.
  - destruct skip; cbn [delete_all]; [|reflexivity].
    destruct (exec_at ic r i []); reflexivity.
  - destruct skip as [|n]; cbn [delete_all].
    + destruct (exec_at ic r i (c :: tl)) as [m|] eqn:Hm.
      * destruct (exec_at_consumed r i _ m Hr Hm) as (tl' & Hs & Hall).
        destruct (matched m) as [|c' w] eqn:Hw; cbn [length].
        -- cbn [filter]. rewrite (IH (S i) 0%nat eq_refl). reflexivity.
        -- cbn [app] in Hs. injection Hs as <- ->.
           cbn [forallb] in Hall. apply andb_true_iff in Hall.
           destruct Hall as [Hc Hall]. cbn [filter]. rewrite (Hpq c Hc).
           apply IH. rewrite firstn_app_exact. exact Hall.
      * cbn [filter]. rewrite (IH (S i) 0%nat eq_refl). reflexivity.
    + cbn [firstn forallb] in Hskip. apply andb_true_iff in Hskip.
      destruct Hskip as [Hc Hn]. cbn [filter]. rewrite (Hpq c Hc).
      apply IH. exact Hn.
Qed.

End Consumed.

Section Cleaning.
Import Receipt Num.

Lemma space_not_word (c : char) : isSpace c = true -> isWord c = false.
Proof.
  unfold isSpace, isWord, isAlpha, isUpper, isLower, isDigit, between. intros H.
  repeat rewrite orb_true_iff in H. repeat rewrite andb_true_iff in H.
  repeat rewrite N.leb_le in H. repeat rewrite N.eqb_eq in H.
  repeat rewrite orb_false_iff. repeat rewrite andb_false_iff.
  repeat rewrite N.leb_gt. rewrite N.eqb_neq. lia.
Qed.

Lemma decor_not_word (c : char) :
  atom_test false decor c = true -> negb (isWord c) = true.
Proof.
  unfold decor. cbn [atom_test existsb item_test]. intros H.
  repeat rewrite orb_true_iff in H. repeat rewrite N.eqb_eq in H.
  destruct H as [->|[->|[->|H]]]; [reflexivity..|discriminate].
Qed.

Lemma nonword_test (c : char) :
  atom_test false (NoneOf [Wd]) c = true -> negb (isWord c) = true.
Proof. cbn [atom_test existsb item_test]. rewrite orb_false_r. auto. Qed.

Lemma dropWhile_keeps (p q : char -> bool) (s : jsstring) :
  (forall c, p c = true -> q c = false) ->
  filter q (dropWhile p s) = filter q s.
Proof.
  intros H. induction s as [|c tl IH]; [reflexivity|]. cbn [dropWhile].
  destruct (p c) eqn:Hc; [|reflexivity]. cbn [filter]. rewrite (H c Hc). exact IH.
Qed.

Lemma filter_rev' {A} (f : A -> bool) (l : list A) :
  filter f (rev l) = rev (filter f l).
Proof.
  induction l as [|a l IH]; [reflexivity|]. cbn [rev filter].
  rewrite filter_app, IH. cbn [filter]. destruct (f a); [reflexivity|].
  apply app_nil_r.
Qed.

Lemma trim_keeps (q : char -> bool) (s : jsstring) :
  (forall c, isSpace c = true -> q c = false) ->
  filter q (trim s) = filter q s.
Proof.
  intros H. unfold trim, trimEnd, trimStart.
  rewrite filter_rev', (dropWhile_keeps _ _ _ H), filter_rev', rev_involutive.
  apply dropWhile_keeps, H.
Qed.

Lemma negb_flip (b : bool) : negb b = true -> b = false.
Proof. destruct b; [discriminate|reflexivity]. Qed.

Lemma cleanStoreName_keeps (line : jsstring) :
  filter isWord (cleanStoreName line) = filter isWord line.
Proof.
  unfold cleanStoreName, removeAll.
  rewrite (trim_keeps _ _ space_not_word).
  rewrite (delete_all_keeps false (fun c => negb (isWord c)) _ isWord);
    [|unfold plus; cbn [consumes_only]; split; split;
      solve [exact I | exact nonword_test]
     |intros c; apply negb_flip|reflexivity].
  rewrite (delete_all_keeps false (fun c => negb (isWord c)) _ isWord);
    [reflexivity|exact decor_not_word|intros c; apply negb_flip|reflexivity].
Qed.

Lemma accepted_name_truthy (line : jsstring) :
  isStoreName line = true -> truthyS (Some (cleanStoreName line)) = true.
Proof.
  pose proof (cleanStoreName_keeps line) as Hkeep.
  unfold isStoreName.
  destruct (existsb (fun p => test (fst p) (snd p) line) storeSkipPatterns);
    [discriminate|].
  intros H. apply andb_true_iff in H. destruct H as [H _].
  apply andb_true_iff in H. destruct H as [H _].
  unfold test in H.
  destruct (search false (atleast 2 letter) line) as [m|] eqn:Hm; [|discriminate].
  apply (search_from_spec false) in Hm. destruct Hm as (k & _ & Hm & _).
  unfold exec_at in Hm.
  destruct (exec false (atleast 2 letter) (MState (0 + k) (skipn k line) [])
              (fun st => Some st)) as [res|] eqn:He; [|discriminate].
  apply exec_sound in He. cbn [atleast matches rest] in He.
  destruct He as (w & tl & Hs & Hw & Hlen & _).
  destruct w as [|c w]; [cbn in Hlen; lia|].
  cbn [forallb] in Hw. apply andb_true_iff in Hw. destruct Hw as [Hc _].
  assert (Hword : isWord c = true).
  { unfold letter in Hc. cbn [atom_test existsb item_test] in Hc.
    unfold isWord, isAlpha, isUpper, isLower.
    change (ch "A") with 65%N in Hc. change (ch "Z") with 90%N in Hc.
    change (ch "a") with 97%N in Hc. change (ch "z") with 122%N in Hc.
    rewrite orb_false_r in Hc. rewrite Hc. reflexivity. }
  destruct (cleanStoreName line) as [|c' s'] eqn:Hclean; [|reflexivity].
  exfalso. cbn [filter] in Hkeep.
  rewrite (skipn_split k line), Hs, filter_app in Hkeep.
  cbn [app filter] in Hkeep. rewrite Hword in Hkeep.
  destruct (filter isWord (firstn k line)); discriminate.
Qed.

(** X2: [cleanStoreName] deletes runs of decoration, leading and trailing
    characters other than word characters, and white space.  The word
    characters are those of [\w]: the letters A to Z and a to z, the
    digits and the underscore; those of the line are all kept, in order.
    A letter outside ASCII is not one of them and is deleted at an end of
    the line, as the accented e (character 233) that ends a name.  A line
    [isStoreName] accepts holds two letters of A to Z, a to z in a row,
    so its cleaned name is not empty. *)
Theorem clean_store_name_keeps_word_characters (line : jsstring) :
  filter isWord (cleanStoreName line) = filter isWord line
  /\ (forall c, isWord c = true <->
                 (65 <= c <= 90 \/ 97 <= c <= 122 \/ 48 <= c <= 57 \/ c = 95)%N)
  /\ cleanStoreName (lit "Caf" ++ [233%N]) = lit "Caf"
  /\ (isStoreName line = true -> truthyS (Some (cleanStoreName line)) = true).
Proof.
  split; [apply cleanStoreName_keeps|].
  split; [|split; [reflexivity|apply accepted_name_truthy]].
  intros c. unfold isWord, isAlpha, isUpper, isLower, isDigit, between.
  rewrite !orb_true_iff, !andb_true_iff, !N.leb_le, N.eqb_eq. tauto.
Qed.

(** A pattern that is one atom deletes the characters the atom accepts. *)
Lemma removeAll_atom (ic : bool) (a : atom) (s : jsstring) :
  removeAll ic (Atom a) s = filter (fun c => negb (atom_test ic a c)) s.
Proof.
  unfold removeAll.
  assert (H : forall i, delete_all ic (Atom a) i 0 s
                        = filter (fun c => negb (atom_test ic a c)) s);
    [|apply H].
  induction s as [|c tl IH]; intros i; cbn [delete_all].
  - destruct (exec_at ic (Atom a) i []); reflexivity.
  - unfold exec_at. cbn [exec rest pos caps filter].
    destruct (atom_test ic a c); cbn [negb matched].
    + cbn [pos]. replace (S i - i)%nat with 1%nat by lia.
      cbn [firstn length]. apply IH.
    + rewrite IH. reflexivity.
Qed.

(** The characters [cleanDateStr] keeps. *)
Definition dateChar (c : char) : bool :=
  isWord c || isSpace c || between 47%N 58%N c || N.eqb c 46%N || N.eqb c 44%N.

(** X3: [cleanDateStr] keeps the letters, digits, underscores, white space,
    the characters from the slash to the colon, the full stop and the
    comma of the trimmed text and deletes every other character: in its
    class, slash-hyphen-colon is a range, so the hyphen itself is
    deleted. *)
Theorem clean_date_string_drops_hyphens (dateStr : jsstring) :
  cleanDateStr dateStr = filter dateChar (trim dateStr)
  /\ ~ In (ch "-") (cleanDateStr dateStr).
Proof.
  assert (H : cleanDateStr dateStr = filter dateChar (trim dateStr)).
  { unfold cleanDateStr. rewrite removeAll_atom. apply filter_ext.
    intros c. unfold dateChar. cbn [atom_test existsb item_test].
    rewrite negb_involutive, orb_false_r, !orb_assoc. reflexivity. }
  split; [exact H|].
  rewrite H. intros Hin. apply filter_In in Hin. destruct Hin as [_ Hc].
  discriminate Hc.
Qed.

End Cleaning.

(** ** Receipt numbers *)

Section ReceiptNumbers.
Import Receipt Num.

Lemma consumes_anything (ic : bool) (r : regex) : consumes_only ic (fun _ => true) r.
Proof. induction r; cbn [consumes_only]; auto. Qed.

(** What is before a match at an index, and what it covers. *)
Lemma matches_advance (ic : bool) (r : regex) (st st' : mstate) :
  matches ic r st st' -> exists w, rest st = w ++ rest st'.
Proof.
  intros H.
  destruct (matches_consumed ic _ r (consumes_anything ic r) _ _ H) as (w & Hw & _).
  exists w. exact Hw.
Qed.

Lemma word_capture (ic : bool) (st st' : mstate) :
  matches ic (Grp 1 (plus (OneOf [Wd]))) st st' ->
  exists w, assoc 1 (caps st') = Some w /\ rest st = w ++ rest st'
            /\ forallb isWord w = true.
Proof.
  cbn [plus matches]. intros (mid & (w & tl & Hrest & Hw & _ & _ & ->) & ->).
  cbn [pos rest caps assoc Nat.eqb]. exists w.
  replace (pos st + length w - pos st)%nat with (length w) by lia.
  rewrite Hrest, firstn_app_exact. repeat split.
  rewrite <- Hw. apply forallb_same. intros c. cbn [atom_test existsb item_test].
  rewrite orb_false_r. reflexivity.
Qed.

Lemma receipt_number_capture (ic : bool) (pattern : regex) (line : jsstring)
    (m : rmatch) :
  In (ic, pattern) receiptNumberPatterns ->
  search ic pattern line = Some m ->
  forallb isWord (grp m 1) = true
  /\ exists before after, line = before ++ grp m 1 ++ after.
Proof.
  intros Hin H. apply (search_from_spec ic) in H.
  destruct H as (k & _ & H & _). unfold exec_at in H.
  destruct (exec ic pattern (MState (0 + k) (skipn k line) []) (fun st => Some st))
    as [res|] eqn:He; [|discriminate].
  injection H as <-. apply exec_sound in He.
  unfold grp, group. cbn [groups].
  assert (Hcap : exists mid, (exists w0, skipn k line = w0 ++ rest mid)
                   /\ matches ic (Grp 1 (plus (OneOf [Wd]))) mid res).
  { unfold receiptNumberPatterns in Hin. cbn [In] in Hin.
    destruct Hin as [Hp|[Hp|[Hp|[Hp|[]]]]]; injection Hp as <- <-;
      cbn [seq] in He.
    1-3: destruct He as (m1 & H1 & m2 & H2 & H3); exists m2; split; [|exact H3];
         apply matches_advance in H1; apply matches_advance in H2;
         destruct H1 as [w1 H1]; destruct H2 as [w2 H2]; cbn [rest] in H1;
         exists (w1 ++ w2); rewrite H1, H2, app_assoc; reflexivity.
    destruct He as (m1 & H1 & H3). exists m1. split; [|exact H3].
    apply matches_advance in H1. exact H1. }
  destruct Hcap as (mid & (w0 & Hw0) & Hg).
  apply word_capture in Hg. destruct Hg as (w & -> & Hw & Hword).
  split; [exact Hword|].
  exists (firstn k line ++ w0), (rest res).
  rewrite (skipn_split k line) at 1. rewrite Hw0, Hw, <- app_assoc. reflexivity.
Qed.

Lemma extractReceiptNumberFrom_found (patterns : list (bool * regex))
    (line n : jsstring) :
  extractReceiptNumberFrom patterns line = Some n ->
  (3 <= length n)%nat
  /\ exists ic pattern m, In (ic, pattern) patterns
       /\ search ic pattern line = Some m /\ n = grp m 1.
Proof.
  induction patterns as [|[ic p] tl IH]; [discriminate|].
  cbn [extractReceiptNumberFrom].
  destruct (search ic p line) as [m|] eqn:Hm.
  - destruct (3 <=? length (grp m 1))%nat eqn:Hlen.
    + intros H. injection H as <-. split; [apply Nat.leb_le, Hlen|].
      exists ic, p, m. repeat split; [left; reflexivity|exact Hm].
    + intros H. apply IH in H. destruct H as (H1 & ic' & q & m' & Hq & H2).
      split; [exact H1|]. exists ic', q, m'. split; [right; exact Hq|exact H2].
  - intros H. apply IH in H. destruct H as (H1 & ic' & q & m' & Hq & H2).
    split; [exact H1|]. exists ic', q, m'. split; [right; exact Hq|exact H2].
Qed.

(** X4: A receipt number [extractReceiptNumber] returns is a piece of the line
    made of at least three letters, digits or underscores. *)
Theorem receipt_number_is_a_word (line n : jsstring) :
  extractReceiptNumber line = Some n ->
  (3 <= length n)%nat /\ forallb isWord n = true
  /\ exists before after, line = before ++ n ++ after.
Proof.
  intros H. apply extractReceiptNumberFrom_found in H.
  destruct H as (Hlen & ic & p & m & Hin & Hm & ->).
  split; [exact Hlen|]. exact (receipt_number_capture ic p line m Hin Hm).
Qed.

Lemma receipt_number_is_a_word_witness :
  (3 <= length (lit "A123"))%nat /\ forallb isWord (lit "A123") = true
  /\ exists before after, lit "Receipt #A123" = before ++ lit "A123" ++ after.
Proof. apply (receipt_number_is_a_word (lit "Receipt #A123")). reflexivity. Defined.

End ReceiptNumbers.

(** ** What the loop keeps *)

Section FirstMatches.
Import Receipt Num.
Variable extractDate : jsstring -> js (option jsstring).

(** The name the loop takes: that of the first line, among those with
    index below five, that [isStoreName] accepts. *)
Fixpoint firstStoreName (i : nat) (lines : list jsstring) : option jsstring :=
  match lines with
  | [] => None
  | line :: tl =>
      if (i <? 5)%nat && isStoreName line then Some (cleanStoreName line)
      else firstStoreName (S i) tl
  end.

(** The first date and the first receipt number found on a line. *)
Fixpoint firstDate (lines : list jsstring) : option jsstring :=
  match lines with
  | [] => None
  | line :: tl =>
      match extractDate line with
      | Ok (Some (c :: s)) => Some (c :: s)
      | _ => firstDate tl
      end
  end.

Fixpoint firstReceiptNumber (lines : list jsstring) : option jsstring :=
  match lines with
  | [] => None
  | line :: tl =>
      match extractReceiptNumber line with
      | Some n => Some n
      | None => firstReceiptNumber tl
      end
  end.

Definition orKeep (found held : option jsstring) : option jsstring :=
  match found with Some x => Some x | None => held end.

Lemma receipt_number_truthy (line n : jsstring) :
  extractReceiptNumber line = Some n -> truthyS (Some n) = true.
Proof.
  intros H. apply extractReceiptNumberFrom_found in H. destruct H as (H & _).
  destruct n; [cbn in H; lia|reflexivity].
Qed.

Lemma processLine_first (i : nat) (line nextLine : jsstring) (r r' : ParsedReceipt) :
  processLine extractDate i line nextLine r = Ok r' ->
  storeName r' = (if truthyS (storeName r) then storeName r
                  else orKeep (firstStoreName i [line]) (storeName r))
  /\ date r' = (if truthyS (date r) then date r
                else orKeep (firstDate [line]) (date r))
  /\ receiptNumber r' = (if truthyS (receiptNumber r) then receiptNumber r
                         else orKeep (firstReceiptNumber [line]) (receiptNumber r)).
Proof.
  unfold processLine. cbn [firstStoreName firstDate firstReceiptNumber].
  destruct (extractDate line) as [dateMatch|e]; [|discriminate].
  cbn [js_bind]. intros H. injection H as <-.
  cbn [storeName date receiptNumber]. repeat split.
  - destruct (truthyS (storeName r)); cbn [negb andb]; [reflexivity|].
    destruct ((i <? 5)%nat && isStoreName line); reflexivity.
  - destruct (truthyS (date r)); cbn [negb];
      [rewrite andb_false_r; reflexivity|rewrite andb_true_r].
    destruct dateMatch as [[|c s]|]; reflexivity.
  - destruct (truthyS (receiptNumber r)); cbn [negb];
      [rewrite andb_false_r; reflexivity|rewrite andb_true_r].
    destruct (extractReceiptNumber line) as [n|] eqn:Hn; [|reflexivity].
    rewrite (receipt_number_truthy _ _ Hn). reflexivity.
Qed.

(** X5: The loop keeps what it found first: the store name comes from the
    first of the first five lines [isStoreName] accepts, the date from the
    first line with a date, the receipt number from the first line with
    one; none of them is replaced by a later line. *)
Theorem first_found_is_kept (lines : list jsstring) :
  forall (i : nat) (r r' : ParsedReceipt),
  processLines extractDate i lines r = Ok r' ->
  storeName r' = (if truthyS (storeName r) then storeName r
                  else orKeep (firstStoreName i lines) (storeName r))
  /\ date r' = (if truthyS (date r) then date r
                else orKeep (firstDate lines) (date r))
  /\ receiptNumber r' = (if truthyS (receiptNumber r) then receiptNumber r
                         else orKeep (firstReceiptNumber lines) (receiptNumber r)).
Proof.
  induction lines as [|line tl IH]; intros i r r' H.
  - injection H as <-. cbn [firstStoreName firstDate firstReceiptNumber orKeep].
    destruct (truthyS (storeName r)), (truthyS (date r)), (truthyS (receiptNumber r));
      repeat split.
  - cbn [processLines] in H.
    destruct (processLine extractDate i line (hd [] tl) r) as [r1|e] eqn:H1;
      [|discriminate].
    cbn [js_bind] in H. apply IH in H. destruct H as (Hs & Hd & Hn).
    apply processLine_first in H1. destruct H1 as (Hs1 & Hd1 & Hn1).
    cbn [firstStoreName firstDate firstReceiptNumber] in *.
    repeat split.
    + rewrite Hs, Hs1. destruct (truthyS (storeName r)) eqn:Ht.
      * rewrite Ht. reflexivity.
      * destruct ((i <? 5)%nat && isStoreName line) eqn:Hacc; cbn [orKeep].
        -- apply andb_true_iff in Hacc. destruct Hacc as [_ Hacc].
           rewrite (accepted_name_truthy line Hacc).
           reflexivity.
        -- rewrite Ht. reflexivity.
    + rewrite Hd, Hd1. destruct (truthyS (date r)) eqn:Ht.
      * rewrite Ht. reflexivity.
      * destruct (extractDate line) as [[[|c s]|]|e]; cbn [orKeep truthyS];
          try rewrite Ht; reflexivity.
    + rewrite Hn, Hn1. destruct (truthyS (receiptNumber r)) eqn:Ht.
      * rewrite Ht. reflexivity.
      * destruct (extractReceiptNumber line) as [n|] eqn:Hrn; cbn [orKeep].
        -- rewrite (receipt_number_truthy _ _ Hrn). reflexivity.
        -- rewrite Ht. reflexivity.
Qed.

End FirstMatches.

Section FirstMatchesExamples.
Import Receipt Num.

Lemma first_found_is_kept_witness :
  exists r',
    processLines (fun _ => Ok None) 0 [lit "SuperMart"; lit "Corner Shop"]
      (emptyResult []) = Ok r'
    /\ storeName r' = Some (lit "SuperMart").
Proof.
  destruct (processLines (fun _ => Ok None) 0
              [lit "SuperMart"; lit "Corner Shop"] (emptyResult []))
    as [r'|e] eqn:H; [|vm_compute in H; discriminate H].
  exists r'. split; [reflexivity|].
  exact (proj1 (first_found_is_kept (fun _ => Ok None) _ 0 (emptyResult []) r' H)).
Defined.

End FirstMatchesExamples.

(** ** The record returned *)

Section ParseResults.
Import Receipt Num.

Lemma processLines_meta (extractDate : jsstring -> js (option jsstring))
    (lines : list jsstring) :
  forall (i : nat) (r r' : ParsedReceipt),
  processLines extractDate i lines r = Ok r' ->
  rawText r' = rawText r /\ storeAddress r' = storeAddress r
  /\ confidence r' = confidence r /\ needsReview r' = needsReview r
  /\ reviewReason r' = reviewReason r.
Proof.
  induction lines as [|line tl IH]; intros i r r' H.
  - injection H as <-. repeat split.
  - cbn [processLines] in H.
    destruct (processLine extractDate i line (hd [] tl) r) as [r1|e] eqn:H1;
      [|discriminate].
    cbn [js_bind] in H. apply IH in H. unfold processLine in H1.
    destruct (extractDate line) as [dateMatch|e]; [|discriminate].
    cbn [js_bind] in H1. injection H1 as <-.
    cbn [rawText storeAddress confidence needsReview reviewReason] in H. exact H.
Qed.

Lemma processLines_same_dates (f g : jsstring -> js (option jsstring))
    (lines : list jsstring) :
  (forall line, f line = g line) ->
  forall (i : nat) (r : ParsedReceipt),
  processLines f i lines r = processLines g i lines r.
Proof.
  intros Hfg. induction lines as [|line tl IH]; intros i r; [reflexivity|].
  cbn [processLines]. unfold processLine. rewrite Hfg.
  destruct (g line) as [dateMatch|e]; [|reflexivity].
  cbn [js_bind]. apply IH.
Qed.

Lemma appendReason_truthy (o : option jsstring) (reason : string) :
  reason <> EmptyString -> truthyS (appendReason o reason) = true.
Proof.
  intros H. destruct o as [[|c s]|]; cbn [appendReason app truthyS]; try reflexivity;
    destruct reason; [congruence|reflexivity|congruence|reflexivity].
Qed.

(** A record is flagged exactly when it carries a reason. *)
Definition reviewCoherent (r : ParsedReceipt) : Prop :=
  (needsReview r = None /\ reviewReason r = None)
  \/ (needsReview r = Some true /\ truthyS (reviewReason r) = true).

Lemma defaultDate_coherent (E : env) (r : ParsedReceipt) :
  reviewCoherent r -> reviewCoherent (defaultDate E r).
Proof.
  intros H. unfold defaultDate. destruct (negb (truthyS (date r))); [|exact H].
  right. cbn [needsReview reviewReason]. split; [reflexivity|].
  apply appendReason_truthy. discriminate.
Qed.

Lemma defaultStoreName_coherent (r : ParsedReceipt) :
  reviewCoherent r -> reviewCoherent (defaultStoreName r).
Proof.
  intros H. unfold defaultStoreName. destruct (negb (truthyS (storeName r))); [|exact H].
  right. cbn [needsReview reviewReason]. split; [reflexivity|].
  apply appendReason_truthy. discriminate.
Qed.

Lemma validate_coherent (E : env) (r : ParsedReceipt) :
  reviewCoherent r ->
  reviewCoherent (OcrService.validateParsedData E r)
  /\ reviewCoherent (TesseractOcrService.validateParsedData E r).
Proof.
  intros H.
  pose proof (defaultStoreName_coherent _ (defaultDate_coherent E r H)) as H2.
  unfold OcrService.validateParsedData, TesseractOcrService.validateParsedData.
  destruct (totalMismatch (defaultStoreName (defaultDate E r))); split;
    unfold reviewCoherent; cbn [setItems setReview needsReview reviewReason];
    try exact H2; right; split; try reflexivity.
  apply appendReason_truthy. discriminate.
Qed.

Lemma validate_meta (E : env) (r : ParsedReceipt) :
  let v := OcrService.validateParsedData E r in
  let v' := TesseractOcrService.validateParsedData E r in
  (rawText v = rawText r /\ storeAddress v = storeAddress r
   /\ confidence v = confidence r)
  /\ (rawText v' = rawText r /\ storeAddress v' = storeAddress r
      /\ confidence v' = confidence r).
Proof.
  unfold OcrService.validateParsedData, TesseractOcrService.validateParsedData,
    defaultStoreName, defaultDate.
  destruct (negb (truthyS (date r))); cbn [storeName];
    destruct (negb (truthyS (storeName r)));
    match goal with |- context [totalMismatch ?x] => destruct (totalMismatch x) end;
    repeat split.
Qed.

Lemma parse_result_shape_with
    (extractDate : jsstring -> js (option jsstring))
    (validate : ParsedReceipt -> ParsedReceipt) (text : jsstring) (r : ParsedReceipt) :
  parseReceiptTextWith extractDate validate text = Ok r ->
  exists draft, r = validate draft /\ rawText draft = text
    /\ storeAddress draft = None /\ confidence draft = lit "medium"
    /\ reviewCoherent draft.
Proof.
  unfold parseReceiptTextWith. destruct (trim text); [discriminate|].
  destruct (processLines extractDate 0 (linesOf text) (emptyResult text))
    as [draft|e] eqn:Hd; [|discriminate].
  cbn [js_bind]. intros H. injection H as <-.
  apply processLines_meta in Hd. cbn [emptyResult rawText storeAddress confidence
    needsReview reviewReason] in Hd.
  destruct Hd as (H1 & H2 & H3 & H4 & H5).
  exists draft. repeat split; try assumption. left. split; assumption.
Qed.

(** X6: Whatever the text, a record returned by [parseReceiptText] of either
    service has a date and a store name, holds the text it was parsed from,
    no address and confidence 'medium', and is flagged for review exactly
    when it carries a reason; [needsReview] is never [false]. *)
Theorem parsed_record_is_complete (E : env) (text : jsstring) (r : ParsedReceipt) :
  OcrService.parseReceiptText E text = Ok r
  \/ TesseractOcrService.parseReceiptText E text = Ok r ->
  truthyS (date r) = true /\ truthyS (storeName r) = true
  /\ rawText r = text /\ storeAddress r = None /\ confidence r = lit "medium"
  /\ ((needsReview r = None /\ reviewReason r = None)
      \/ (needsReview r = Some true /\ truthyS (reviewReason r) = true)).
Proof.
  intros [H|H]; apply parse_result_shape_with in H;
    destruct H as (draft & -> & H1 & H2 & H3 & H4);
    pose proof (validate_meta E draft) as Hm; cbn zeta in Hm;
    destruct Hm as ((M1 & M2 & M3) & (M1' & M2' & M3')).
  - pose proof (ocr_validate_fields E draft) as Hf. cbn zeta in Hf.
    destruct Hf as (F1 & F2 & _).
    rewrite M1, M2, M3. repeat split; try assumption.
    apply (validate_coherent E draft H4).
  - pose proof (tesseract_validate_fields E draft) as Hf. cbn zeta in Hf.
    destruct Hf as (F1 & F2 & _).
    rewrite M1', M2', M3'. repeat split; try assumption.
    apply (validate_coherent E draft H4).
Qed.

Lemma parsed_record_is_complete_witness :
  exists r,
    OcrService.parseReceiptText (utcHost 2024 6 1) (lit "SuperMart") = Ok r
    /\ truthyS (date r) = true /\ truthyS (storeName r) = true.
Proof.
  destruct (OcrService.parseReceiptText (utcHost 2024 6 1) (lit "SuperMart"))
    as [r|e] eqn:H; [|vm_compute in H; discriminate H].
  exists r. split; [reflexivity|].
  destruct (parsed_record_is_complete _ _ r (or_introl H)) as (H1 & H2 & _).
  split; assumption.
Defined.

End ParseResults.

(** ** The two services side by side *)

Section Services.
Import Receipt Num.

Lemma appendReason_extends (c : char) (s : jsstring) (reason : string) :
  exists suffix, appendReason (Some (c :: s)) reason = Some ((c :: s) ++ suffix).
Proof. eexists. cbn [appendReason]. reflexivity. Qed.

(** X7: Validation never clears the review flag, and in
    tesseractOcrService.js it never drops a reason: a reason present
    before validation is the beginning of the reason after it. *)
Theorem validation_keeps_review (E : env) (r : ParsedReceipt) :
  (needsReview r = Some true ->
     needsReview (OcrService.validateParsedData E r) = Some true
     /\ needsReview (TesseractOcrService.validateParsedData E r) = Some true)
  /\ (forall c s, reviewReason r = Some (c :: s) ->
        exists suffix,
          reviewReason (TesseractOcrService.validateParsedData E r)
          = Some ((c :: s) ++ suffix)).
Proof.
  split.
  - intros H.
    unfold OcrService.validateParsedData, TesseractOcrService.validateParsedData,
      defaultStoreName, defaultDate.
    destruct (negb (truthyS (date r))); cbn [storeName];
      destruct (negb (truthyS (storeName r)));
      match goal with |- context [totalMismatch ?x] => destruct (totalMismatch x) end;
      cbn [setItems setReview needsReview]; auto.
  - intros c s H.
    assert (H1 : exists s1, reviewReason (defaultDate E r) = Some ((c :: s) ++ s1)).
    { unfold defaultDate. destruct (negb (truthyS (date r))); cbn [reviewReason].
      - rewrite H. apply appendReason_extends.
      - exists []. rewrite app_nil_r. exact H. }
    destruct H1 as [s1 H1].
    assert (H2 : exists s2, reviewReason (defaultStoreName (defaultDate E r))
                            = Some ((c :: s) ++ s2)).
    { unfold defaultStoreName.
      destruct (negb (truthyS (storeName (defaultDate E r)))); cbn [reviewReason].
      - rewrite H1. cbn [app].
        destruct (appendReason_extends c (s ++ s1) "Store name not detected")
          as [s2 Hs2].
        exists (s1 ++ s2). rewrite Hs2. cbn [app]. rewrite app_assoc. reflexivity.
      - exists s1. exact H1. }
    destruct H2 as [s2 H2].
    unfold TesseractOcrService.validateParsedData.
    destruct (totalMismatch (defaultStoreName (defaultDate E r)));
      cbn [setItems setReview reviewReason].
    + rewrite H2. cbn [app].
      destruct (appendReason_extends c (s ++ s2)
                  "Items total does not match receipt total") as [s3 Hs3].
      exists (s2 ++ s3). rewrite Hs3. cbn [app]. rewrite app_assoc. reflexivity.
    + exists s2. exact H2.
Qed.

Lemma extractDateFrom_twice (E : env) (p : bool * regex) (tl : list (bool * regex))
    (line : jsstring) :
  extractDateFrom E (p :: p :: tl) line = extractDateFrom E (p :: tl) line.
Proof.
  destruct p as [ic pattern]. cbn [extractDateFrom].
  destruct (search ic pattern line) as [m|]; [|reflexivity].
  destruct (parseVariousDateFormats E (dateStrOf m)) as [t|]; [|reflexivity].
  match goal with |- context [if ?b then _ else _] => destruct b end; reflexivity.
Qed.

Lemma services_same_date (E : env) (line : jsstring) :
  OcrService.extractDate E line = TesseractOcrService.extractDate E line.
Proof.
  unfold OcrService.extractDate, TesseractOcrService.extractDate,
    OcrService.datePatterns, TesseractOcrService.datePatterns, commonDatePatterns.
  apply extractDateFrom_twice.
Qed.

(** A record without its reason. *)
Definition withoutReason (r : ParsedReceipt) : ParsedReceipt :=
  Receipt_ (storeName r) (storeAddress r) (date r) (items r) (total r) (tax r)
    (subtotal r) (receiptNumber r) (rawText r) (confidence r) (needsReview r) None.

Lemma validators_agree (E : env) (d : ParsedReceipt) :
  withoutReason (OcrService.validateParsedData E d)
  = withoutReason (TesseractOcrService.validateParsedData E d)
  /\ (totalMismatch (defaultStoreName (defaultDate E d)) = false ->
      OcrService.validateParsedData E d = TesseractOcrService.validateParsedData E d)
  /\ (truthyS (date d) = true -> truthyS (storeName d) = true ->
      reviewReason d = None ->
      OcrService.validateParsedData E d = TesseractOcrService.validateParsedData E d).
Proof.
  unfold OcrService.validateParsedData, TesseractOcrService.validateParsedData.
  split; [|split].
  - destruct (totalMismatch (defaultStoreName (defaultDate E d))); reflexivity.
  - intros ->. reflexivity.
  - intros Hd Hs Hr. unfold defaultDate. rewrite Hd. cbn [negb].
    unfold defaultStoreName. rewrite Hs. cbn [negb].
    destruct (totalMismatch d); [|reflexivity].
    rewrite Hr. reflexivity.
Qed.

(** X8: The two services read every text alike: both throw, with the same
    message, or both return, and the records differ at most in the wording
    of the reason; they are the same record whenever the totals agree, and
    whenever a date and a store name were found. *)
Theorem services_agree_up_to_reason (E : env) (text : jsstring) :
  match OcrService.parseReceiptText E text,
        TesseractOcrService.parseReceiptText E text with
  | Ok r, Ok r' =>
      withoutReason r = withoutReason r'
      /\ (needsReview r = None -> r = r')
      /\ (reviewReason r <> Some (lit "Items total does not match receipt total")
          -> r = r')
  | Throw e, Throw e' => e = e'
  | _, _ => False
  end
  /\ forall line, OcrService.extractDate E line = TesseractOcrService.extractDate E line.
Proof.
  split; [|exact (services_same_date E)].
  unfold OcrService.parseReceiptText, TesseractOcrService.parseReceiptText,
    parseReceiptTextWith.
  destruct (trim text); [reflexivity|].
  rewrite (processLines_same_dates _ _ _ (services_same_date E)).
  destruct (processLines (TesseractOcrService.extractDate E) 0 (linesOf text)
              (emptyResult text)) as [d|e] eqn:Hd; cbn [js_bind]; [|reflexivity].
  destruct (validators_agree E d) as (H1 & H2 & _).
  split; [exact H1|].
  destruct (totalMismatch (defaultStoreName (defaultDate E d))) eqn:Hmis.
  - split.
    + intros Hn. exfalso. revert Hn.
      unfold OcrService.validateParsedData. rewrite Hmis. discriminate.
    + intros Hn. exfalso. apply Hn.
      unfold OcrService.validateParsedData. rewrite Hmis. reflexivity.
  - split; intros _; apply H2; reflexivity.
Qed.

End Services.

(** ** Merged items, amounts *)

Section Merging.
Import Receipt Num.

Lemma dedup_distinct (l : list LineItem) :
  NoDup (map itemKey l) -> removeDuplicateItems l = l.
Proof.
  induction l as [|x tl IH]; intros H; [reflexivity|].
  cbn [map] in H. inversion H as [|k ks Hx Htl]; subst.
  assert (Hf : fresh x tl).
  { apply Forall_forall. intros it Hit.
    destruct (sameKey x it) eqn:Hs; [|reflexivity].
    exfalso. apply Hx. apply sameKey_iff in Hs. rewrite Hs.
    apply in_map, Hit. }
  rewrite removeDuplicateItems_cons, (absorb_fresh _ _ Hf), (filter_fresh _ _ Hf).
  rewrite (IH Htl). reflexivity.
Qed.

Lemma dedup_keys (l : list LineItem) (k : jsstring * spec_float) :
  In k (map itemKey (removeDuplicateItems l)) <-> In k (map itemKey l).
Proof.
  revert k. pattern l. apply dedup_induction; clear l.
  - intros k. reflexivity.
  - intros x tl IH k. rewrite removeDuplicateItems_cons. cbn [map In].
    rewrite absorb_key, IH. split.
    + intros [H|H]; [left; exact H|right].
      apply in_map_iff in H. destruct H as (it & <- & Hit).
      apply filter_In in Hit. apply in_map, Hit.
    + intros [H|H]; [left; exact H|].
      apply in_map_iff in H. destruct H as (it & <- & Hit).
      destruct (sameKey x it) eqn:Hs.
      * left. apply sameKey_iff, Hs.
      * right. apply in_map, filter_In. split; [exact Hit|]. rewrite Hs. reflexivity.
Qed.

Lemma dedup_length (l : list LineItem) :
  (length (removeDuplicateItems l) <= length l)%nat.
Proof.
  pattern l. apply dedup_induction; clear l; [cbn; lia|].
  intros x tl IH. rewrite removeDuplicateItems_cons. cbn [length].
  pose proof (filter_length_le (fun it => negb (sameKey x it)) tl). lia.
Qed.

(** X9: Merging duplicate items a second time changes nothing; a list without
    duplicates is left as it is; the merged list has the keys of the
    original one and is never longer. *)
Theorem merged_items_are_stable (l : list LineItem) :
  removeDuplicateItems (removeDuplicateItems l) = removeDuplicateItems l
  /\ (NoDup (map itemKey l) -> removeDuplicateItems l = l)
  /\ (forall k, In k (map itemKey (removeDuplicateItems l)) <-> In k (map itemKey l))
  /\ (length (removeDuplicateItems l) <= length l)%nat.
Proof.
  split; [apply dedup_idempotent|]. split; [apply dedup_distinct|].
  split; [apply dedup_keys|apply dedup_length].
Qed.

End Merging.

Section Amounts.
Import Receipt Num.

(** The amounts a record may hold after any number of lines. *)
Definition amountsInRange (r : ParsedReceipt) : Prop :=
  (forall a, total r = Some a -> gt a 0%float = true /\ lt a 10000%float = true)
  /\ (forall a, tax r = Some a -> truthy a = true)
  /\ (forall a, subtotal r = Some a -> truthy a = true).

Lemma processLine_amounts (extractDate : jsstring -> js (option jsstring))
    (i : nat) (line nextLine : jsstring) (r r' : ParsedReceipt) :
  processLine extractDate i line nextLine r = Ok r' ->
  amountsInRange r -> amountsInRange r'.
Proof.
  unfold processLine. destruct (extractDate line) as [dateMatch|e]; [|discriminate].
  cbn [js_bind]. intros H. injection H as <-.
  intros (Ht & Hx & Hs). unfold amountsInRange. cbn [total tax subtotal].
  split; [|split].
  - intros a. destruct (extractTotal line) as [b|] eqn:Hb; cbn [truthyN andb].
    + destruct (truthy b && (negb (truthyN (total r)) || isMoreLikelyTotal line)).
      * intros H. injection H as <-. apply extractTotalFrom_found in Hb.
        split; apply Hb.
      * apply Ht.
    + apply Ht.
  - intros a. destruct (extractTax line) as [b|]; cbn [truthyN]; [|apply Hx].
    destruct (truthy b) eqn:Hb; [|apply Hx].
    intros H. injection H as <-. exact Hb.
  - intros a. destruct (extractSubtotal line) as [b|]; cbn [truthyN]; [|apply Hs].
    destruct (truthy b) eqn:Hb; [|apply Hs].
    intros H. injection H as <-. exact Hb.
Qed.

Lemma processLines_amounts (extractDate : jsstring -> js (option jsstring))
    (lines : list jsstring) :
  forall (i : nat) (r r' : ParsedReceipt),
  processLines extractDate i lines r = Ok r' ->
  amountsInRange r -> amountsInRange r'.
Proof.
  induction lines as [|line tl IH]; intros i r r' H Hr.
  - injection H as <-. exact Hr.
  - cbn [processLines] in H.
    destruct (processLine extractDate i line (hd [] tl) r) as [r1|e] eqn:H1;
      [|discriminate].
    cbn [js_bind] in H. apply (IH _ _ _ H).
    apply (processLine_amounts _ _ _ _ _ _ H1 Hr).
Qed.

Lemma validate_amounts (E : env) (r : ParsedReceipt) :
  let v := OcrService.validateParsedData E r in
  let v' := TesseractOcrService.validateParsedData E r in
  (total v = total r /\ tax v = tax r /\ subtotal v = subtotal r)
  /\ (total v' = total r /\ tax v' = tax r /\ subtotal v' = subtotal r).
Proof.
  unfold OcrService.validateParsedData, TesseractOcrService.validateParsedData,
    defaultStoreName, defaultDate.
  destruct (negb (truthyS (date r))); cbn [storeName];
    destruct (negb (truthyS (storeName r)));
    match goal with |- context [totalMismatch ?x] => destruct (totalMismatch x) end;
    repeat split.
Qed.

(** X10: In a record returned by [parseReceiptText] of either service, a total
    is greater than 0 and less than 10000, and a tax or a subtotal is
    neither zero nor NaN: an amount of 0.00 is never recorded. *)
Theorem parsed_amounts_are_in_range (E : env) (text : jsstring) (r : ParsedReceipt) :
  OcrService.parseReceiptText E text = Ok r
  \/ TesseractOcrService.parseReceiptText E text = Ok r ->
  (forall a, total r = Some a -> gt a 0%float = true /\ lt a 10000%float = true)
  /\ (forall a, tax r = Some a -> truthy a = true)
  /\ (forall a, subtotal r = Some a -> truthy a = true).
Proof.
  assert (Hempty : amountsInRange (emptyResult text))
    by (repeat split; discriminate).
  intros [H|H]; unfold OcrService.parseReceiptText,
    TesseractOcrService.parseReceiptText, parseReceiptTextWith in H;
    destruct (trim text); try discriminate;
    match type of H with
    | js_bind ?p _ = _ => destruct p as [d|e] eqn:Hd; [|discriminate]
    end;
    cbn [js_bind] in H; injection H as <-;
    apply processLines_amounts in Hd; try exact Hempty;
    pose proof (validate_amounts E d) as Hv; cbn zeta in Hv;
    destruct Hv as ((V1 & V2 & V3) & (V1' & V2' & V3'));
    unfold amountsInRange in Hd.
  - rewrite V1, V2, V3. exact Hd.
  - rewrite V1', V2', V3'. exact Hd.
Qed.

Lemma parsed_amounts_are_in_range_witness :
  exists r,
    TesseractOcrService.parseReceiptText (utcHost 2024 6 1)
      (unlines ["Total $5.00"; "Tax $0.00"]) = Ok r
    /\ (forall a, total r = Some a -> gt a 0%float = true /\ lt a 10000%float = true)
    /\ (forall a, tax r = Some a -> truthy a = true).
Proof.
  destruct (TesseractOcrService.parseReceiptText (utcHost 2024 6 1)
              (unlines ["Total $5.00"; "Tax $0.00"]))
    as [r|e] eqn:H; [|vm_compute in H; discriminate H].
  exists r. split; [reflexivity|].
  destruct (parsed_amounts_are_in_range _ _ r (or_intror H)) as (H1 & H2 & _).
  split; assumption.
Defined.

End Amounts.

(** ** Years, confidence *)

Section Years.
Import DateParser.
#[local] Open Scope Z_scope.

Lemma digitsValue_app (a b : jsstring) :
  digitsValue (a ++ b) = fold_left (fun acc c => acc * 10 + (c - 48))%N b (digitsValue a).
Proof. unfold digitsValue. apply fold_left_app. Qed.

Lemma digits_fuel_value (fuel : nat) :
  forall (n : N) (acc : jsstring),
  (n < 2 ^ N.of_nat fuel)%N ->
  exists D, digits_fuel fuel n acc = D ++ acc /\ digitsValue D = n.
Proof.
  induction fuel as [|f IH]; intros n acc Hn.
  - exists []. split; [reflexivity|].
    change (N.of_nat 0) with 0%N in Hn. rewrite N.pow_0_r in Hn.
    unfold digitsValue. cbn [fold_left]. lia.
  - cbn [digits_fuel]. destruct (n <? 10)%N eqn:Hlt.
    + apply N.ltb_lt in Hlt. exists [digitChar (n mod 10)]. split; [reflexivity|].
      unfold digitsValue, digitChar. cbn [fold_left].
      rewrite (N.mod_small n 10 Hlt). clear. lia.
    + apply N.ltb_ge in Hlt.
      destruct (IH (n / 10)%N (digitChar (n mod 10) :: acc)) as (D & HD & Hv).
      * rewrite Nat2N.inj_succ, N.pow_succ_r' in Hn.
        apply N.Div0.div_lt_upper_bound.
        clear - Hn. remember (2 ^ N.of_nat f)%N as b. lia.
      * exists (D ++ [digitChar (n mod 10)]). split.
        -- rewrite HD, <- app_assoc. reflexivity.
        -- rewrite digitsValue_app, Hv. cbn [fold_left]. unfold digitChar.
           pose proof (N.div_mod n 10 ltac:(lia)) as Hdm.
           revert Hdm. generalize (n / 10)%N (n mod 10)%N. clear. intros q m Hdm. lia.
Qed.

(** Reading back the decimal digits of a number gives the number. *)
Lemma natToString_value (n : N) : digitsValue (natToString n) = n.
Proof.
  unfold natToString.
  destruct (digits_fuel_value (S (N.to_nat (N.log2 n))) n []) as (D & HD & Hv).
  - rewrite Nat2N.inj_succ, N2Nat.id.
    destruct n as [|p]; [reflexivity|]. apply N.log2_spec. lia.
  - rewrite HD, app_nil_r. exact Hv.
Qed.

Lemma normalizeYear_range (y : Z) : 0 <= y -> 100 <= normalizeYear y.
Proof.
  intros H. unfold normalizeYear.
  destruct (1900 <=? y) eqn:H1; [apply Z.leb_le in H1; lia|].
  destruct (y <=? 99) eqn:H2.
  - destruct (y <=? 30); lia.
  - apply Z.leb_gt in H2. lia.
Qed.

Lemma normalizeYear_fixed (y : Z) : 100 <= y -> normalizeYear y = y.
Proof.
  intros H. unfold normalizeYear.
  destruct (1900 <=? y); [reflexivity|].
  destruct (y <=? 99) eqn:H2; [apply Z.leb_le in H2; lia|reflexivity].
Qed.

(** X11: A year that went through [normalizeYear] never has fewer than three
    digits, so the [Date] constructor's own rule for years 0 to 99 never
    applies to it, and normalizing it again changes nothing. *)
Theorem normalized_year_has_three_digits (E : env) (y month day : Z) :
  0 <= y ->
  100 <= normalizeYear y
  /\ normalizeYear (normalizeYear y) = normalizeYear y
  /\ newDate E (normalizeYear y) month day
     = TimeClip (UTC E (MakeDate (MakeDay (normalizeYear y) month day) 0)).
Proof.
  intros H. pose proof (normalizeYear_range y H) as Hr.
  split; [exact Hr|]. split; [apply normalizeYear_fixed, Hr|].
  unfold newDate.
  destruct (normalizeYear y <=? 99) eqn:H2; [apply Z.leb_le in H2; lia|].
  rewrite andb_false_r. reflexivity.
Qed.

Lemma normalized_year_has_three_digits_witness :
  100 <= normalizeYear 24
  /\ normalizeYear (normalizeYear 24) = normalizeYear 24
  /\ newDate (utcHost 2024 6 1) (normalizeYear 24) 2 4
     = TimeClip (UTC (utcHost 2024 6 1) (MakeDate (MakeDay (normalizeYear 24) 2 4) 0)).
Proof. apply (normalized_year_has_three_digits (utcHost 2024 6 1) 24 2 4). lia. Defined.

(** X12: [parseShortYear] normalizes the year, prints it and hands it to
    [parseAmbiguousDate], which normalizes it again: the result is that of
    [parseAmbiguousDate] on the captures themselves. *)
Theorem short_year_is_read_as_ambiguous (E : env) (first second year : jsstring) :
  parseShortYear E first second year = parseAmbiguousDate E first second year.
Proof.
  unfold parseShortYear, parseAmbiguousDate.
  assert (Hy : normalizeYear
                 (parseInt (natToString (Z.to_N (normalizeYear (parseInt year)))))
               = normalizeYear (parseInt year)).
  { assert (H0 : 0 <= parseInt year) by (unfold parseInt; lia).
    pose proof (normalizeYear_range _ H0) as Hr.
    unfold parseInt at 1. rewrite natToString_value, Z2N.id by lia.
    apply normalizeYear_fixed, Hr. }
  rewrite Hy. reflexivity.
Qed.

(** X13: The confidence of a candidate lies between 45 and 100. *)
Theorem confidence_between_45_and_100 (dateString : jsstring) (t : dateType)
    (fullText : jsstring) :
  45 <= calculateDateConfidence dateString t fullText <= 100.
Proof.
  unfold calculateDateConfidence, bonus.
  destruct (includes (toLowerCase fullText) (lit "date")),
    (includes (toLowerCase fullText) (lit "transaction")),
    (includes (toLowerCase fullText) (lit "receipt")),
    (includes (toLowerCase fullText) (lit "purchase")),
    (8 <=? Z.of_nat (length dateString)),
    (test false perfectISO dateString);
    destruct t; cbn [type_bonus]; lia.
Qed.

End Years.

(** ** The candidate chosen *)

Section BestDate.
Import DateParser.
#[local] Open Scope Z_scope.
Variable E : env.

(** [a] is at least as good a candidate as [b]: higher confidence, or the
    same confidence and no farther from the present. *)
Definition noWorse (a b : found) : Prop :=
  confidence b < confidence a
  \/ (confidence b = confidence a
      /\ Z.abs (now E - fdate a) <= Z.abs (now E - fdate b)).

Lemma before_noWorse (a b : found) : before E a b = true <-> noWorse a b.
Proof.
  unfold before, noWorse.
  destruct (confidence b =? confidence a) eqn:Hc; cbn [negb].
  - apply Z.eqb_eq in Hc. rewrite Z.leb_le. lia.
  - apply Z.eqb_neq in Hc. rewrite Z.leb_le. lia.
Qed.

Lemma noWorse_total (a b : found) : noWorse a b \/ noWorse b a.
Proof. unfold noWorse. lia. Qed.

Lemma noWorse_trans (a b c : found) : noWorse a b -> noWorse b c -> noWorse a c.
Proof. unfold noWorse. lia. Qed.

Definition headBest (l : list found) : Prop :=
  match l with
  | [] => True
  | best :: _ => forall f, In f l -> noWorse best f
  end.

Lemma insert_headBest (x : found) (l : list found) :
  headBest l -> headBest (insert E x l).
Proof.
  destruct l as [|h tl]; cbn [insert headBest].
  - intros _ f [<-|[]]. unfold noWorse. lia.
  - intros Hh. destruct (before E h x) eqn:Hb.
    + intros f [<-|Hf]; [apply Hh; left; reflexivity|].
      apply insert_In in Hf. destruct Hf as [->|Hf].
      * apply before_noWorse, Hb.
      * apply Hh. right. exact Hf.
    + assert (Hx : noWorse x h).
      { destruct (noWorse_total x h) as [H|H]; [exact H|].
        apply before_noWorse in H. congruence. }
      intros f [<-|Hf]; [unfold noWorse; lia|].
      apply (noWorse_trans x h f Hx), Hh, Hf.
Qed.

Lemma sort_headBest (l : list found) : headBest (sort E l).
Proof.
  unfold sort.
  assert (H : forall acc, headBest acc ->
                headBest (fold_left (fun acc x => insert E x acc) l acc));
    [|apply H; exact I].
  induction l as [|x l IH]; intros acc Hacc; [exact Hacc|].
  cbn [fold_left]. apply IH, insert_headBest, Hacc.
Qed.

(** X14: The date [extractDateFromText] returns is that of a candidate no other
    candidate beats: none has a higher confidence, and none of the same
    confidence is nearer to the present. *)
Theorem best_candidate_is_returned (text s : jsstring) :
  extractDateFromText E text = Ok (Some s) ->
  exists best,
    In best (foundDates E text) /\ s = isoDatePart (fdate best)
    /\ forall f, In f (foundDates E text) ->
         confidence f < confidence best
         \/ (confidence f = confidence best
             /\ Z.abs (now E - fdate best) <= Z.abs (now E - fdate f)).
Proof.
  unfold extractDateFromText. destruct text as [|c text]; [discriminate|].
  pose proof (sort_headBest (foundDates E (c :: text))) as Hb.
  pose proof (sort_In E) as Hin.
  destruct (sort E (foundDates E (c :: text))) as [|best tl] eqn:Hs; [discriminate|].
  cbn [toISODate js_bind]. intros H. injection H as <-.
  exists best. split; [apply (Hin best); rewrite Hs; left; reflexivity|].
  split; [reflexivity|].
  intros f Hf. apply Hb. rewrite <- Hs. apply Hin. exact Hf.
Qed.

(** X15: When both numbers can be a month, [parseAmbiguousDate] returns the
    month-first reading unless only the day-first reading is a plausible
    date; what it returns is plausible whenever either reading is. *)
Theorem ambiguous_date_prefers_plausible_reading (first second year : jsstring) :
  let y := normalizeYear (parseInt year) in
  let usDate := newDate E y (parseInt first - 1) (parseInt second) in
  let euDate := newDate E y (parseInt second - 1) (parseInt first) in
  parseInt first <= 12 -> parseInt second <= 12 ->
  parseAmbiguousDate E first second year
  = (if negb (isValidDate E usDate) && isValidDate E euDate then euDate else usDate)
  /\ isValidDate E (parseAmbiguousDate E first second year)
     = isValidDate E usDate || isValidDate E euDate.
Proof.
  intros y usDate euDate H1 H2. unfold parseAmbiguousDate.
  fold y. fold usDate. fold euDate.
  destruct (12 <? parseInt first) eqn:G1; [apply Z.ltb_lt in G1; lia|].
  destruct (12 <? parseInt second) eqn:G2; [apply Z.ltb_lt in G2; lia|].
  destruct (isValidDate E usDate) eqn:Hu, (isValidDate E euDate) eqn:He;
    cbn [negb andb orb]; rewrite ?Hu, ?He; split; reflexivity.
Qed.

End BestDate.

Section BestDateExamples.
Import DateParser.
#[local] Open Scope Z_scope.

Lemma best_candidate_is_returned_witness :
  exists best,
    In best (foundDates (utcHost 2024 6 1) (lit "03/04/2024"))
    /\ lit "2024-04-03" = isoDatePart (fdate best).
Proof.
  destruct (best_candidate_is_returned (utcHost 2024 6 1) (lit "03/04/2024")
              (lit "2024-04-03")) as (best & H1 & H2 & _).
  - vm_compute. reflexivity.
  - exists best. split; assumption.
Defined.

Lemma ambiguous_date_prefers_plausible_reading_witness :
  isValidDate (utcHost 2024 6 1)
    (parseAmbiguousDate (utcHost 2024 6 1) (lit "03") (lit "04") (lit "2024"))
  = isValidDate (utcHost 2024 6 1)
      (newDate (utcHost 2024 6 1) (normalizeYear (parseInt (lit "2024")))
         (parseInt (lit "03") - 1) (parseInt (lit "04")))
    || isValidDate (utcHost 2024 6 1)
         (newDate (utcHost 2024 6 1) (normalizeYear (parseInt (lit "2024")))
            (parseInt (lit "04") - 1) (parseInt (lit "03"))).
Proof.
  apply (ambiguous_date_prefers_plausible_reading (utcHost 2024 6 1)
           (lit "03") (lit "04") (lit "2024")); vm_compute; discriminate.
Defined.

End BestDateExamples.

(** ** Stored dates, the Textract service *)

Section Storage.
Import DateParser.
#[local] Open Scope Z_scope.
Variable E : env.

Lemma valid_date_stored (d : date) :
  isValidDate E d = true ->
  exists t, d = Some t /\ parserWindow E t = true
            /\ (isoDate <- toISODate d ;; Ok (Some isoDate))%js
               = Ok (Some (isoDatePart t)).
Proof.
  intros H. apply isValidDate_window in H. destruct H as (t & -> & Ht).
  exists t. repeat split. exact Ht.
Qed.

(** X16: [formatDateForStorage] never throws; it returns [null] for nothing and
    for the empty string, and otherwise [null] or the ISO date of the
    instant it was given (for a string, the instant the host's [Date]
    constructor reads from it), which then lies in the window of
    [isValidDate]. *)
Theorem stored_date_is_plausible (input : dateInput) :
  exists v, formatDateForStorage E input = Ok v
    /\ (forall s, v = Some s ->
          exists t, s = isoDatePart t /\ parserWindow E t = true
            /\ match input with
               | NoDate => False
               | DateString text => text <> [] /\ newDateOfString E text = Some t
               | DateObject d => d = Some t
               end)
    /\ (input = NoDate \/ input = DateString [] -> v = None).
Proof.
  destruct input as [|[|c text]|d]; cbn [formatDateForStorage].
  - exists None. split; [reflexivity|]. split; [discriminate|reflexivity].
  - exists None. split; [reflexivity|]. split; [discriminate|reflexivity].
  - destruct (isValidDate E (newDateOfString E (c :: text))) eqn:Hv.
    + destruct (valid_date_stored _ Hv) as (t & Ht & Hw & ->).
      exists (Some (isoDatePart t)). split; [reflexivity|]. split.
      * intros s Hs. injection Hs as <-. exists t. repeat split; try assumption.
        discriminate.
      * intros [H|H]; discriminate.
    + exists None. split; [reflexivity|]. split; [discriminate|reflexivity].
  - destruct (isValidDate E d) eqn:Hv.
    + destruct (valid_date_stored _ Hv) as (t & Ht & Hw & ->).
      exists (Some (isoDatePart t)). split; [reflexivity|]. split.
      * intros s Hs. injection Hs as <-. exists t. repeat split; assumption.
      * intros [H|H]; discriminate.
    + exists None. split; [reflexivity|]. split; [discriminate|reflexivity].
Qed.

End Storage.

Section Textract.
Import DateParser TextractOcrService Num.
#[local] Open Scope Z_scope.

Lemma afterLastDot_app (ext : jsstring) :
  ~ In (ch ".") ext ->
  forall cur, afterLastDot cur ext = rev cur ++ ext.
Proof.
  induction ext as [|c ext IH]; intros Hno cur; cbn [afterLastDot].
  - symmetry. apply app_nil_r.
  - destruct (N.eqb c (ch ".")) eqn:Hc.
    + apply N.eqb_eq in Hc. exfalso. apply Hno. left. exact Hc.
    + rewrite IH by (intros H; apply Hno; right; exact H).
      cbn [rev]. rewrite <- app_assoc. reflexivity.
Qed.

Lemma afterLastDot_last (name ext : jsstring) :
  ~ In (ch ".") ext ->
  forall cur, afterLastDot cur (name ++ ch "." :: ext) = ext.
Proof.
  intros Hno. induction name as [|c name IH]; intros cur; cbn [app afterLastDot].
  - rewrite N.eqb_refl. apply (afterLastDot_app ext Hno []).
  - destruct (N.eqb c (ch ".")); apply IH.
Qed.

Lemma lower_dot (c : char) : lower c = ch "." <-> c = ch ".".
Proof.
  unfold lower, isUpper, between. change (ch ".") with 46%N.
  destruct (N.leb 65 c && N.leb c 90) eqn:H; [|reflexivity].
  apply andb_true_iff in H. destruct H as [H1 H2].
  apply N.leb_le in H1. apply N.leb_le in H2. lia.
Qed.

Lemma toLowerCase_no_dot (s : jsstring) :
  ~ In (ch ".") s -> ~ In (ch ".") (toLowerCase s).
Proof.
  intros H Hin. apply H. unfold toLowerCase in Hin. apply in_map_iff in Hin.
  destruct Hin as (c & Hc & Hin). apply (proj1 (lower_dot c)) in Hc. subst c. exact Hin.
Qed.

(** X17: [getImageMimeType] looks only at what follows the last full stop of
    the name, without regard to case: png gives image/png, pdf gives
    application/pdf, and every other extension, supported or not, gives
    image/jpeg. *)
Theorem mime_type_from_extension (name ext : jsstring) :
  ~ In (ch ".") ext ->
  getImageMimeType (name ++ lit "." ++ ext)
  = (if JS.eqb (toLowerCase ext) (lit "png") then lit "image/png"
     else if JS.eqb (toLowerCase ext) (lit "pdf") then lit "application/pdf"
     else lit "image/jpeg")
  /\ getImageMimeType ext = getImageMimeType (name ++ lit "." ++ ext).
Proof.
  intros Hno. pose proof (toLowerCase_no_dot ext Hno) as Hno'.
  assert (H1 : afterLastDot [] (toLowerCase (name ++ lit "." ++ ext)) = toLowerCase ext).
  { unfold toLowerCase. rewrite !map_app. cbn [lit list_ascii_of_string map app].
    change (lower (N_of_ascii ".")) with (ch ".").
    apply afterLastDot_last. exact Hno'. }
  assert (H2 : afterLastDot [] (toLowerCase ext) = toLowerCase ext)
    by (apply (afterLastDot_app _ Hno' [])).
  unfold getImageMimeType. rewrite H1, H2. split; [|reflexivity].
  destruct (JS.eqb (toLowerCase ext) (lit "jpg")) eqn:J1.
  - apply js_eqb_eq in J1. rewrite J1. reflexivity.
  - destruct (JS.eqb (toLowerCase ext) (lit "jpeg")) eqn:J2.
    + apply js_eqb_eq in J2. rewrite J2. reflexivity.
    + cbn [orb]. destruct (JS.eqb (toLowerCase ext) (lit "png")); [reflexivity|].
      destruct (JS.eqb (toLowerCase ext) (lit "pdf")); reflexivity.
Qed.

Lemma mime_type_from_extension_witness :
  getImageMimeType (lit "scan.2024" ++ lit "." ++ lit "PNG")
  = (if JS.eqb (toLowerCase (lit "PNG")) (lit "png") then lit "image/png"
     else if JS.eqb (toLowerCase (lit "PNG")) (lit "pdf") then lit "application/pdf"
     else lit "image/jpeg")
  /\ getImageMimeType (lit "PNG") = getImageMimeType (lit "scan.2024" ++ lit "." ++ lit "PNG").
Proof.
  apply (mime_type_from_extension (lit "scan.2024") (lit "PNG")).
  vm_compute. intuition discriminate.
Defined.

(** X18: The review rule of the Textract service: a receipt is left unflagged
    exactly when the confidence is not below 80, a vendor was read and the
    total is a number other than zero (the separate comparison of the total
    with 0 adds nothing); a flagged receipt always carries a reason, an
    unflagged one none, and its amount is the total read. *)
Theorem textract_review_rule (d : ExtractedData) :
  (needsReview d = false <->
     lt (confidence d) 80%float = false /\ vendor d <> [] /\ truthy (total d) = true)
  /\ (reviewReason d = None <-> needsReview d = false)
  /\ (needsReview d = false -> amount d = total d /\ description d = vendor d).
Proof.
  assert (Hiff : needsReview d = false <->
     lt (confidence d) 80%float = false /\ vendor d <> [] /\ truthy (total d) = true).
  { unfold needsReview, truthy.
    destruct (lt (confidence d) 80%float); cbn [orb];
      [split; [discriminate|intros (H & _); discriminate]|].
    destruct (vendor d) as [|c v]; cbn [Receipt.truthyS negb orb];
      [split; [discriminate|intros (_ & H & _); congruence]|].
    destruct (PrimFloat.eqb (total d) 0%float); cbn [orb negb];
      [split; [discriminate|intros (_ & _ & H); discriminate]|].
    destruct (is_nan (total d)); cbn [negb orb];
      [split; [discriminate|intros (_ & _ & H); discriminate]|].
    split; [intros _; repeat split; discriminate|reflexivity]. }
  split; [exact Hiff|]. split.
  - unfold reviewReason. destruct (needsReview d); split;
      try discriminate; reflexivity.
  - intros H. apply Hiff in H. destruct H as (_ & Hv & Ht).
    unfold amount, or_else, description. rewrite Ht.
    destruct (vendor d); [congruence|]. split; reflexivity.
Qed.

(** X19: The date of the receipt the Textract service stores is the ISO date
    of an instant in the window of [isValidDate], read by the host from
    the extracted date, or else today's date; reading it throws only if the
    clock itself shows no valid time. *)
Theorem textract_receipt_date (E : env) (d : ExtractedData) :
  (exists s, receiptDate E d = Ok s
     /\ (s = isoDatePart (now E)
         \/ exists t, s = isoDatePart t /\ parserWindow E t = true
                      /\ newDateOfString E (date d) = Some t))
  \/ TimeClip (now E) = None.
Proof.
  assert (Hnow : (exists s, getCurrentDateFallback E = Ok s /\ s = isoDatePart (now E))
                 \/ TimeClip (now E) = None).
  { unfold getCurrentDateFallback, newDateNow.
    destruct (TimeClip (now E)) as [t|] eqn:Ht; [left|right; reflexivity].
    unfold TimeClip in Ht. destruct (Z.abs (now E) <=? 8640000000000000);
      [|discriminate]. injection Ht as <-.
    exists (isoDatePart (now E)). split; reflexivity. }
  assert (Hfallback :
    (exists s, getCurrentDateFallback E = Ok s
       /\ (s = isoDatePart (now E)
           \/ exists t, s = isoDatePart t /\ parserWindow E t = true
                        /\ newDateOfString E (date d) = Some t))
    \/ TimeClip (now E) = None).
  { destruct Hnow as [(s & Hs & Hs')|Hn]; [left|right; exact Hn].
    exists s. split; [exact Hs|left; exact Hs']. }
  unfold receiptDate. cbn [formatDateForStorage].
  destruct (date d) as [|c text]; cbn [js_bind]; [exact Hfallback|].
  destruct (isValidDate E (newDateOfString E (c :: text))) eqn:Hv;
    cbn [js_bind]; [|exact Hfallback].
  destruct (valid_date_stored E _ Hv) as (t & Ht & Hw & ->). cbn [js_bind].
  destruct (isoDatePart t) as [|c' s'] eqn:Hiso; [exact Hfallback|].
  left. exists (c' :: s'). split; [reflexivity|right].
  exists t. rewrite Hiso. repeat split; assumption.
Qed.


End Textract.

(** ** Bare dates, whatever their digits and separators *)

Section Decode.
Import DateParser.
#[local] Open Scope Z_scope.

(** The character of [T] at the position where [T0] holds [c0]. *)
Definition decode (T T0 : jsstring) (c0 : char) : char :=
  match find (fun p => N.eqb (snd p) c0) (combine T T0) with
  | Some p => fst p
  | None => c0
  end.

Definition decodeMatch (T T0 : jsstring) (m0 : rmatch) : rmatch :=
  RMatch (index m0) (map (decode T T0) (matched m0))
    (map (fun g => (fst g, map (decode T T0) (snd g))) (groups m0)).

(** Equal characters of [T0] stand at positions where [T] holds equal
    characters. *)
Definition functionalPairs (T T0 : jsstring) : Prop :=
  Forall (fun p => fst p = decode T T0 (snd p)) (combine T T0).

Section Known.
Variables T T0 : jsstring.
Hypothesis Hfun : functionalPairs T T0.

Lemma paired_decode (c c0 : char) : paired T T0 c c0 -> c = decode T T0 c0.
Proof.
  intros H. unfold functionalPairs in Hfun. rewrite Forall_forall in Hfun.
  apply (Hfun (c, c0) H).
Qed.

Lemma paired_text_decode (X X0 : jsstring) :
  Forall2 (paired T T0) X X0 -> X = map (decode T T0) X0.
Proof.
  induction 1 as [|c c0 X X0 Hc _ IH]; [reflexivity|].
  cbn [map]. rewrite <- IH, <- (paired_decode c c0 Hc). reflexivity.
Qed.

Lemma paired_groups_decode (G G0 : list (nat * jsstring)) :
  Forall2 (capR (paired T T0)) G G0 ->
  G = map (fun g => (fst g, map (decode T T0) (snd g))) G0.
Proof.
  induction 1 as [|[n s] [n0 s0] G G0 [Hn Hs] _ IH]; [reflexivity|].
  cbn [map fst snd] in *. rewrite <- IH, <- (paired_text_decode _ _ Hs), Hn.
  reflexivity.
Qed.

Lemma paired_match_decode (m m0 : rmatch) :
  rmatchR (paired T T0) m m0 -> m = decodeMatch T T0 m0.
Proof.
  destruct m as [i s g]. intros (Hi & Hs & Hg). cbn [index matched groups] in *.
  unfold decodeMatch.
  rewrite <- (paired_text_decode _ _ Hs), <- (paired_groups_decode _ _ Hg), Hi.
  reflexivity.
Qed.

Lemma paired_table_decode (tab tab0 : list (list rmatch)) :
  Forall2 (Forall2 (rmatchR (paired T T0))) tab tab0 ->
  tab = map (map (decodeMatch T T0)) tab0.
Proof.
  induction 1 as [|l l0 tab tab0 Hl _ IH]; [reflexivity|].
  cbn [map]. rewrite <- IH. f_equal.
  induction Hl as [|m m0 l l0 Hm _ IHl]; [reflexivity|].
  cbn [map]. rewrite <- IHl, <- (paired_match_decode _ _ Hm). reflexivity.
Qed.

(** The matches of the table in a text are those in any text that differs
    from it in its digits only, read back position by position. *)
Lemma matchTable_decode (E : env) :
  digitwise (paired T T0) -> length T = length T0 ->
  matchTable E T = map (map (decodeMatch T T0)) (matchTable E T0).
Proof.
  intros HR Hlen. apply paired_table_decode.
  apply matchTable_blind; [exact HR|apply paired_texts, Hlen].
Qed.

End Known.

(** Digits ['0' + k], ['0' + k + 1], ... in place of the characters of a
    text. *)
Fixpoint labels (k : N) (l : jsstring) : jsstring :=
  match l with
  | [] => []
  | _ :: tl => (48 + k)%N :: labels (k + 1) tl
  end.

Definition isSeparator (c : char) : Prop := c = ch "-" \/ c = ch "/" \/ c = ch ".".

(** A date that is the whole text: one or two digits, a separator, one or
    two digits, a separator, four digits. *)
Definition bareDateText (A B Y : jsstring) (s1 s2 : char) : jsstring :=
  A ++ s1 :: B ++ s2 :: Y.

Definition isBareDate (A B Y : jsstring) (s1 s2 : char) : Prop :=
  forallb isDigit A = true /\ (1 <= length A <= 2)%nat
  /\ forallb isDigit B = true /\ (1 <= length B <= 2)%nat
  /\ forallb isDigit Y = true /\ length Y = 4%nat
  /\ isSeparator s1 /\ isSeparator s2.

Ltac digit_pairs :=
  let c := fresh "c" in let c' := fresh "c" in let Hin := fresh "Hin" in
  intros c c' Hin; unfold paired in Hin; cbn [combine In] in Hin;
  repeat (destruct Hin as [Hin|Hin];
          [injection Hin as <- <-;
           first [left; reflexivity | right; split; [assumption|reflexivity]]|]);
  destruct Hin.

Lemma bare_date_table (E : env) (A B Y : jsstring) (s1 s2 : char) :
  isBareDate A B Y s1 s2 ->
  onlyNumericFullYear E (bareDateText A B Y s1 s2)
    (RMatch 0 (bareDateText A B Y s1 s2) [(3%nat, Y); (2%nat, B); (1%nat, A)]).
Proof.
  intros (HA & HlA & HB & HlB & HY & HlY & Hs1 & Hs2).
  unfold onlyNumericFullYear.
  set (T := bareDateText A B Y s1 s2).
  set (T0 := bareDateText (labels 0 A) (labels 2 B) (labels 4 Y) s1 s2).
  assert (Hgoal : digitwise (paired T T0) /\ length T = length T0
                  /\ functionalPairs T T0
                  /\ map (map (decodeMatch T T0)) (matchTable E T0)
                     = [[RMatch 0 T [(3%nat, Y); (2%nat, B); (1%nat, A)]];
                        [RMatch 0 T [(3%nat, Y); (2%nat, B); (1%nat, A)]];
                        []; []; []; []; []; []; []; []; []]).
  { subst T T0.
    destruct A as [|a1 [|a2 [|? ?]]]; cbn [length] in HlA; try lia;
    destruct B as [|b1 [|b2 [|? ?]]]; cbn [length] in HlB; try lia;
    destruct Y as [|y1 [|y2 [|y3 [|y4 [|? ?]]]]]; try discriminate HlY;
    cbn [forallb] in HA, HB, HY;
    repeat rewrite andb_true_iff in HA; repeat rewrite andb_true_iff in HB;
    repeat rewrite andb_true_iff in HY;
    repeat match goal with H : _ /\ _ |- _ => destruct H end;
    destruct Hs1 as [-> | [-> | ->]]; destruct Hs2 as [-> | [-> | ->]];
    (split; [digit_pairs|]);
    (split; [reflexivity|]);
    (split; [repeat constructor|]);
    vm_compute; reflexivity. }
  destruct Hgoal as (HR & Hlen & Hfun & Htab).
  rewrite (matchTable_decode T T0 Hfun E HR Hlen). exact Htab.
Qed.

End Decode.

Section BareDateResults.
Import DateParser.
#[local] Open Scope Z_scope.

(** What the table's two numeric full-year candidates give. *)
Lemma numeric_only_result (E : env) (text : jsstring) (m : rmatch) :
  onlyNumericFullYear E text m ->
  extractDateFromText E text
  = Ok (match monthFirst E m, dayFirst E m with
        | Some us, Some eu =>
            Some (isoDatePart
                    (if Z.abs (now E - us) <=? Z.abs (now E - eu) then us else eu))
        | Some us, None => Some (isoDatePart us)
        | None, Some eu => Some (isoDatePart eu)
        | None, None => None
        end).
Proof.
  intros H. pose proof (foundDates_numeric E text m H) as Hf.
  unfold extractDateFromText. destruct text as [|c text];
    [vm_compute in H; discriminate H|].
  rewrite Hf, candidate_us, candidate_eu.
  destruct (monthFirst E m) as [us|], (dayFirst E m) as [eu|];
    cbn [app sort fold_left insert]; try reflexivity.
  unfold before. cbn [confidence fdate].
  rewrite us_eu_same_confidence, Z.eqb_refl. cbn [negb].
  destruct (Z.abs (now E - us) - Z.abs (now E - eu) <=? 0) eqn:Hd.
  - apply Z.leb_le in Hd.
    destruct (Z.abs (now E - us) <=? Z.abs (now E - eu)) eqn:Hd';
      [reflexivity|apply Z.leb_gt in Hd'; lia].
  - apply Z.leb_gt in Hd.
    destruct (Z.abs (now E - us) <=? Z.abs (now E - eu)) eqn:Hd';
      [apply Z.leb_le in Hd'; lia|reflexivity].
Qed.

(** X21: In a text that is one bare date with a four-digit year, whatever its
    digits and whichever of the separators hyphen, slash and full stop it
    uses, the two numeric full-year patterns each match once, the whole
    text, and none of the other nine patterns of the table matches. *)
Theorem bare_date_is_matched_twice (E : env) (A B Y : jsstring) (s1 s2 : char) :
  isBareDate A B Y s1 s2 ->
  map (fun p => matchAll (icase p) (pattern p) (bareDateText A B Y s1 s2))
    (datePatterns E)
  = [[RMatch 0 (bareDateText A B Y s1 s2) [(3%nat, Y); (2%nat, B); (1%nat, A)]];
     [RMatch 0 (bareDateText A B Y s1 s2) [(3%nat, Y); (2%nat, B); (1%nat, A)]];
     []; []; []; []; []; []; []; []; []].
Proof. intros H. exact (bare_date_table E A B Y s1 s2 H). Qed.

Lemma bare_date_is_matched_twice_witness :
  map (fun p => matchAll (icase p) (pattern p)
                  (bareDateText (lit "3") (lit "14") (lit "2024") (ch "-") (ch ".")))
    (datePatterns (utcHost 2024 6 1))
  = [[RMatch 0 (bareDateText (lit "3") (lit "14") (lit "2024") (ch "-") (ch "."))
        [(3%nat, lit "2024"); (2%nat, lit "14"); (1%nat, lit "3")]];
     [RMatch 0 (bareDateText (lit "3") (lit "14") (lit "2024") (ch "-") (ch "."))
        [(3%nat, lit "2024"); (2%nat, lit "14"); (1%nat, lit "3")]];
     []; []; []; []; []; []; []; []; []].
Proof.
  apply (bare_date_is_matched_twice (utcHost 2024 6 1)).
  unfold isBareDate, isSeparator.
  repeat split; try reflexivity; cbn; lia.
Defined.

(** X22: The date read from a bare date with a four-digit year does not depend
    on which of the separators hyphen, slash and full stop it uses, nor on
    whether its two separators are the same. *)
Theorem separator_does_not_matter (E : env) (A B Y : jsstring)
    (s1 s2 s1' s2' : char) :
  isBareDate A B Y s1 s2 -> isSeparator s1' -> isSeparator s2' ->
  extractDateFromText E (bareDateText A B Y s1 s2)
  = extractDateFromText E (bareDateText A B Y s1' s2').
Proof.
  intros H H1 H2.
  assert (H' : isBareDate A B Y s1' s2').
  { destruct H as (HA & HlA & HB & HlB & HY & HlY & _ & _).
    exact (conj HA (conj HlA (conj HB (conj HlB (conj HY (conj HlY (conj H1 H2))))))). }
  rewrite (numeric_only_result E _ _ (bare_date_table E A B Y s1 s2 H)).
  rewrite (numeric_only_result E _ _ (bare_date_table E A B Y s1' s2' H')).
  reflexivity.
Qed.

Lemma separator_does_not_matter_witness :
  extractDateFromText (utcHost 2024 6 1)
    (bareDateText (lit "03") (lit "04") (lit "2024") (ch "/") (ch "/"))
  = extractDateFromText (utcHost 2024 6 1)
      (bareDateText (lit "03") (lit "04") (lit "2024") (ch ".") (ch "-")).
Proof.
  apply (separator_does_not_matter (utcHost 2024 6 1)).
  - unfold isBareDate, isSeparator.
    repeat split; try reflexivity; cbn; lia.
  - right. right. reflexivity.
  - left. reflexivity.
Defined.

End BareDateResults.

(** ** The names of the items *)

Section Captures.
Variable ic : bool.

(** The captures a pattern can make. *)
Fixpoint groupsOf (r : regex) : list nat :=
  match r with
  | Eps | Atom _ | Rep _ _ _ _ | Bol | Eol | NotAhead _ => []
  | Seq r1 r2 | Alt r1 r2 => groupsOf r1 ++ groupsOf r2
  | Grp n r1 => n :: groupsOf r1
  | Opt r1 => groupsOf r1
  end.

Lemma matches_caps (r : regex) :
  forall st st', matches ic r st st' ->
  exists new, caps st' = new ++ caps st
              /\ Forall (fun c => In (fst c) (groupsOf r)) new.
Proof.
  induction r as [|a|r1 IH1 r2 IH2|r1 IH1 r2 IH2|n r1 IH1|g mn mx a|r1 IH1| | |r1 IH1];
    cbn [groupsOf matches]; intros st st' H.
  - subst st'. exists []. split; [reflexivity|constructor].
  - destruct H as (c & tl & _ & _ & ->). exists []. split; [reflexivity|constructor].
  - destruct H as (mid & H1 & H2).
    destruct (IH1 _ _ H1) as (n1 & E1 & F1). destruct (IH2 _ _ H2) as (n2 & E2 & F2).
    exists (n2 ++ n1). rewrite E2, E1, app_assoc. split; [reflexivity|].
    apply Forall_app. split; eapply Forall_impl; try eassumption;
      intros c Hc; apply in_or_app; auto.
  - destruct H as [H|H]; [destruct (IH1 _ _ H) as (n1 & E1 & F1)
                         |destruct (IH2 _ _ H) as (n1 & E1 & F1)];
      exists n1; (split; [exact E1|]); eapply Forall_impl; try eassumption;
      intros c Hc; apply in_or_app; auto.
  - destruct H as (mid & H1 & ->). destruct (IH1 _ _ H1) as (n1 & E1 & F1).
    cbn [caps]. exists ((n, firstn (pos mid - pos st) (rest st)) :: n1).
    rewrite E1. split; [reflexivity|]. constructor; [left; reflexivity|].
    eapply Forall_impl; try eassumption. intros c Hc. right. exact Hc.
  - destruct H as (w & tl & _ & _ & _ & _ & ->). exists [].
    split; [reflexivity|constructor].
  - destruct H as [H| ->]; [apply (IH1 _ _ H)|].
    exists []. split; [reflexivity|constructor].
  - destruct H as [_ ->]. exists []. split; [reflexivity|constructor].
  - destruct H as [_ ->]. exists []. split; [reflexivity|constructor].
  - destruct H as [-> _]. exists []. split; [reflexivity|constructor].
Qed.

Lemma assoc_skip (n : nat) (new l : list (nat * jsstring)) (G : list nat) :
  Forall (fun c => In (fst c) G) new -> ~ In n G ->
  assoc n (new ++ l) = assoc n l.
Proof.
  intros Hnew Hn. induction Hnew as [|[k v] new Hk _ IH]; [reflexivity|].
  cbn [app assoc]. destruct (Nat.eqb n k) eqn:Hnk; [|exact IH].
  apply Nat.eqb_eq in Hnk. subst k. contradiction.
Qed.

(** A capture made before the rest of the pattern, which has no capture
    of that number, is what the match reports for it. *)
Lemma capture_kept (n : nat) (g r : regex) (st mid res : mstate) :
  matches ic g st mid -> matches ic r (MState (pos mid) (rest mid)
    ((n, firstn (pos mid - pos st) (rest st)) :: caps mid)) res ->
  ~ In n (groupsOf r) ->
  assoc n (caps res) = Some (firstn (pos mid - pos st) (rest st)).
Proof.
  intros _ Hr Hn. destruct (matches_caps r _ _ Hr) as (new & -> & Hnew).
  rewrite (assoc_skip n new _ _ Hnew Hn). cbn [caps assoc].
  rewrite Nat.eqb_refl. reflexivity.
Qed.

End Captures.

Section ItemNames.
Import Receipt Num.

Definition startsUnspaced (line : jsstring) : Prop :=
  exists c tl, line = c :: tl /\ isSpace c = false.

Lemma trim_unspaced (line : jsstring) : startsUnspaced line -> trim line <> [].
Proof.
  intros (c & tl & -> & Hc) H. apply trim_nil in H. cbn [forallb] in H.
  rewrite Hc in H. discriminate.
Qed.

Lemma trimmed_line_unspaced (x : jsstring) : trim x <> [] -> startsUnspaced (trim x).
Proof.
  unfold trim, trimStart. intros H.
  destruct (dropWhile isSpace x) as [|c tl] eqn:Hd; [contradiction H; reflexivity|].
  pose proof (dropWhile_head _ _ _ _ Hd) as Hc.
  destruct (trimEnd_keeps [] c tl Hc) as [q Hq]. cbn [app] in Hq.
  exists c, q. split; [exact Hq|exact Hc].
Qed.

Lemma linesOf_unspaced (text : jsstring) : Forall startsUnspaced (linesOf text).
Proof.
  unfold linesOf. apply Forall_forall. intros line Hin.
  apply filter_In in Hin. destruct Hin as [Hin Hlen].
  apply in_map_iff in Hin. destruct Hin as (x & <- & _).
  apply trimmed_line_unspaced. intros H. rewrite H in Hlen. discriminate.
Qed.

(** The first capture of a pattern that starts at the beginning of the
    line with a captured run of one or more characters. *)
Lemma leading_capture (a : atom) (g : bool) (r : regex) (line : jsstring) (m : rmatch) :
  search false (Seq Bol (Seq (Grp 1 (Rep g 1 None a)) r)) line = Some m ->
  ~ In 1%nat (groupsOf r) ->
  exists c w tl, line = c :: w ++ tl /\ atom_test false a c = true
                 /\ grp m 1 = c :: w.
Proof.
  intros H Hn. apply (search_from_spec false) in H.
  destruct H as (k & _ & H & _). unfold exec_at in H.
  match type of H with
  | match ?e with _ => _ end = _ => destruct e as [res|] eqn:He; [|discriminate]
  end.
  injection H as <-. apply exec_sound in He.
  destruct He as (s0 & [Hk ->] & s1 & (mid & Hg & ->) & Hr).
  cbn [pos] in Hk. assert (k = 0%nat) by lia. subst k. cbn [skipn Nat.add] in *.
  pose proof (capture_kept false 1 _ r _ _ _ Hg Hr Hn) as Hcap.
  cbn [matches] in Hg. destruct Hg as (w & tl & Hline & Hw & Hlen & _ & ->).
  cbn [pos rest] in *. rewrite Hline in Hcap.
  replace (0 + length w - 0)%nat with (length w) in Hcap by lia.
  rewrite firstn_app_exact in Hcap.
  destruct w as [|c w]; [cbn in Hlen; lia|].
  cbn [forallb] in Hw. apply andb_true_iff in Hw. destruct Hw as [Hc _].
  exists c, w, tl. split; [exact Hline|]. split; [exact Hc|].
  unfold grp, group. cbn [groups]. rewrite Hcap. reflexivity.
Qed.

Lemma leading_capture_name (a : atom) (g : bool) (r : regex) (line : jsstring)
    (m : rmatch) :
  search false (Seq Bol (Seq (Grp 1 (Rep g 1 None a)) r)) line = Some m ->
  ~ In 1%nat (groupsOf r) -> startsUnspaced line ->
  trim (grp m 1) <> [].
Proof.
  intros H Hn (c0 & tl0 & Hline0 & Hc0).
  destruct (leading_capture a g r line m H Hn) as (c & w & tl & Hline & _ & ->).
  apply trim_unspaced. exists c, w. split; [reflexivity|].
  rewrite Hline0 in Hline. injection Hline as <- _. exact Hc0.
Qed.

(** The name captured by the quantity-name-price pattern. *)
Lemma quantityNamePrice_name (line : jsstring) (m : rmatch) :
  search false quantityNamePrice line = Some m ->
  exists D W1 N W2 dollar I F,
    line = D ++ W1 ++ N ++ W2 ++ amountText dollar I F
    /\ quantityLine D W1 N W2 dollar I F
    /\ grp m 2 = N.
Proof.
  intros H. apply (search_from_spec false) in H.
  destruct H as (k & _ & H & _). unfold exec_at in H.
  destruct (exec false quantityNamePrice (MState (0 + k) (skipn k line) [])
              (fun st => Some st)) as [res|] eqn:He; [|discriminate].
  injection H as <-. apply exec_sound in He.
  unfold quantityNamePrice in He. cbn [seq] in He.
  destruct He as (s0 & [Hk ->] & s1 & (s1' & Hqty & ->) & s2 & Hsp1 & s3
                  & (s3' & Hname & ->) & Hrest).
  pose proof (capture_kept false 2 _ _ _ _ _ Hname Hrest
                ltac:(vm_compute; intuition discriminate)) as Hcap.
  destruct Hrest as (s4 & Hsp2 & Hmoney).
  cbn [pos rest caps] in *. assert (k = 0%nat) by lia. subst k.
  simpl in Hqty, Hk.
  destruct Hqty as (D & tl & Hline & HD & HD1 & _ & ->).
  destruct Hsp1 as (W1 & tl1 & Htl & HW1 & HW11 & _ & ->).
  destruct Hname as (N & tl2 & Htl1 & HN & HN1 & _ & ->).
  destruct Hsp2 as (W2 & tl3 & Htl2 & HW2 & HW21 & _ & ->).
  cbn [pos rest caps] in *.
  apply money_found in Hmoney. destruct Hmoney as (dollar & I & F & Htl3 & Ham).
  cbn [rest] in Htl3.
  exists D, W1, N, W2, dollar, I, F. split; [|split].
  - rewrite Hline, Htl, Htl1, Htl2, Htl3. reflexivity.
  - assert (Hne : forall (l : jsstring), (1 <= length l)%nat -> l <> [])
      by (intros l Hl ->; simpl in Hl; lia).
    unfold quantityLine. repeat split; auto; try apply Ham.
    + rewrite <- HD. apply forallb_same. intros a. symmetry. apply digit_test.
    + rewrite <- HW1. apply forallb_same. intros a. symmetry. apply space_test.
    + rewrite <- HW2. apply forallb_same. intros a. symmetry. apply space_test.
  - unfold grp, group. cbn [groups]. rewrite Hcap, Htl1.
    replace (length D + length W1 + length N - (length D + length W1))%nat
      with (length N) by lia.
    apply firstn_app_exact.
Qed.

(** When the name-and-price pattern does not match, the name captured by
    the quantity-name-price pattern is more than white space. *)
Lemma quantityNamePrice_name_unspaced (line : jsstring) (m : rmatch) :
  search false namePrice line = None ->
  search false quantityNamePrice line = Some m ->
  trim (grp m 2) <> [].
Proof.
  intros Hnone H. apply quantityNamePrice_name in H.
  destruct H as (D & W1 & N & W2 & dollar & I & F & Hline & Hq & ->).
  destruct Hq as (HD & HDd & HW1 & HW1s & HN & HNd & HW2 & HW2s & Ham).
  intros Htrim. apply trim_nil in Htrim.
  destruct (namePrice_matches D (W1 ++ N ++ W2) dollar I F) as [m' Hm']; auto.
  - apply (forallb_impl isDigit notLineTerminator D digit_not_terminator HDd).
  - destruct W1; [congruence|discriminate].
  - rewrite !forallb_app, HW1s, Htrim, HW2s. reflexivity.
  - rewrite <- !app_assoc in Hm'. rewrite <- Hline in Hm'. congruence.
Qed.

Lemma extractLineItem_name (line nextLine : jsstring) (item : LineItem) :
  startsUnspaced line -> extractLineItem line nextLine = Some item ->
  name item <> [].
Proof.
  intros Hline. unfold extractLineItem.
  destruct (isNonItemLine line); [discriminate|].
  unfold itemPatterns. cbn [extractLineItemFrom].
  destruct (search false namePrice line) as [m0|] eqn:H0.
  { cbn [itemCase]. intros H. injection H as <-. cbn [name].
    apply (leading_capture_name Dot false _ line m0 H0);
      [vm_compute; intuition discriminate|exact Hline]. }
  destruct (search false quantityNamePrice line) as [m1|] eqn:H1.
  { cbn [itemCase]. intros H. injection H as <-. cbn [name].
    apply (quantityNamePrice_name_unspaced line m1 H0 H1). }
  destruct (search false nameAtUnitPrice line) as [m2|] eqn:H2.
  { cbn [itemCase]. intros H. injection H as <-. cbn [name].
    apply (leading_capture_name Dot false _ line m2 H2);
      [vm_compute; intuition discriminate|exact Hline]. }
  destruct (search false nameOnly line) as [m3|] eqn:H3; [|discriminate].
  cbn [itemCase].
  destruct (search false priceOnly nextLine) as [pm|]; [|discriminate].
  intros H. injection H as <-. cbn [name].
  apply (search_from_spec false) in H3.
  destruct H3 as (k & _ & H3 & _). unfold exec_at in H3.
  destruct (exec false nameOnly (MState (0 + k) (skipn k line) [])
              (fun st => Some st)) as [res|] eqn:He; [|discriminate].
  injection H3 as <-. apply exec_sound in He.
  unfold nameOnly in He. cbn [seq] in He.
  destruct He as (s0 & [Hk ->] & s1 & (mid & Hg & ->) & [_ ->]).
  cbn [pos] in Hk. assert (k = 0%nat) by lia. subst k. cbn [skipn Nat.add] in *.
  cbn [matches] in Hg. destruct Hg as (ml & (c & tl & Hl & Hc & ->) & Hdots).
  destruct Hdots as (w & tl' & Htl & _ & _ & _ & ->).
  cbn [pos rest caps] in *. unfold grp, group. cbn [groups assoc Nat.eqb].
  rewrite Hl, Htl.
  replace (1 + length w - 0)%nat with (length (c :: w)) by (cbn [length]; lia).
  change (c :: w ++ tl') with ((c :: w) ++ tl'). rewrite firstn_app_exact.
  apply trim_unspaced. exists c, w. split; [reflexivity|].
  destruct Hline as (c0 & tl0 & Hline0 & Hc0).
  rewrite Hline0 in Hl. injection Hl as -> _. exact Hc0.
Qed.

End ItemNames.

Section NamedItems.
Import Receipt Num.

Definition named (it : LineItem) : Prop := name it <> [].

Lemma processLines_named (extractDate : jsstring -> js (option jsstring))
    (lines : list jsstring) :
  Forall startsUnspaced lines ->
  forall (i : nat) (r r' : ParsedReceipt),
  processLines extractDate i lines r = Ok r' ->
  Forall named (items r) -> Forall named (items r').
Proof.
  induction 1 as [|line tl Hline _ IH]; intros i r r' H Hr.
  - injection H as <-. exact Hr.
  - cbn [processLines] in H.
    destruct (processLine extractDate i line (hd [] tl) r) as [r1|e] eqn:H1;
      [|discriminate].
    cbn [js_bind] in H. apply (IH _ _ _ H). unfold processLine in H1.
    destruct (extractDate line) as [dateMatch|e]; [|discriminate].
    cbn [js_bind] in H1. injection H1 as <-. cbn [items].
    destruct (extractLineItem line (hd [] tl)) as [item|] eqn:Hitem; [|exact Hr].
    apply Forall_app. split; [exact Hr|]. constructor; [|constructor].
    apply (extractLineItem_name line (hd [] tl) item Hline Hitem).
Qed.

Lemma dedup_named (l : list LineItem) :
  Forall named l -> Forall named (removeDuplicateItems l).
Proof.
  intros H. apply Forall_forall. intros it Hin.
  apply (in_map itemKey) in Hin. apply (proj1 (dedup_keys l _)) in Hin.
  apply in_map_iff in Hin. destruct Hin as (x & Hkey & Hx).
  rewrite Forall_forall in H. specialize (H x Hx). unfold named in *.
  unfold itemKey in Hkey. injection Hkey as Hname _. rewrite <- Hname. exact H.
Qed.

(** X23: every item of a record returned by [parseReceiptText] of either
    service has a name that is not empty: a name is captured from the
    start of a trimmed line, or starts with a letter, or is what the
    quantity pattern captured on a line the name-and-price pattern could
    not read, which is then more than white space; merging duplicates keeps
    the names. *)
Theorem parsed_items_are_named (E : env) (text : jsstring) (r : ParsedReceipt) :
  OcrService.parseReceiptText E text = Ok r
  \/ TesseractOcrService.parseReceiptText E text = Ok r ->
  Forall (fun item => name item <> []) (items r).
Proof.
  intros [H|H]; unfold OcrService.parseReceiptText,
    TesseractOcrService.parseReceiptText, parseReceiptTextWith in H;
    destruct (trim text); try discriminate;
    match type of H with
    | js_bind ?p _ = _ => destruct p as [d|e] eqn:Hd; [|discriminate]
    end;
    cbn [js_bind] in H; injection H as <-;
    apply (processLines_named _ _ (linesOf_unspaced text)) in Hd;
    try (cbn [emptyResult items]; constructor);
    destruct (validated_items E d) as [V V'].
  - rewrite V. apply dedup_named, Hd.
  - rewrite V'. apply dedup_named, Hd.
Qed.

Lemma parsed_items_are_named_witness :
  exists r,
    OcrService.parseReceiptText (utcHost 2024 6 1)
      (unlines ["SuperMart"; "Milk $3.50"; "2 Bread $4.00"]) = Ok r
    /\ Forall (fun item => name item <> []) (items r).
Proof.
  destruct (OcrService.parseReceiptText (utcHost 2024 6 1)
              (unlines ["SuperMart"; "Milk $3.50"; "2 Bread $4.00"]))
    as [r|e] eqn:H; [|vm_compute in H; discriminate H].
  exists r. split; [reflexivity|].
  exact (parsed_items_are_named _ _ r (or_introl H)).
Defined.

End NamedItems.

(** ** Lines that are no items, parsers that cannot throw *)

Section Alternatives.
Variable ic : bool.

Lemma alt_intro (rs : list regex) (r : regex) (st st' : mstate) :
  In r rs -> matches ic r st st' -> matches ic (alt rs) st st'.
Proof.
  induction rs as [|r0 tl IH]; intros Hin H; [destruct Hin|].
  destruct tl as [|r1 tl].
  - destruct Hin as [<-|[]]. exact H.
  - change (alt (r0 :: r1 :: tl)) with (Alt r0 (alt (r1 :: tl))). cbn [matches].
    destruct Hin as [<-|Hin]; [left; exact H|right; apply IH; assumption].
Qed.

Lemma alt_inv (rs : list regex) (st st' : mstate) :
  matches ic (alt rs) st st' -> exists r, In r rs /\ matches ic r st st'.
Proof.
  induction rs as [|r0 tl IH]; intros H.
  - cbn [alt matches] in H. destruct H as [_ H]. exfalso. apply H.
    exists st. reflexivity.
  - destruct tl as [|r1 tl].
    + exists r0. split; [left; reflexivity|exact H].
    + change (alt (r0 :: r1 :: tl)) with (Alt r0 (alt (r1 :: tl))) in H.
      cbn [matches] in H. destruct H as [H|H].
      * exists r0. split; [left; reflexivity|exact H].
      * destruct (IH H) as (r & Hr & Hm). exists r. split; [right; exact Hr|exact Hm].
Qed.

(** A text that passes the test of a word passes the test of any list of
    words holding it. *)
Lemma words_test (ws : list string) (w : string) (line : jsstring) :
  In w ws -> test ic (word w) line = true -> test ic (words ws) line = true.
Proof.
  intros Hin H. unfold test in H.
  destruct (search ic (word w) line) as [m|] eqn:Hm; [|discriminate].
  apply (search_from_spec ic) in Hm. destruct Hm as (k & Hk & Hm & _).
  unfold exec_at in Hm.
  destruct (exec ic (word w) (MState (0 + k) (skipn k line) []) (fun st => Some st))
    as [res|] eqn:He; [|discriminate].
  apply exec_sound in He.
  assert (Hw : matches ic (words ws) (MState (0 + k) (skipn k line) []) res)
    by (apply (alt_intro _ (word w)); [apply in_map, Hin|exact He]).
  apply (exec_complete ic) in Hw. destruct Hw as [res' Hres'].
  destruct (search_from_finds ic (words ws) line 0 k
              (RMatch (0 + k) (firstn (pos res' - (0 + k)) (skipn k line))
                 (caps res')) Hk) as [m' Hm'].
  { unfold exec_at. rewrite Hres'. reflexivity. }
  unfold test, search. rewrite Hm'. reflexivity.
Qed.

End Alternatives.

Section TotalLines.
Import Receipt Num.

(** X24: a line on which an amount follows the word total, tax or
    subtotal is never read as an item.  The other labels are not excluded:
    'Amount $5.00' gives a total of 5.00 and an item named Amount. *)
Theorem total_lines_are_not_items :
  (forall (line nextLine : jsstring) (w : string) (m : rmatch),
     In w ["total"; "tax"; "subtotal"] ->
     search true (labelled (word w)) line = Some m ->
     isNonItemLine line = true /\ extractLineItem line nextLine = None)
  /\ extractTotal (lit "Amount $5.00") = Some 5%float
  /\ extractLineItem (lit "Amount $5.00") []
     = Some (Item (lit "Amount") 5%float 1%float None).
Proof.
  split; [|split; reflexivity].
  intros line nextLine w m Hw Hm.
  assert (Hnon : isNonItemLine line = true).
  { apply labelled_word_found in Hm.
    unfold isNonItemLine, nonItemPatterns. cbn [existsb fst snd].
    rewrite (words_test true ["total"; "subtotal"; "tax"; "discount"; "change"] w line);
      [reflexivity| |exact Hm].
    cbn [In] in *. intuition. }
  split; [exact Hnon|]. unfold extractLineItem. rewrite Hnon. reflexivity.
Qed.

End TotalLines.

Section MonthNames.
Import DateParser.
#[local] Open Scope Z_scope.

Lemma exec_all_In (ic : bool) (r : regex) (s : jsstring) :
  forall i skip m, In m (exec_all ic r i skip s) ->
  exists j s', exec_at ic r j s' = Some m.
Proof.
  induction s as [|c tl IH]; intros i skip m Hin.
  - destruct skip; cbn [exec_all] in Hin; [|destruct Hin].
    destruct (exec_at ic r i []) as [m'|] eqn:He; [|destruct Hin].
    destruct Hin as [<-|[]]. exists i, []. exact He.
  - destruct skip as [|n]; cbn [exec_all] in Hin; [|apply (IH _ _ _ Hin)].
    destruct (exec_at ic r i (c :: tl)) as [m'|] eqn:He; [|apply (IH _ _ _ Hin)].
    destruct Hin as [<-|Hin]; [exists i, (c :: tl); exact He|apply (IH _ _ _ Hin)].
Qed.

Lemma fold_case (c a : char) : N.eqb (upper c) (upper a) = true -> lower c = lower a.
Proof.
  intros H. apply N.eqb_eq in H. revert H.
  unfold upper, lower, isUpper, isLower, between.
  destruct (N.leb 97 c) eqn:C1, (N.leb c 122) eqn:C2, (N.leb 97 a) eqn:A1,
    (N.leb a 122) eqn:A2, (N.leb 65 c) eqn:C3, (N.leb c 90) eqn:C4,
    (N.leb 65 a) eqn:A3, (N.leb a 90) eqn:A4; cbn [andb];
    repeat match goal with
    | H : N.leb _ _ = true |- _ => apply N.leb_le in H
    | H : N.leb _ _ = false |- _ => apply N.leb_gt in H
    end; lia.
Qed.

Lemma spells_lower (w : list ascii) (u : jsstring) :
  spells true w u -> toLowerCase u = toLowerCase (map ch w).
Proof.
  induction 1 as [|a c w u Hc _ IH]; [reflexivity|].
  cbn [map toLowerCase] in *. unfold toLowerCase in IH. rewrite IH. f_equal.
  cbn [atom_test existsb item_test] in Hc. rewrite orb_false_r in Hc.
  apply fold_case, Hc.
Qed.

(** What a captured list of words holds. *)
Lemma words_capture (ws : list string) (st mid : mstate) :
  matches true (words ws) st mid ->
  exists w, In w ws
    /\ toLowerCase (firstn (pos mid - pos st) (rest st)) = toLowerCase (lit w).
Proof.
  intros H. pose proof H as Hadv.
  apply (matches_consumed true (fun _ => true) _ (consumes_anything true _)) in Hadv.
  destruct Hadv as (u' & Hu' & Hpos & _).
  apply alt_inv in H. destruct H as (r & Hr & H).
  apply in_map_iff in Hr. destruct Hr as (w & <- & Hw).
  apply letters_match in H. destruct H as (u & Hu & Hrest).
  exists w. split; [exact Hw|].
  rewrite Hu' in Hrest. apply app_inv_tail in Hrest. subst u'.
  rewrite Hpos, Hu'. replace (pos st + length u - pos st)%nat with (length u) by lia.
  rewrite firstn_app_exact. apply spells_lower, Hu.
Qed.

Lemma month_known (ws : list string) (g : jsstring) :
  (exists w, In w ws /\ toLowerCase g = toLowerCase (lit w)) ->
  forallb (fun w => match lookup (toLowerCase (lit w)) monthMap with
                    | Some _ => true | None => false end) ws = true ->
  exists month, lookup (toLowerCase g) monthMap = Some month.
Proof.
  intros (w & Hw & ->) Hall. rewrite forallb_forall in Hall. specialize (Hall w Hw).
  destruct (lookup (toLowerCase (lit w)) monthMap) as [month|]; [|discriminate].
  exists month. reflexivity.
Qed.

Definition shortNames : list string :=
  ["Jan"; "Feb"; "Mar"; "Apr"; "May"; "Jun";
   "Jul"; "Aug"; "Sep"; "Oct"; "Nov"; "Dec"].
Definition fullNames : list string :=
  ["January"; "February"; "March"; "April"; "May"; "June"; "July";
   "August"; "September"; "October"; "November"; "December"].

(** X25: of the parsers of the pattern table, only those of the two
    numeric full-year patterns can throw: on every match of any other
    pattern the parser returns a date, valid or not.  In particular a
    month name captured by one of the three month-name patterns is always
    found in the month table, in whatever case it is written. *)
Theorem only_numeric_parsers_throw (E : env) (text : jsstring) (p : datePattern)
    (m : rmatch) :
  In p (datePatterns E) -> In m (matchAll (icase p) (pattern p) text) ->
  type p <> US_FULL -> type p <> EU_FULL ->
  exists d, parser p m = Ok d.
Proof.
  intros Hp Hm Hus Heu. unfold datePatterns in Hp. cbn [In] in Hp.
  destruct Hp as [<-|[<-|[<-|[<-|[<-|[<-|[<-|[<-|[<-|[<-|[<-|[]]]]]]]]]]]];
    cbn [type parser icase pattern usFull euFull] in *;
    try congruence; try (eexists; reflexivity);
    apply exec_all_In in Hm; destruct Hm as (j & s' & Hm); unfold exec_at in Hm;
    match type of Hm with
    | match ?e with _ => _ end = _ => destruct e as [res|] eqn:He; [|discriminate]
    end;
    injection Hm as <-; apply exec_sound in He; cbn [seq] in He;
    unfold parseMonthNameDate, grp, group; cbn [groups].
  - destruct He as (s1 & (mid & Hname & ->) & Hrest).
    rewrite (capture_kept true 1 _ _ _ _ _ Hname Hrest
               ltac:(vm_compute; intuition discriminate)).
    destruct (month_known shortNames _ (words_capture _ _ _ Hname) eq_refl)
      as [month ->].
    eexists. reflexivity.
  - destruct He as (s1 & (mid & Hname & ->) & Hrest).
    rewrite (capture_kept true 1 _ _ _ _ _ Hname Hrest
               ltac:(vm_compute; intuition discriminate)).
    destruct (month_known fullNames _ (words_capture _ _ _ Hname) eq_refl)
      as [month ->].
    eexists. reflexivity.
  - destruct He as (s1 & _ & s2 & _ & s3 & (mid & Hname & ->) & Hrest).
    rewrite (capture_kept true 2 _ _ _ _ _ Hname Hrest
               ltac:(vm_compute; intuition discriminate)).
    destruct (month_known fullNames _ (words_capture _ _ _ Hname) eq_refl)
      as [month ->].
    eexists. reflexivity.
Qed.

End MonthNames.

Section MonthNamesExamples.
Import DateParser.

Lemma only_numeric_parsers_throw_witness :
  exists d,
    parser (nth 4 (datePatterns (utcHost 2024 6 1)) (usFull (utcHost 2024 6 1)))
      (RMatch 0 (lit "Jan 5, 2024")
         [(3%nat, lit "2024"); (2%nat, lit "5"); (1%nat, lit "Jan")])
    = Ok d.
Proof.
  apply (only_numeric_parsers_throw (utcHost 2024 6 1) (lit "Jan 5, 2024")).
  - do 4 right. left. reflexivity.
  - vm_compute. left. reflexivity.
  - discriminate.
  - discriminate.
Defined.

End MonthNamesExamples.

Section SearchBlind.
Variable ic : bool.
Variable R : char -> char -> Prop.

Lemma search_from_blind (r : regex) (s s' : jsstring) :
  regex_blind ic R r -> Forall2 R s s' ->
  forall i, optR (rmatchR R) (search_from ic r i s) (search_from ic r i s').
Proof.
  intros Hr. induction 1 as [|c c' s s' Hc Hs IH]; intros i; cbn [search_from].
  - pose proof (exec_at_blind ic R r i [] [] Hr (Forall2_nil R)) as He.
    destruct (exec_at ic r i []); exact He.
  - pose proof (exec_at_blind ic R r i (c :: s) (c' :: s') Hr
                  (Forall2_cons c c' Hc Hs)) as He.
    destruct (exec_at ic r i (c :: s)) as [m|],
      (exec_at ic r i (c' :: s')) as [m'|]; cbn [optR] in He; try contradiction.
    + exact He.
    + apply IH.
Qed.

Lemma test_blind (r : regex) (s s' : jsstring) :
  regex_blind ic R r -> Forall2 R s s' -> test ic r s = test ic r s'.
Proof.
  intros Hr Hs. pose proof (search_from_blind r s s' Hr Hs 0) as Hb.
  unfold test, search.
  destruct (search_from ic r 0 s), (search_from ic r 0 s');
    cbn [optR] in Hb; try contradiction; reflexivity.
Qed.

End SearchBlind.

(* ===================================================================== *)
(** * What the sort of the candidates looks at *)
(* ===================================================================== *)

Section Keys.
Import DateParser.
#[local] Open Scope Z_scope.
Variable E : env.

(** The time value and the confidence of a candidate: all that the
    comparator of the sort reads. *)
Definition key (f : found) : Z * Z := (fdate f, confidence f).

Definition beforeKey (a b : Z * Z) : bool :=
  if negb (snd b =? snd a) then snd b - snd a <=? 0
  else Z.abs (now E - fst a) - Z.abs (now E - fst b) <=? 0.

Fixpoint insertKey (x : Z * Z) (l : list (Z * Z)) : list (Z * Z) :=
  match l with
  | [] => [x]
  | y :: tl => if beforeKey y x then y :: insertKey x tl else x :: l
  end.

Definition sortKeys (l : list (Z * Z)) : list (Z * Z) :=
  fold_left (fun acc x => insertKey x acc) l [].

(** The date returned for candidates with the given keys. *)
Definition bestOf (l : list (Z * Z)) : option jsstring :=
  match sortKeys l with
  | [] => None
  | k :: _ => Some (isoDatePart (fst k))
  end.

Lemma insert_key (x : found) (l : list found) :
  map key (insert E x l) = insertKey (key x) (map key l).
Proof.
  induction l as [|y l IH]; [reflexivity|]. cbn [insert map insertKey].
  change (beforeKey (key y) (key x)) with (before E y x).
  destruct (before E y x); cbn [map]; [rewrite IH|]; reflexivity.
Qed.

Lemma sort_keys (l : list found) : map key (sort E l) = sortKeys (map key l).
Proof.
  unfold sort, sortKeys.
  assert (H : forall acc,
             map key (fold_left (fun acc x => insert E x acc) l acc)
             = fold_left (fun acc x => insertKey x acc) (map key l) (map key acc)).
  { induction l as [|x l IH]; intros acc; [reflexivity|].
    cbn [fold_left map]. rewrite IH, insert_key. reflexivity. }
  exact (H []).
Qed.

Lemma extract_by_keys (text : jsstring) :
  text <> [] ->
  extractDateFromText E text = Ok (bestOf (map key (foundDates E text))).
Proof.
  intros Ht. unfold extractDateFromText, bestOf.
  destruct text as [|c text]; [contradiction Ht; reflexivity|].
  rewrite <- sort_keys.
  destruct (sort E (foundDates E (c :: text))) as [|f l]; reflexivity.
Qed.

(** A parsed date that passes [isValidDate]. *)
Definition validReading (d : date) : option Z :=
  if isValidDate E d then d else None.

Definition optkey (o : option Z) (c : Z) : list (Z * Z) :=
  match o with Some t => [(t, c)] | None => [] end.

Lemma candidate_keys (text : jsstring) (p : datePattern) (m : rmatch) :
  map key (candidate E text p m)
  = match parser p m with
    | Ok d => optkey (validReading d)
                (calculateDateConfidence (matched m) (type p) text)
    | Throw _ => []
    end.
Proof.
  unfold candidate, try_catch, js_bind, validReading.
  destruct (parser p m) as [d|e]; [|reflexivity].
  destruct (isValidDate E d) eqn:Hv; [|reflexivity].
  destruct d; reflexivity.
Qed.

(** The reading of a numeric date with the month and the day as given,
    as [parseUSDate] and [parseEuropeanDate] make it: none for a month
    above 12 or a day above 31, none for a date [isValidDate] rejects. *)
Definition checkedReading (month day year : jsstring) : option Z :=
  if (12 <? parseInt month) || (31 <? parseInt day) then None
  else validReading (newDate E (normalizeYear (parseInt year))
                       (parseInt month - 1) (parseInt day)).

Lemma us_reading (month day year : jsstring) (c : Z) :
  match parseUSDate E month day year with
  | Ok d => optkey (validReading d) c
  | Throw _ => []
  end = optkey (checkedReading month day year) c.
Proof.
  unfold parseUSDate, checkedReading.
  destruct ((12 <? parseInt month) || (31 <? parseInt day)); reflexivity.
Qed.

Lemma eu_reading (day month year : jsstring) (c : Z) :
  match parseEuropeanDate E day month year with
  | Ok d => optkey (validReading d) c
  | Throw _ => []
  end = optkey (checkedReading month day year) c.
Proof.
  unfold parseEuropeanDate, checkedReading.
  destruct ((12 <? parseInt month) || (31 <? parseInt day)); reflexivity.
Qed.

(** The keys of the candidates the table gives for the matches [tab] of
    its patterns. *)
Definition keysFrom (text : jsstring) (tab : list (list rmatch)) : list (Z * Z) :=
  concat (map (fun pl => flat_map (fun m => map key (candidate E text (fst pl) m))
                           (snd pl))
            (combine (datePatterns E) tab)).

Lemma map_flat_map {A B C} (f : B -> C) (g : A -> list B) (l : list A) :
  map f (flat_map g l) = flat_map (fun a => map f (g a)) l.
Proof.
  induction l as [|a l IH]; [reflexivity|]. cbn [flat_map].
  rewrite map_app, IH. reflexivity.
Qed.

Lemma foundDates_keys (text : jsstring) :
  map key (foundDates E text) = keysFrom text (matchTable E text).
Proof.
  unfold foundDates, keysFrom, matchTable.
  rewrite (flat_map_table (fun p => matchAll (icase p) (pattern p) text)
             (candidate E text) (datePatterns E)).
  rewrite concat_map, map_map. f_equal. apply map_ext. intros [p l].
  cbn [fst snd]. apply map_flat_map.
Qed.

(** Every parser of the table reads the captures of the match only. *)
Definition groupParser (p : datePattern) : Prop :=
  forall m m', groups m = groups m' -> parser p m = parser p m'.

Lemma table_groupParsers : Forall groupParser (datePatterns E).
Proof.
  unfold datePatterns.
  repeat (constructor;
          [intros [i s g] [i' s' g'] H; cbn [groups] in H; subst g';
           reflexivity|]).
  constructor.
Qed.

End Keys.

(* ===================================================================== *)
(** * Texts that differ in their digits *)
(* ===================================================================== *)

Section Related.
Import DateParser.
#[local] Open Scope Z_scope.

Lemma unique_decode (c0 : char) (L L0 : jsstring) (c : char) :
  (length (filter (N.eqb c0) L0) <= 1)%nat ->
  In (c, c0) (combine L L0) -> c = decode L L0 c0.
Proof.
  revert L0. induction L as [|x L IH]; intros [|x0 L0] Hu Hin;
    try (destruct Hin; fail).
  unfold decode. cbn [combine find snd fst] in *.
  destruct (N.eqb x0 c0) eqn:Hx.
  - cbn [fst]. destruct Hin as [Hin|Hin]; [injection Hin as -> _; reflexivity|].
    apply N.eqb_eq in Hx. subst x0. cbn [filter] in Hu.
    rewrite N.eqb_refl in Hu. cbn [length] in Hu.
    apply in_combine_r in Hin.
    assert (Hf : In c0 (filter (N.eqb c0) L0)).
    { apply filter_In. split; [exact Hin|apply N.eqb_refl]. }
    destruct (filter (N.eqb c0) L0); [destruct Hf|cbn [length] in Hu; lia].
  - destruct Hin as [Hin|Hin].
    + injection Hin as _ ->. rewrite N.eqb_refl in Hx. discriminate Hx.
    + cbn [filter] in Hu. rewrite N.eqb_sym, Hx in Hu.
      exact (IH L0 Hu Hin).
Qed.

Variables T T0 : jsstring.
Hypothesis Hlen : length T = length T0.
Hypothesis HR : digitwise (paired T T0).

(** The character is no digit, or stands at one position of [T0] at
    most: the character of [T] at its positions is then known. *)
Definition uniqueIn (c0 : char) : bool :=
  negb (isDigit c0) || (length (filter (N.eqb c0) T0) <=? 1)%nat.

Lemma nondigit_decode (c c0 : char) :
  isDigit c0 = false -> paired T T0 c c0 -> c = decode T T0 c0.
Proof.
  intros Hd Hc.
  assert (Hsame : forall x, paired T T0 x c0 -> x = c0).
  { intros x Hx. destruct (HR x c0 Hx) as [->|[_ Hd']]; [reflexivity|].
    rewrite Hd in Hd'. discriminate Hd'. }
  rewrite (Hsame c Hc). unfold decode.
  destruct (find (fun p => N.eqb (snd p) c0) (combine T T0)) as [[x x0]|] eqn:Hf;
    [|reflexivity].
  apply find_some in Hf. destruct Hf as [Hin Hx0]. cbn [snd fst] in *.
  apply N.eqb_eq in Hx0. subst x0. symmetry. apply Hsame. exact Hin.
Qed.

Lemma related_text (X X0 : jsstring) :
  Forall2 (paired T T0) X X0 -> forallb uniqueIn X0 = true ->
  X = map (decode T T0) X0.
Proof.
  induction 1 as [|c c0 X X0 Hc _ IH]; [reflexivity|].
  cbn [forallb map]. intros Hu. apply andb_true_iff in Hu.
  destruct Hu as [Hu Hus]. rewrite <- (IH Hus). f_equal.
  unfold uniqueIn in Hu. apply orb_true_iff in Hu. destruct Hu as [Hu|Hu].
  - apply nondigit_decode; [apply negb_true_iff; exact Hu|exact Hc].
  - apply unique_decode; [|exact Hc]. apply Nat.leb_le. exact Hu.
Qed.

Definition groupsUnique (m0 : rmatch) : bool :=
  forallb (fun g => forallb uniqueIn (snd g)) (groups m0).

(** The match of [T0] with its captures read back in [T]. *)
Definition hybrid (m0 : rmatch) : rmatch :=
  RMatch (index m0) (matched m0)
    (map (fun g => (fst g, map (decode T T0) (snd g))) (groups m0)).

Lemma related_groups (m m0 : rmatch) :
  rmatchR (paired T T0) m m0 -> groupsUnique m0 = true ->
  groups m = groups (hybrid m0).
Proof.
  intros (_ & _ & Hg). unfold groupsUnique, hybrid. cbn [groups].
  induction Hg as [|[n s] [n0 s0] G G0 [Hn Hs] _ IH]; [reflexivity|].
  cbn [forallb map fst snd] in *. intros Hu. apply andb_true_iff in Hu.
  destruct Hu as [Hu Hus]. rewrite <- (IH Hus), <- (related_text _ _ Hs Hu), Hn.
  reflexivity.
Qed.

Lemma lower_digit (c : char) : isDigit c = true -> lower c = c.
Proof.
  unfold lower, isUpper, isDigit, between. intros H.
  apply andb_true_iff in H. destruct H as [H1 H2].
  apply N.leb_le in H1. apply N.leb_le in H2.
  replace (65 <=? c)%N with false by (symmetry; apply N.leb_gt; lia).
  reflexivity.
Qed.

Lemma startsWith_related (R : char -> char -> Prop) (w s s0 : jsstring) :
  digitwise R -> forallb (fun c => negb (isDigit c)) w = true ->
  Forall2 R s s0 ->
  startsWith w (toLowerCase s) = startsWith w (toLowerCase s0).
Proof.
  intros HRd Hw Hs. revert w Hw.
  induction Hs as [|c c0 s s0 Hc _ IH]; intros [|x w] Hw; try reflexivity.
  cbn [forallb] in Hw. apply andb_true_iff in Hw. destruct Hw as [Hx Hw].
  cbn [toLowerCase map startsWith]. fold (toLowerCase s). fold (toLowerCase s0).
  rewrite (IH w Hw). f_equal.
  destruct (HRd c c0 Hc) as [->|[Hd Hd0]]; [reflexivity|].
  rewrite (lower_digit c Hd), (lower_digit c0 Hd0).
  apply negb_true_iff in Hx.
  assert (H1 : N.eqb x c = false).
  { apply N.eqb_neq. intros ->. rewrite Hd in Hx. discriminate Hx. }
  assert (H2 : N.eqb x c0 = false).
  { apply N.eqb_neq. intros ->. rewrite Hd0 in Hx. discriminate Hx. }
  rewrite H1, H2. reflexivity.
Qed.

Lemma includes_related (R : char -> char -> Prop) (w s s0 : jsstring) :
  digitwise R -> forallb (fun c => negb (isDigit c)) w = true ->
  Forall2 R s s0 ->
  includes (toLowerCase s) w = includes (toLowerCase s0) w.
Proof.
  intros HRd Hw Hs. induction Hs as [|c c0 s s0 Hc Hs IH]; [reflexivity|].
  pose proof (startsWith_related R w (c :: s) (c0 :: s0) HRd Hw
                (Forall2_cons c c0 Hc Hs)) as H.
  cbn [toLowerCase map includes] in *. fold (toLowerCase s) in *.
  fold (toLowerCase s0) in *. rewrite H, IH. reflexivity.
Qed.

Lemma perfectISO_blind : regex_digit_blind false perfectISO = true.
Proof. vm_compute. reflexivity. Qed.

Lemma confidence_related (X X0 : jsstring) (ty : dateType) :
  Forall2 (paired T T0) X X0 ->
  calculateDateConfidence X ty T = calculateDateConfidence X0 ty T0.
Proof.
  intros HX. unfold calculateDateConfidence.
  pose proof (paired_texts T T0 Hlen) as HT.
  rewrite (includes_related (paired T T0) (lit "date"%string) T T0 HR eq_refl HT).
  rewrite (includes_related (paired T T0) (lit "transaction"%string) T T0 HR
             eq_refl HT).
  rewrite (includes_related (paired T T0) (lit "receipt"%string) T T0 HR
             eq_refl HT).
  rewrite (includes_related (paired T T0) (lit "purchase"%string) T T0 HR
             eq_refl HT).
  rewrite (Forall2_same_length _ _ _ HX).
  rewrite (test_blind false (paired T T0) perfectISO X X0
             (regex_digit_blind_sound false _ _ HR perfectISO_blind) HX).
  reflexivity.
Qed.

Lemma candidate_related (E : env) (p : datePattern) (m m0 : rmatch) :
  groupParser p -> rmatchR (paired T T0) m m0 -> groupsUnique m0 = true ->
  map key (candidate E T p m) = map key (candidate E T0 p (hybrid m0)).
Proof.
  intros Hp Hm Hu. rewrite !candidate_keys.
  rewrite (Hp m (hybrid m0) (related_groups m m0 Hm Hu)).
  destruct Hm as (_ & Hs & _).
  rewrite (confidence_related _ _ (type p) Hs). reflexivity.
Qed.

(** The candidates the table gives in [T] have the keys of those it gives
    in [T0], with the captures read back in [T]. *)
Lemma keys_related (E : env) :
  forallb (forallb groupsUnique) (matchTable E T0) = true ->
  map key (foundDates E T)
  = keysFrom E T0 (map (map hybrid) (matchTable E T0)).
Proof.
  intros Hu. rewrite foundDates_keys. unfold keysFrom.
  pose proof (matchTable_blind E (paired T T0) T T0 HR (paired_texts T T0 Hlen))
    as Htab.
  pose proof (table_groupParsers E) as Hps.
  revert Hu Htab Hps.
  generalize (matchTable E T) (matchTable E T0) (datePatterns E).
  intros tab tab0 ps Hu Htab. revert ps.
  induction Htab as [|l l0 tab tab0 Hl _ IH]; intros [|p ps] Hps;
    try reflexivity.
  cbn [forallb] in Hu. apply andb_true_iff in Hu. destruct Hu as [Hul Hu].
  inversion Hps as [|? ? Hp Hps']; subst.
  cbn [map combine concat fst snd]. rewrite (IH Hu ps Hps'). f_equal.
  clear IH. induction Hl as [|m m0 l l0 Hm _ IHl]; [reflexivity|].
  cbn [forallb] in Hul. apply andb_true_iff in Hul. destruct Hul as [Hum Hul].
  cbn [map flat_map]. rewrite (IHl Hul), (candidate_related E p m m0 Hp Hm Hum).
  reflexivity.
Qed.

End Related.

Section Families.
Import DateParser.
#[local] Open Scope Z_scope.

Ltac digit_pairs :=
  let c := fresh "c" in let c' := fresh "c" in let Hin := fresh "Hin" in
  intros c c' Hin; unfold paired in Hin; cbn [combine In] in Hin;
  repeat (destruct Hin as [Hin|Hin];
          [injection Hin as <- <-;
           first [left; reflexivity | right; split; [assumption|reflexivity]]|]);
  destruct Hin.

(** The keys of the candidates in a text [T] with the digits of [T0] in
    place of its own, by running the table on [T0]. *)
Ltac keys_by_template E T T0 :=
  let HR := fresh "HR" in let Hlen := fresh "Hlen" in let Hu := fresh "Hu" in
  assert (HR : digitwise (paired T T0)) by digit_pairs;
  assert (Hlen : length T = length T0) by reflexivity;
  assert (Hu : forallb (forallb (groupsUnique T0)) (matchTable E T0) = true)
    by (vm_compute; reflexivity);
  rewrite (keys_related T T0 Hlen HR E Hu);
  match goal with
  | |- context [matchTable E ?t0] =>
      let v := eval vm_compute in (matchTable E t0) in
      replace (matchTable E t0) with v by (vm_compute; reflexivity)
  end;
  unfold keysFrom, datePatterns;
  cbn [combine map concat flat_map fst snd app]; rewrite ?app_nil_r;
  rewrite !candidate_keys; cbn [parser type usFull euFull];
  rewrite ?us_reading, ?eu_reading;
  repeat match goal with
  | |- context [calculateDateConfidence ?x ?ty ?t] =>
      let v := eval vm_compute in (calculateDateConfidence x ty t) in
      replace (calculateDateConfidence x ty t) with v by (vm_compute; reflexivity)
  | |- context [grp (hybrid ?t ?t0 ?m) ?n] =>
      let v := eval vm_compute in (grp (hybrid t t0 m) n) in
      replace (grp (hybrid t t0 m) n) with v by (vm_compute; reflexivity)
  end.

Ltac split_digits H :=
  cbn [forallb] in H; repeat rewrite andb_true_iff in H;
  repeat match goal with H' : _ /\ _ |- _ => destruct H' end.








End Families.

Section Results.
Import DateParser.
#[local] Open Scope Z_scope.




Lemma bestOf_single (E : env) (o : option Z) (c : Z) :
  bestOf E (optkey o c) = option_map isoDatePart o.
Proof. destruct o; reflexivity. Qed.






Lemma bareDateText_nonempty (A B Y : jsstring) (s1 s2 : char) :
  bareDateText A B Y s1 s2 <> [].
Proof. unfold bareDateText. destruct A; discriminate. Qed.





End Results.

Section ShortYears.
Import Receipt DateParser.
#[local] Open Scope Z_scope.

Ltac digit_pairs :=
  let c := fresh "c" in let c' := fresh "c" in let Hin := fresh "Hin" in
  intros c c' Hin; unfold paired in Hin; cbn [combine In] in Hin;
  repeat (destruct Hin as [Hin|Hin];
          [injection Hin as <- <-;
           first [left; reflexivity | right; split; [assumption|reflexivity]]|]);
  destruct Hin.

Ltac keys_by_template E T T0 :=
  let HR := fresh "HR" in let Hlen := fresh "Hlen" in let Hu := fresh "Hu" in
  assert (HR : digitwise (paired T T0)) by digit_pairs;
  assert (Hlen : length T = length T0) by reflexivity;
  assert (Hu : forallb (forallb (groupsUnique T0)) (matchTable E T0) = true)
    by (vm_compute; reflexivity);
  rewrite (keys_related T T0 Hlen HR E Hu);
  match goal with
  | |- context [matchTable E ?t0] =>
      let v := eval vm_compute in (matchTable E t0) in
      replace (matchTable E t0) with v by (vm_compute; reflexivity)
  end;
  unfold keysFrom, datePatterns;
  cbn [combine map concat flat_map fst snd app]; rewrite ?app_nil_r;
  rewrite !candidate_keys; cbn [parser type usFull euFull];
  rewrite ?us_reading, ?eu_reading;
  repeat match goal with
  | |- context [calculateDateConfidence ?x ?ty ?t] =>
      let v := eval vm_compute in (calculateDateConfidence x ty t) in
      replace (calculateDateConfidence x ty t) with v by (vm_compute; reflexivity)
  | |- context [grp (hybrid ?t ?t0 ?m) ?n] =>
      let v := eval vm_compute in (grp (hybrid t t0 m) n) in
      replace (grp (hybrid t t0 m) n) with v by (vm_compute; reflexivity)
  end.

Ltac split_digits H :=
  cbn [forallb] in H; repeat rewrite andb_true_iff in H;
  repeat match goal with H' : _ /\ _ |- _ => destruct H' end.

(** A date with a two-digit year: one or two digits, a separator, one or
    two digits, a separator, two digits. *)
Definition isShortDate (A B YY : jsstring) (s1 s2 : char) : Prop :=
  forallb isDigit A = true /\ (1 <= length A <= 2)%nat
  /\ forallb isDigit B = true /\ (1 <= length B <= 2)%nat
  /\ forallb isDigit YY = true /\ length YY = 2%nat
  /\ isSeparator s1 /\ isSeparator s2.

(** The century a two-digit year is put in: the 2000s up to the pivot,
    the 1900s above it. *)
Definition century (pivot : Z) (YY : jsstring) : jsstring :=
  if parseInt YY <=? pivot then lit "20" else lit "19".

Lemma two_digits_value (y1 y2 : char) :
  isDigit y1 = true -> isDigit y2 = true ->
  0 <= parseInt [y1; y2] <= 99
  /\ parseInt (lit "20" ++ [y1; y2]) = 2000 + parseInt [y1; y2]
  /\ parseInt (lit "19" ++ [y1; y2]) = 1900 + parseInt [y1; y2].
Proof.
  unfold isDigit, between. intros H1 H2.
  apply andb_true_iff in H1. apply andb_true_iff in H2.
  destruct H1 as [H1 H1']. destruct H2 as [H2 H2'].
  apply N.leb_le in H1, H1', H2, H2'.
  unfold parseInt, digitsValue. cbn [lit list_ascii_of_string map app fold_left].
  change (N_of_ascii "2") with 50%N. change (N_of_ascii "0") with 48%N.
  change (N_of_ascii "1") with 49%N. change (N_of_ascii "9") with 57%N.
  lia.
Qed.

Lemma two_digits_printed (y1 y2 : char) :
  isDigit y1 = true -> isDigit y2 = true ->
  natToString (Z.to_N (2000 + parseInt [y1; y2])) = lit "20" ++ [y1; y2]
  /\ natToString (Z.to_N (1900 + parseInt [y1; y2])) = lit "19" ++ [y1; y2].
Proof.
  intros H1 H2. apply digit_cases in H1. apply digit_cases in H2.
  unfold digitChars in *. cbn [In] in H1, H2.
  repeat (destruct H1 as [<-|H1]; [|]); try (destruct H1);
    repeat (destruct H2 as [<-|H2]; [|]); try (destruct H2);
    split; vm_compute; reflexivity.
Qed.

(** [normalizeYear] on a two-digit year gives the year with its century
    written out, pivot 30, and leaves that year as it is. *)
Lemma normalizeYear_two_digits (YY : jsstring) :
  forallb isDigit YY = true -> length YY = 2%nat ->
  normalizeYear (parseInt YY) = parseInt (century 30 YY ++ YY)
  /\ normalizeYear (parseInt (century 30 YY ++ YY)) = parseInt (century 30 YY ++ YY)
  /\ parseInt (century 30 YY ++ YY)
     = (if parseInt YY <=? 30 then 2000 + parseInt YY else 1900 + parseInt YY).
Proof.
  intros HY HlY.
  destruct YY as [|y1 [|y2 [|? ?]]]; try discriminate HlY.
  split_digits HY.
  match goal with
  | H1 : isDigit y1 = true, H2 : isDigit y2 = true |- _ =>
      destruct (two_digits_value y1 y2 H1 H2) as (Hr & H20 & H19)
  end.
  unfold century, normalizeYear.
  destruct (parseInt [y1; y2] <=? 30) eqn:Hp.
  - rewrite H20. apply Z.leb_le in Hp.
    replace (1900 <=? parseInt [y1; y2]) with false
      by (symmetry; apply Z.leb_gt; lia).
    replace (parseInt [y1; y2] <=? 99) with true
      by (symmetry; apply Z.leb_le; lia).
    replace (1900 <=? 2000 + parseInt [y1; y2]) with true
      by (symmetry; apply Z.leb_le; lia).
    repeat split.
  - rewrite H19. apply Z.leb_gt in Hp.
    replace (1900 <=? parseInt [y1; y2]) with false
      by (symmetry; apply Z.leb_gt; lia).
    replace (parseInt [y1; y2] <=? 99) with true
      by (symmetry; apply Z.leb_le; lia).
    replace (1900 <=? 1900 + parseInt [y1; y2]) with true
      by (symmetry; apply Z.leb_le; lia).
    repeat split.
Qed.

Lemma parseShortYear_ambiguous (E : env) (first second year : jsstring) :
  parseShortYear E first second year = parseAmbiguousDate E first second year.
Proof.
  unfold parseShortYear, parseAmbiguousDate.
  assert (Hy : normalizeYear
                 (parseInt (natToString (Z.to_N (normalizeYear (parseInt year)))))
               = normalizeYear (parseInt year)).
  { assert (H0 : 0 <= parseInt year) by (unfold parseInt; lia).
    pose proof (normalizeYear_range _ H0) as Hr.
    unfold parseInt at 1. rewrite natToString_value, Z2N.id by lia.
    apply normalizeYear_fixed, Hr. }
  rewrite Hy. reflexivity.
Qed.

(** In a text that is one date with a two-digit year, the short-year
    pattern alone matches. *)
Lemma short_date_keys (E : env) (A B YY : jsstring) (s1 s2 : char) :
  isShortDate A B YY s1 s2 ->
  exists c,
    map key (foundDates E (bareDateText A B YY s1 s2))
    = optkey (validReading E (parseShortYear E A B YY)) c.
Proof.
  intros (HA & HlA & HB & HlB & HY & HlY & Hs1 & Hs2).
  destruct A as [|a1 [|a2 [|? ?]]]; cbn [length] in HlA; try lia;
  destruct B as [|b1 [|b2 [|? ?]]]; cbn [length] in HlB; try lia;
  destruct YY as [|y1 [|y2 [|? ?]]]; try discriminate HlY;
  split_digits HA; split_digits HB; split_digits HY;
  destruct Hs1 as [-> | [-> | ->]]; destruct Hs2 as [-> | [-> | ->]];
  eexists;
  match goal with
  | |- context [foundDates E (bareDateText ?a ?b ?y ?s1 ?s2)] =>
      keys_by_template E (bareDateText a b y s1 s2)
        (bareDateText (labels 0 a) (labels 2 b) (labels 4 y) s1 s2)
  end;
  reflexivity.
Qed.

Lemma short_date_result (E : env) (A B YY : jsstring) (s1 s2 : char) :
  isShortDate A B YY s1 s2 ->
  extractDateFromText E (bareDateText A B YY s1 s2)
  = Ok (option_map isoDatePart (validReading E (parseAmbiguousDate E A B YY))).
Proof.
  intros H. rewrite extract_by_keys by apply bareDateText_nonempty.
  destruct (short_date_keys E A B YY s1 s2 H) as (c & ->).
  rewrite bestOf_single, parseShortYear_ambiguous. reflexivity.
Qed.

Lemma search_related (ic : bool) (r : regex) (T T0 : jsstring) (m0 : rmatch) :
  length T = length T0 -> digitwise (paired T T0) ->
  regex_digit_blind ic r = true ->
  search ic r T0 = Some m0 -> groupsUnique T0 m0 = true ->
  exists m, search ic r T = Some m /\ groups m = groups (hybrid T T0 m0).
Proof.
  intros Hlen HR Hr H0 Hu.
  pose proof (search_from_blind ic (paired T T0) r T T0
                (regex_digit_blind_sound ic _ r HR Hr) (paired_texts T T0 Hlen) 0)
    as Hb.
  unfold search in *. rewrite H0 in Hb.
  destruct (search_from ic r 0 T) as [m|]; [|contradiction].
  exists m. split; [reflexivity|]. exact (related_groups T T0 HR m m0 Hb Hu).
Qed.

Lemma search_none_related (ic : bool) (r : regex) (T T0 : jsstring) :
  length T = length T0 -> digitwise (paired T T0) ->
  regex_digit_blind ic r = true ->
  search ic r T0 = None -> search ic r T = None.
Proof.
  intros Hlen HR Hr H0.
  pose proof (search_from_blind ic (paired T T0) r T T0
                (regex_digit_blind_sound ic _ r HR Hr) (paired_texts T T0 Hlen) 0)
    as Hb.
  unfold search in *. rewrite H0 in Hb.
  destruct (search_from ic r 0 T); [contradiction|reflexivity].
Qed.

Lemma test_related (ic : bool) (r : regex) (T T0 : jsstring) :
  length T = length T0 -> digitwise (paired T T0) ->
  regex_digit_blind ic r = true -> test ic r T = test ic r T0.
Proof.
  intros Hlen HR Hr.
  exact (test_blind ic (paired T T0) r T T0
           (regex_digit_blind_sound ic _ r HR Hr) (paired_texts T T0 Hlen)).
Qed.

Lemma grp_groups (m m' : rmatch) (n : nat) :
  groups m = groups m' -> grp m n = grp m' n.
Proof. intros H. unfold grp, group. rewrite H. reflexivity. Qed.

Lemma cleanDateStr_filter (dateStr : jsstring) :
  cleanDateStr dateStr = filter dateChar (trim dateStr).
Proof.
  unfold cleanDateStr. rewrite removeAll_atom. apply filter_ext.
  intros c. unfold dateChar. cbn [atom_test existsb item_test].
  rewrite negb_involutive, orb_false_r, !orb_assoc. reflexivity.
Qed.

Lemma digit_dateChar (c : char) : isDigit c = true -> dateChar c = true.
Proof. intros H. unfold dateChar, isWord. rewrite H, orb_true_r. reflexivity. Qed.

Lemma trim_between (c d : char) (mid : jsstring) :
  isSpace c = false -> isSpace d = false ->
  trim (c :: mid ++ [d]) = c :: mid ++ [d].
Proof.
  intros Hc Hd. unfold trim, trimStart, trimEnd. cbn [dropWhile]. rewrite Hc.
  change (c :: mid ++ [d]) with ((c :: mid) ++ [d]).
  rewrite rev_app_distr. cbn [rev app dropWhile]. rewrite Hd.
  change (d :: rev mid ++ [c]) with ([d] ++ rev (c :: mid)).
  rewrite rev_app_distr, rev_involutive. reflexivity.
Qed.

(** The last attempt of [parseVariousDateFormats], day and month in either
    order, on a text of three numbers. *)
Definition dayMonthAttempt (E : env) (A B Y : jsstring) : DateTime.date :=
  if 12 <? parseInt A then newDateOfString E (slashed B A Y)
  else if 12 <? parseInt B then newDateOfString E (slashed A B Y)
  else match newDateOfString E (slashed A B Y) with
       | Some usDate => Some usDate
       | None => newDateOfString E (slashed B A Y)
       end.

Ltac read_groups :=
  repeat match goal with
  | |- context [grp (hybrid ?t ?t0 ?m) ?n] =>
      let v := eval vm_compute in (grp (hybrid t t0 m) n) in
      replace (grp (hybrid t t0 m) n) with v by (vm_compute; reflexivity)
  end.

Ltac search_by_template T T0 Hlen HR m Hm Hg :=
  match goal with
  | |- context [search false ?r T] =>
      let v := eval vm_compute in (search false r T0) in
      match v with
      | Some ?m0 =>
          destruct (search_related false r T T0 m0 Hlen HR eq_refl
                      ltac:(vm_compute; reflexivity)
                      ltac:(vm_compute; reflexivity)) as (m & Hm & Hg)
      end
  end.

Ltac services_case T T0 y1 y2 :=
  let HR := fresh "HR" in let Hlen := fresh "Hlen" in
  let m := fresh "m" in let Hm := fresh "Hm" in let Hg := fresh "Hg" in
  let Hr := fresh "Hr" in let H20 := fresh "H20" in let H19 := fresh "H19" in
  let Hp := fresh "Hp" in
  assert (HR : digitwise (paired T T0)) by digit_pairs;
  assert (Hlen : length T = length T0) by reflexivity;
  split;
  [search_by_template T T0 Hlen HR m Hm Hg; rewrite Hm;
   rewrite !(grp_groups _ _ _ Hg); read_groups;
   match goal with
   | H1 : isDigit y1 = true, H2 : isDigit y2 = true |- _ =>
       destruct (two_digits_value y1 y2 H1 H2) as (Hr & _ & _);
       destruct (two_digits_printed y1 y2 H1 H2) as (H20 & H19)
   end;
   unfold expandShortYear, century;
   destruct (parseInt [y1; y2] <? 50) eqn:Hp;
   [apply Z.ltb_lt in Hp;
    replace (parseInt [y1; y2] <=? 49) with true
      by (symmetry; apply Z.leb_le; lia);
    rewrite H20
   |apply Z.ltb_ge in Hp;
    replace (parseInt [y1; y2] <=? 49) with false
      by (symmetry; apply Z.leb_gt; lia);
    rewrite H19];
   reflexivity|];
  split;
  [rewrite cleanDateStr_filter;
   cbn [app lit list_ascii_of_string map];
   match goal with
   | |- context [trim (?c :: ?l)] =>
       let l' := eval cbn [removelast] in (removelast l) in
       let d := eval cbn [last] in (last l c) in
       change (c :: l) with (c :: l' ++ [d]);
       rewrite (trim_between c d l') by (apply digit_not_space; assumption)
   end;
   cbn [app filter];
   repeat match goal with
   | Hd : isDigit ?c = true |- context [dateChar ?c] =>
       rewrite (digit_dateChar c Hd)
   end;
   reflexivity|];
  split;
  [match goal with
   | |- test false ?r T = false =>
       rewrite (test_related false r T T0 Hlen HR eq_refl); vm_compute; reflexivity
   end|];
  split;
  [match goal with
   | |- search false ?r T = None =>
       apply (search_none_related false r T T0 Hlen HR eq_refl);
       vm_compute; reflexivity
   end|];
  search_by_template T T0 Hlen HR m Hm Hg;
  exists m; rewrite !(grp_groups _ _ _ Hg);
  (split; [exact Hm|]); repeat split; vm_compute; reflexivity.

(** What [parseVariousDateFormats] does with a slashed date with a
    two-digit year. *)
Lemma short_date_services (E : env) (A B YY : jsstring) :
  isShortDate A B YY (ch "/") (ch "/") ->
  cleanDateStr (slashed A B YY) = slashed A B YY
  /\ shortYearDateString (slashed A B YY)
     = Some (slashed A B (century 49 YY ++ YY))
  /\ parseVariousDateFormats E (slashed A B YY)
     = match newDateOfString E (slashed A B YY) with
       | Some t => Some t
       | None =>
           match newDateOfString E (slashed A B (century 49 YY ++ YY)) with
           | Some t => Some t
           | None => dayMonthAttempt E A B YY
           end
       end.
Proof.
  intros (HA & HlA & HB & HlB & HY & HlY & _ & _).
  assert (Hshort : shortYearDateString (slashed A B YY)
                   = Some (slashed A B (century 49 YY ++ YY))
                   /\ cleanDateStr (slashed A B YY) = slashed A B YY
                   /\ test false (seq [Bol; times 8 digit; Eol]) (slashed A B YY)
                      = false
                   /\ search false
                        (seq [Grp 1 (range 1 2 digit); chr "."; Grp 2 (range 1 2 digit);
                              chr "."; Grp 3 (range 2 4 digit)]) (slashed A B YY)
                      = None
                   /\ exists m,
                        search false
                          (seq [Grp 1 (range 1 2 digit); Atom dash;
                                Grp 2 (range 1 2 digit); Atom dash;
                                Grp 3 (range 2 4 digit)]) (slashed A B YY) = Some m
                        /\ grp m 1 = A /\ grp m 2 = B /\ grp m 3 = YY).
  { unfold shortYearDateString, slashed.
    destruct A as [|a1 [|a2 [|? ?]]]; cbn [length] in HlA; try lia;
    destruct B as [|b1 [|b2 [|? ?]]]; cbn [length] in HlB; try lia;
    destruct YY as [|y1 [|y2 [|? ?]]]; try discriminate HlY;
    split_digits HA; split_digits HB; split_digits HY;
    match goal with
    | |- context [search false _ (?a ++ ?s ++ ?b ++ ?s ++ ?y)] =>
        services_case (a ++ s ++ b ++ s ++ y)
          (labels 0 a ++ s ++ labels 2 b ++ s ++ labels 4 y) y1 y2
    end. }
  destruct Hshort as (Hshort & Hclean & Htest & Hdots & m & Hm & H1 & H2 & H3).
  split; [exact Hclean|]. split; [exact Hshort|].
  unfold parseVariousDateFormats. rewrite Hclean.
  unfold parseAttempts. cbn [firstValid].
  destruct (newDateOfString E (slashed A B YY)) as [t|] eqn:Hdirect;
    [reflexivity|].
  rewrite Hshort.
  destruct (newDateOfString E (slashed A B (century 49 YY ++ YY))) as [t|];
    [reflexivity|].
  rewrite Htest, Hdots, Hm, H1, H2, H3. unfold dayMonthAttempt.
  rewrite Hdirect.
  destruct (12 <? parseInt A); [destruct (newDateOfString E (slashed B A YY));
                                 reflexivity|].
  destruct (12 <? parseInt B); [reflexivity|].
  destruct (newDateOfString E (slashed B A YY)); reflexivity.
Qed.

End ShortYears.

Section ShortYearClaim.
Import Receipt DateParser.
#[local] Open Scope Z_scope.

(** C6, as amended: a two-digit year is put in a century by a pivot.  In
    the universal date parser the pivot is 30: each of its five parsers
    reads a date with the two-digit year YY as it reads the same date
    with the year written out, 20YY for YY up to 30 and 19YY above, and
    so does [extractDateFromText] on a text that is one such date,
    whatever its digits and separators.  In the OCR services the pivot is
    49, in one attempt only: [parseVariousDateFormats] hands a slashed
    date with a two-digit year to the host's [Date] constructor as it
    is, and only if that fails with the year written out, 20YY for YY up
    to 49 and 19YY above; its last attempt hands it over as it is
    again. *)
Theorem two_digit_year_pivots (E : env) (A B YY : jsstring) (s1 s2 : char)
    (monthStr : jsstring) :
  isShortDate A B YY s1 s2 ->
  let yy := parseInt YY in
  let year30 := century 30 YY ++ YY in
  let year49 := century 49 YY ++ YY in
  parseInt year30 = (if yy <=? 30 then 2000 + yy else 1900 + yy)
  /\ parseInt year49 = (if yy <=? 49 then 2000 + yy else 1900 + yy)
  /\ parseUSDate E A B YY = parseUSDate E A B year30
  /\ parseUSDate E A B YY
     = (if (12 <? parseInt A) || (31 <? parseInt B)
        then Throw "Invalid US date format"
        else Ok (newDate E (parseInt year30) (parseInt A - 1) (parseInt B)))
  /\ parseEuropeanDate E A B YY = parseEuropeanDate E A B year30
  /\ parseAmbiguousDate E A B YY = parseAmbiguousDate E A B year30
  /\ parseShortYear E A B YY = parseAmbiguousDate E A B year30
  /\ parseMonthNameDate E monthStr A YY = parseMonthNameDate E monthStr A year30
  /\ extractDateFromText E (bareDateText A B YY s1 s2)
     = Ok (option_map isoDatePart
             (validReading E (parseAmbiguousDate E A B year30)))
  /\ (s1 = ch "/" -> s2 = ch "/" ->
      shortYearDateString (slashed A B YY) = Some (slashed A B year49)
      /\ parseVariousDateFormats E (slashed A B YY)
         = match newDateOfString E (slashed A B YY) with
           | Some t => Some t
           | None =>
               match newDateOfString E (slashed A B year49) with
               | Some t => Some t
               | None => dayMonthAttempt E A B YY
               end
           end).
Proof.
  intros Hd. cbv zeta.
  pose proof Hd as (_ & _ & _ & _ & HY & HlY & _ & _).
  destruct (normalizeYear_two_digits YY HY HlY) as (Hn & Hfix & Hval).
  assert (Hus : parseUSDate E A B YY = parseUSDate E A B (century 30 YY ++ YY))
    by (unfold parseUSDate; rewrite Hn, Hfix; reflexivity).
  assert (Hamb : parseAmbiguousDate E A B YY
                 = parseAmbiguousDate E A B (century 30 YY ++ YY))
    by (unfold parseAmbiguousDate; rewrite Hn, Hfix; reflexivity).
  split; [exact Hval|].
  split.
  { destruct YY as [|y1 [|y2 [|? ?]]]; try discriminate HlY.
    cbn [forallb] in HY. repeat rewrite andb_true_iff in HY.
    destruct HY as (H1 & H2 & _).
    destruct (two_digits_value y1 y2 H1 H2) as (_ & H20 & H19).
    unfold century. destruct (parseInt [y1; y2] <=? 49); assumption. }
  split; [exact Hus|].
  split; [unfold parseUSDate; rewrite Hn; reflexivity|].
  split; [unfold parseEuropeanDate; rewrite Hn, Hfix; reflexivity|].
  split; [exact Hamb|].
  split; [rewrite parseShortYear_ambiguous; exact Hamb|].
  split; [unfold parseMonthNameDate; rewrite Hn, Hfix; reflexivity|].
  split; [rewrite (short_date_result E A B YY s1 s2 Hd), Hamb; reflexivity|].
  intros -> ->.
  destruct (short_date_services E A B YY Hd) as (_ & Hs & Hp).
  split; assumption.
Qed.

Lemma two_digit_year_pivots_witness :
  let E := utcHost 2024 6 1 in
  isShortDate (lit "1") (lit "2") (lit "24") (ch "/") (ch "/")
  /\ parseUSDate E (lit "1") (lit "2") (lit "24") = Ok (Some (utc 2024 1 2))
  /\ parseShortYear E (lit "1") (lit "2") (lit "31") = Some (utc 1931 1 2)
  /\ extractDateFromText E (lit "1/2/24") = Ok (Some (lit "2024-01-02"))
  /\ shortYearDateString (lit "1/2/24") = Some (lit "1/2/2024").
Proof.
  cbv zeta.
  assert (Hd : forall YY, forallb isDigit (lit YY) = true ->
                 length (lit YY) = 2%nat ->
                 isShortDate (lit "1") (lit "2") (lit YY) (ch "/") (ch "/")).
  { intros YY H1 H2. unfold isShortDate, isSeparator.
    repeat split; try assumption; try reflexivity; cbn; lia. }
  split; [apply Hd; reflexivity|].
  pose proof (two_digit_year_pivots (utcHost 2024 6 1) (lit "1") (lit "2")
                (lit "24") (ch "/") (ch "/") (lit "Jan")
                (Hd "24"%string eq_refl eq_refl)) as Hw.
  pose proof (two_digit_year_pivots (utcHost 2024 6 1) (lit "1") (lit "2")
                (lit "31") (ch "/") (ch "/") (lit "Jan")
                (Hd "31"%string eq_refl eq_refl)) as Hw'.
  cbv zeta in Hw, Hw'.
  destruct Hw as (_ & _ & _ & H4 & _ & _ & _ & _ & H9 & H10).
  destruct Hw' as (_ & _ & _ & _ & _ & _ & H7 & _).
  split; [etransitivity; [exact H4|vm_compute; reflexivity]|].
  split; [etransitivity; [exact H7|vm_compute; reflexivity]|].
  split; [etransitivity; [exact H9|vm_compute; reflexivity]|].
  exact (proj1 (H10 eq_refl eq_refl)).
Defined.

End ShortYearClaim.

Section CompactDates.
Import Receipt DateParser.
#[local] Open Scope Z_scope.

Ltac digit_pairs :=
  let c := fresh "c" in let c' := fresh "c" in let Hin := fresh "Hin" in
  intros c c' Hin; unfold paired in Hin; cbn [combine In] in Hin;
  repeat (destruct Hin as [Hin|Hin];
          [injection Hin as <- <-;
           first [left; reflexivity | right; split; [assumption|reflexivity]]|]);
  destruct Hin.

(** X26: a date written year, month, day with hyphens loses its hyphens
    in the cleaning step and gets them back in the attempt for the
    compact format: unless the host's [Date] constructor reads the eight
    digits by themselves, [parseVariousDateFormats] returns what it reads
    from the original text. *)
Theorem compact_attempt_restores_hyphens (E : env) (Y M D : jsstring) :
  forallb isDigit Y = true -> length Y = 4%nat ->
  forallb isDigit M = true -> length M = 2%nat ->
  forallb isDigit D = true -> length D = 2%nat ->
  cleanDateStr (Y ++ lit "-" ++ M ++ lit "-" ++ D) = Y ++ M ++ D
  /\ parseVariousDateFormats E (Y ++ lit "-" ++ M ++ lit "-" ++ D)
     = match newDateOfString E (Y ++ M ++ D) with
       | Some t => Some t
       | None => newDateOfString E (Y ++ lit "-" ++ M ++ lit "-" ++ D)
       end.
Proof.
  intros HY HlY HM HlM HD HlD.
  destruct Y as [|y1 [|y2 [|y3 [|y4 [|? ?]]]]]; try discriminate HlY.
  destruct M as [|m1 [|m2 [|? ?]]]; try discriminate HlM.
  destruct D as [|d1 [|d2 [|? ?]]]; try discriminate HlD.
  cbn [forallb] in HY, HM, HD.
  repeat rewrite andb_true_iff in HY. repeat rewrite andb_true_iff in HM.
  repeat rewrite andb_true_iff in HD.
  destruct HY as (Hy1 & Hy2 & Hy3 & Hy4 & _). destruct HM as (Hm1 & Hm2 & _).
  destruct HD as (Hd1 & Hd2 & _).
  cbn [app lit list_ascii_of_string map].
  change (N_of_ascii "-") with 45%N.
  set (T := [y1; y2; y3; y4; m1; m2; d1; d2]).
  assert (Hclean : cleanDateStr [y1; y2; y3; y4; 45%N; m1; m2; 45%N; d1; d2] = T).
  { rewrite cleanDateStr_filter.
    change [y1; y2; y3; y4; 45%N; m1; m2; 45%N; d1; d2]
      with (y1 :: [y2; y3; y4; 45%N; m1; m2; 45%N; d1] ++ [d2]).
    rewrite trim_between by (apply digit_not_space; assumption).
    cbn [app filter]. change (dateChar 45%N) with false.
    rewrite !digit_dateChar by assumption. reflexivity. }
  split; [exact Hclean|].
  unfold parseVariousDateFormats.
  match goal with
  | |- context [parseAttempts E ?x] => replace x with T by (symmetry; exact Hclean)
  end.
  set (T0 := lit "01234567").
  assert (HR : digitwise (paired T T0)) by (subst T T0; digit_pairs).
  assert (Hlen : length T = length T0) by reflexivity.
  unfold parseAttempts. cbn [firstValid].
  destruct (newDateOfString E T) as [t|]; [reflexivity|].
  unfold shortYearDateString.
  match goal with
  | |- context [search false ?r T] =>
      rewrite (search_none_related false r T T0 Hlen HR eq_refl eq_refl)
  end.
  match goal with
  | |- context [test false ?r T] =>
      rewrite (test_related false r T T0 Hlen HR eq_refl)
  end.
  change (test false (seq [Bol; times 8 digit; Eol]) T0) with true. cbv iota.
  match goal with
  | |- match ?d with _ => _ end = ?rhs =>
      change rhs with d; destruct d as [t|]; [reflexivity|]
  end.
  repeat match goal with
  | |- context [search false ?r T] =>
      rewrite (search_none_related false r T T0 Hlen HR eq_refl eq_refl)
  end.
  reflexivity.
Qed.

Lemma compact_attempt_restores_hyphens_witness :
  cleanDateStr (lit "2024" ++ lit "-" ++ lit "03" ++ lit "-" ++ lit "04")
  = lit "2024" ++ lit "03" ++ lit "04"
  /\ parseVariousDateFormats (utcHost 2024 6 1)
       (lit "2024" ++ lit "-" ++ lit "03" ++ lit "-" ++ lit "04")
     = match newDateOfString (utcHost 2024 6 1) (lit "2024" ++ lit "03" ++ lit "04") with
       | Some t => Some t
       | None => newDateOfString (utcHost 2024 6 1)
                   (lit "2024" ++ lit "-" ++ lit "03" ++ lit "-" ++ lit "04")
       end.
Proof.
  apply (compact_attempt_restores_hyphens (utcHost 2024 6 1)); reflexivity.
Defined.

End CompactDates.

Section ServiceDates.
Import Receipt DateParser.
#[local] Open Scope Z_scope.

Ltac digit_pairs :=
  let c := fresh "c" in let c' := fresh "c" in let Hin := fresh "Hin" in
  intros c c' Hin; unfold paired in Hin; cbn [combine In] in Hin;
  repeat (destruct Hin as [Hin|Hin];
          [injection Hin as <- <-;
           first [left; reflexivity | right; split; [assumption|reflexivity]]|]);
  destruct Hin.

Ltac split_digits H :=
  cbn [forallb] in H; repeat rewrite andb_true_iff in H;
  repeat match goal with H' : _ /\ _ |- _ => destruct H' end.

(** A parsed date that lies in the window of [extractDate]. *)
Definition inServiceWindow (E : env) (d : DateTime.date) : option Z :=
  match d with
  | Some t => if serviceWindow E t then Some t else None
  | None => None
  end.

Lemma extractDateFrom_none (E : env) (ic : bool) (r : regex)
    (tl : list (bool * regex)) (line : jsstring) :
  search ic r line = None ->
  extractDateFrom E ((ic, r) :: tl) line = extractDateFrom E tl line.
Proof. intros H. cbn [extractDateFrom]. rewrite H. reflexivity. Qed.

Lemma extractDateFrom_some (E : env) (ic : bool) (r : regex)
    (tl : list (bool * regex)) (line : jsstring) (m : rmatch) :
  search ic r line = Some m ->
  extractDateFrom E ((ic, r) :: tl) line
  = match inServiceWindow E (parseVariousDateFormats E (dateStrOf m)) with
    | Some t => Ok (Some (isoDatePart t))
    | None => extractDateFrom E tl line
    end.
Proof.
  intros H. cbn [extractDateFrom]. rewrite H. unfold inServiceWindow.
  destruct (parseVariousDateFormats E (dateStrOf m)) as [t|]; [|reflexivity].
  unfold serviceWindow.
  match goal with |- context [if ?c then _ else _] => destruct c end;
    reflexivity.
Qed.

Lemma dateStrOf_group (m : rmatch) (c : char) (s : jsstring) :
  group m 1 = Some (c :: s) -> dateStrOf m = c :: s.
Proof. intros H. unfold dateStrOf. rewrite H. reflexivity. Qed.

Definition isDash (c : char) : Prop := c = ch "-" \/ c = ch "/".

(** One pattern of the table of [extractDate], tried on a text [T] that
    differs from [T0] in its digits. *)
Ltac step_pattern E T T0 Hlen HR :=
  match goal with
  | |- context [extractDateFrom E ((?ic, ?r) :: ?tl) T] =>
      let v := eval vm_compute in (search ic r T0) in
      let Hb := fresh "Hb" in
      assert (Hb : regex_digit_blind ic r = true) by (vm_compute; reflexivity);
      match v with
      | None =>
          rewrite (extractDateFrom_none E ic r tl T
                     (search_none_related ic r T T0 Hlen HR Hb
                        ltac:(vm_compute; reflexivity)));
          clear Hb
      | Some ?m0 =>
          let m := fresh "m" in let Hm := fresh "Hm" in let Hg := fresh "Hg" in
          let Hd := fresh "Hd" in
          destruct (search_related ic r T T0 m0 Hlen HR Hb
                      ltac:(vm_compute; reflexivity)
                      ltac:(vm_compute; reflexivity)) as (m & Hm & Hg);
          clear Hb;
          rewrite (extractDateFrom_some E ic r tl T m Hm);
          let g := eval vm_compute in (group (hybrid T T0 m0) 1) in
          match g with
          | Some (?c :: ?s) =>
              assert (Hd : dateStrOf m = c :: s)
                by (apply dateStrOf_group; unfold group; rewrite Hg;
                    vm_compute; reflexivity);
              rewrite Hd; clear m Hm Hg Hd
          end
      end
  end.

Ltac service_case E T T0 :=
  let HR := fresh "HR" in let Hlen := fresh "Hlen" in
  assert (HR : digitwise (paired T T0)) by digit_pairs;
  assert (Hlen : length T = length T0) by reflexivity;
  repeat step_pattern E T T0 Hlen HR;
  cbn [extractDateFrom firstn bareDateText app];
  change (ch "-") with 45%N; change (ch "/") with 47%N;
  repeat match goal with
  | |- context [inServiceWindow E ?d] => destruct (inServiceWindow E d)
  end;
  reflexivity.

(** What the table of [extractDate] finds in a line that is one numeric
    date with a four-digit year. *)
Lemma numeric_date_from (E : env) (A B Y : jsstring) (s1 s2 : char) :
  isBareDate A B Y s1 s2 -> isDash s1 -> isDash s2 ->
  extractDateFrom E commonDatePatterns (bareDateText A B Y s1 s2)
  = Ok (match inServiceWindow E
                (parseVariousDateFormats E (bareDateText A B Y s1 s2)) with
        | Some t => Some (isoDatePart t)
        | None =>
            option_map isoDatePart
              (inServiceWindow E
                 (parseVariousDateFormats E
                    (bareDateText A B (firstn 2 Y) s1 s2)))
        end).
Proof.
  intros (HA & HlA & HB & HlB & HY & HlY & _ & _) Hs1 Hs2.
  unfold commonDatePatterns, numericDatePattern.
  destruct A as [|a1 [|a2 [|? ?]]]; cbn [length] in HlA; try lia;
  destruct B as [|b1 [|b2 [|? ?]]]; cbn [length] in HlB; try lia;
  destruct Y as [|y1 [|y2 [|y3 [|y4 [|? ?]]]]]; try discriminate HlY;
  split_digits HA; split_digits HB; split_digits HY;
  destruct Hs1 as [-> | ->]; destruct Hs2 as [-> | ->];
  match goal with
  | |- context [extractDateFrom E _ (bareDateText ?a ?b ?y ?s1 ?s2)] =>
      service_case E (bareDateText a b y s1 s2)
        (bareDateText (labels 0 a) (labels 2 b) (labels 4 y) s1 s2)
  end.
Qed.

(** X27: in a line that is one numeric date with a four-digit year and
    separators among hyphen and slash, [extractDate] of either service
    returns the date [parseVariousDateFormats] reads from the line when
    that date lies in the window; when it does not, the pattern for
    two-digit years matches the line up to the second digit of the year,
    and the date read from that text is returned when it lies in the
    window: a date that is too old comes back with the year cut to the
    century, as 2020 for 2018. *)
Theorem rejected_date_is_reread_with_cut_year (E : env) (A B Y : jsstring)
    (s1 s2 : char) :
  isBareDate A B Y s1 s2 -> isDash s1 -> isDash s2 ->
  let whole := parseVariousDateFormats E (bareDateText A B Y s1 s2) in
  let cut := parseVariousDateFormats E (bareDateText A B (firstn 2 Y) s1 s2) in
  let result :=
    match inServiceWindow E whole with
    | Some t => Some (isoDatePart t)
    | None => option_map isoDatePart (inServiceWindow E cut)
    end in
  OcrService.extractDate E (bareDateText A B Y s1 s2) = Ok result
  /\ TesseractOcrService.extractDate E (bareDateText A B Y s1 s2) = Ok result.
Proof.
  intros Hd Hs1 Hs2. cbv zeta.
  pose proof (numeric_date_from E A B Y s1 s2 Hd Hs1 Hs2) as Hc.
  split; [|exact Hc].
  rewrite (services_same_date E (bareDateText A B Y s1 s2)). exact Hc.
Qed.

Lemma rejected_date_is_reread_with_cut_year_witness :
  OcrService.extractDate (slashHost 2024 6 1) (lit "01/15/2018")
  = Ok (Some (lit "2020-01-15"))
  /\ TesseractOcrService.extractDate (slashHost 2024 6 1) (lit "01/15/2018")
     = Ok (Some (lit "2020-01-15")).
Proof.
  assert (Hd : isBareDate (lit "01") (lit "15") (lit "2018") (ch "/") (ch "/")).
  { unfold isBareDate, isSeparator. repeat split; try reflexivity; cbn; lia. }
  pose proof (rejected_date_is_reread_with_cut_year (slashHost 2024 6 1)
                (lit "01") (lit "15") (lit "2018") (ch "/") (ch "/") Hd
                (or_intror eq_refl) (or_intror eq_refl)) as Hw.
  cbv zeta in Hw. destruct Hw as [H1 H2].
  change (lit "01/15/2018")
    with (bareDateText (lit "01") (lit "15") (lit "2018") (ch "/") (ch "/")).
  rewrite H1, H2. vm_compute. split; reflexivity.
Defined.

End ServiceDates.
